(** * The gravity keeper: outgoing batches, signer sets, signatures and the
      address directory, over the module's key-value store.

    The development embeds [x/gravity/keeper/keeper.go] and
    [x/gravity/keeper/batch.go].  The keeper owns one ordered byte-keyed
    store; every entity lives under a one-byte key prefix.  Keys are byte
    strings, as in the code; values are kept decoded (a value of the wrong
    shape under a key is what the codec reports as a decoding failure, and
    the keeper panics on it). *)

From Stdlib Require Import ZArith Lia List.
From Stdlib Require Import Strings.Byte.
From stdpp Require Import gmap list sorting countable strings.

Local Open Scope Z_scope.

(** ** Bytes and fixed-width integers *)

Abbreviation bytes := (list byte).

#[global] Instance byte_eq_dec : EqDecision byte := Byte.byte_eq_dec.

#[global] Program Instance byte_countable : Countable byte :=
  inj_countable Byte.to_N Byte.of_N _.
Next Obligation. intros x. apply Byte.of_to_N. Qed.

Definition Z_of_byte (b : byte) : Z := Z.of_N (Byte.to_N b).

Definition byte_of_Z (z : Z) : byte :=
  default x00 (Byte.of_N (Z.to_N (z mod 256))).

(** Go's [uint64(x)]: the value modulo 2^64. *)
Definition uint64 (z : Z) : Z := z mod 2 ^ 64.

(** Go's [int(x)] / [int64(x)] of an unsigned value: two's complement. *)
Definition int64 (z : Z) : Z := (z + 2 ^ 63) mod 2 ^ 64 - 2 ^ 63.

Definition MaxUint32 : Z := 2 ^ 32 - 1.

(** [w] bytes, most significant first. *)
Fixpoint be_bytes (w : nat) (n : Z) : bytes :=
  match w with
  | O => []
  | S w' => be_bytes w' (n / 256) ++ [byte_of_Z (n mod 256)]
  end.

Definition be_value (bz : bytes) : Z :=
  fold_left (fun acc b => acc * 256 + Z_of_byte b) bz 0.

(** [sdk.Uint64ToBigEndian] *)
Definition Uint64ToBigEndian (n : Z) : bytes := be_bytes 8 n.

(** [binary.BigEndian.Uint64]: reads the first eight bytes and panics
    (here [None]) on a shorter slice. *)
Definition BigEndianUint64 (bz : bytes) : option Z :=
  if decide (8 <= length bz)%nat then Some (be_value (take 8 bz)) else None.

(** [common.BytesToAddress]: keeps the last twenty bytes of a longer slice
    and pads a shorter one with zeros on the left. *)
Definition AddressLength : nat := 20.

Definition BytesToAddress (b : bytes) : bytes :=
  let b' := drop (length b - AddressLength) b in
  replicate (AddressLength - length b') x00 ++ b'.

Definition zeroAddress : bytes := replicate AddressLength x00.

(** [bytes.TrimPrefix] *)
Fixpoint has_prefix (p k : bytes) : bool :=
  match p, k with
  | [], _ => true
  | _ :: _, [] => false
  | x :: p', y :: k' => if decide (x = y) then has_prefix p' k' else false
  end.

Definition TrimPrefix (k p : bytes) : bytes :=
  if has_prefix p k then drop (length p) k else k.

(** ** The ordered store *)

(** Keys compare bytewise, shorter first on a tie. *)
Fixpoint key_leb (a b : bytes) : bool :=
  match a, b with
  | [], _ => true
  | _ :: _, [] => false
  | x :: a', y :: b' =>
      if Z_of_byte x <? Z_of_byte y then true
      else if Z_of_byte y <? Z_of_byte x then false
      else key_leb a' b'
  end.

Definition entry_le {V : Type} (e1 e2 : bytes * V) : Prop :=
  key_leb e1.1 e2.1 = true.

#[global] Instance entry_le_dec {V : Type} (e1 e2 : bytes * V) :
  Decision (entry_le e1 e2).
Proof. unfold entry_le. apply _. Defined.

Section store.
Context {V : Type}.
Implicit Types (kv : gmap bytes V) (p k : bytes) (v : V).

(** [store.Iterator(nil, nil)]: every entry, keys ascending.  An iterator
    walks the entries that were in its range when it was opened. *)
Definition entries kv : list (bytes * V) :=
  merge_sort entry_le (map_to_list kv).

(** [prefix.NewStore(store, p).Iterator(nil, nil)]: the entries whose key
    starts with [p], keys stripped of [p]. *)
Definition Iterator p kv : list (bytes * V) :=
  omap (fun e => if has_prefix p e.1 then Some (drop (length p) e.1, e.2)
                 else None) (entries kv).

Definition ReverseIterator p kv : list (bytes * V) :=
  reverse (Iterator p kv).
End store.

(** ** Data model (package [types]) *)

(** Contract addresses are carried as hex strings in the code
    ([TokenContract], [Contract], [EthereumAddress]); every such string is
    written by [common.Address.Hex], which is injective, so the model keeps
    the twenty address bytes the string denotes and compares those.
    Token amounts are [sdk.Int] values, non-negative in this module. *)
Record ERC20Token := {
  Contract : bytes;
  Amount : N
}.

Record SendToEthereum := {
  Id : Z;
  Sender : string;
  EthereumRecipient : bytes;
  Erc20Token : ERC20Token;
  Erc20Fee : ERC20Token
}.

Record BatchTx := {
  BatchNonce : Z;
  Timeout : Z;
  Transactions : list SendToEthereum;
  TokenContract : bytes;
  Height : Z
}.

Record EthereumSigner := {
  Power : Z;
  EthereumAddress : bytes
}.

Record SignerSetTx := {
  Nonce : Z;
  SignerSetHeight : Z;
  Signers : list EthereumSigner
}.

Record ContractCallTx := {
  InvalidationNonce : Z;
  InvalidationScope : bytes;
  CallAddress : bytes;
  Payload : bytes;
  CallTimeout : Z;
  Tokens : list ERC20Token;
  Fees : list ERC20Token;
  CallHeight : Z
}.

(** [types.OutgoingTx]: the interface with its three implementations. *)
Inductive OutgoingTx :=
| OtxSignerSet (sstx : SignerSetTx)
| OtxBatch (btx : BatchTx)
| OtxContractCall (cctx : ContractCallTx).

Record LatestEthereumBlockHeight := {
  EthereumHeight : Z;
  CosmosHeight : Z
}.

Record EthereumEventVoteRecord := {
  Votes : list string;
  Accepted : bool
}.

Record Params := {
  GravityId : string;
  BridgeEthereumAddress : string;
  BridgeChainId : Z;
  AverageBlockTime : Z;
  AverageEthereumBlockTime : Z;
  TargetEthTxTimeout : Z;
  BridgeActive : bool
}.

(** What a key of the store holds: raw bytes (addresses, big-endian
    counters, signatures) or a codec-encoded message. *)
Inductive Val :=
| VBytes (bz : bytes)
| VOutgoingTx (otx : OutgoingTx)
| VSendToEthereum (ste : SendToEthereum)
| VHeight (h : LatestEthereumBlockHeight)
| VSignerSetTx (sstx : SignerSetTx)
| VVoteRecord (r : EthereumEventVoteRecord).

Inductive Event :=
| EventOutgoingBatch (bridgeContract : string) (bridgeChainID : Z) (batchNonce : Z)
| EventOutgoingBatchCanceled (bridgeContract : string) (bridgeChainID : Z) (batchNonce : Z)
| EventMultisigUpdateRequest (bridgeContract : string) (bridgeChainID : Z) (signerSetNonce : Z).

Inductive Error :=
| ErrInvalid (msg : string)
| ErrBurn (cause : string).

(** [sdk.Coins]; [sdk.NewCoins] drops the coins of amount zero. *)
Abbreviation Coin := (string * N)%type.

Definition NewCoin (denom : string) (amount : N) : Coin := (denom, amount).

Definition NewCoins (coins : list Coin) : list Coin :=
  filter (fun c => c.2 <> 0%N) coins.

Record BurnCall := {
  burnModule : string;
  burnCoins : list Coin
}.

(** The constants of package [types] the keeper refers to.  Their values
    are not part of the keeper; the store prefixes are pairwise distinct
    bytes, and so are the three type tags of the outgoing transactions. *)
Class TypesConsts := {
  ValidatorEthereumAddressKey : byte;
  OrchestratorValidatorAddressKey : byte;
  EthereumOrchestratorAddressKey : byte;
  EthereumSignatureKey : byte;
  EthereumEventVoteRecordKey : byte;
  OutgoingTxKey : byte;
  SendToEthereumKey : byte;
  LastEventNonceByValidatorKey : byte;
  LastObservedEventNonceKey : byte;
  LatestSignerSetTxNonceKey : byte;
  LastSlashedOutgoingTxBlockKey : byte;
  LastOutgoingBatchNonceKey : byte;
  LastEthereumBlockHeightKey : byte;
  LastUnBondingBlockHeightKey : byte;
  LastObservedSignerSetKey : byte;
  EthereumHeightVoteKey : byte;
  SignerSetTxPrefixByte : byte;
  BatchTxPrefixByte : byte;
  ContractCallTxPrefixByte : byte;
  ModuleName : string
}.

Definition store_prefixes `{TC : TypesConsts} : list byte :=
  [ ValidatorEthereumAddressKey; OrchestratorValidatorAddressKey;
    EthereumOrchestratorAddressKey; EthereumSignatureKey;
    EthereumEventVoteRecordKey; OutgoingTxKey; SendToEthereumKey;
    LastEventNonceByValidatorKey; LastObservedEventNonceKey;
    LatestSignerSetTxNonceKey; LastSlashedOutgoingTxBlockKey;
    LastOutgoingBatchNonceKey; LastEthereumBlockHeightKey;
    LastUnBondingBlockHeightKey; LastObservedSignerSetKey;
    EthereumHeightVoteKey ].

Definition type_tags `{TC : TypesConsts} : list byte :=
  [ SignerSetTxPrefixByte; BatchTxPrefixByte; ContractCallTxPrefixByte ].

Definition consts_distinct `{TC : TypesConsts} : Prop :=
  NoDup store_prefixes /\ NoDup type_tags.

#[global] Instance consts_distinct_dec `{TC : TypesConsts} : Decision consts_distinct.
Proof. unfold consts_distinct. apply _. Defined.

(** The collaborators the keeper calls but does not own: the block context,
    the staking and bank keepers, the ERC20 directory, the codec and the
    bech32 parser. *)
Record Env := {
  BlockHeight : Z;
  GetBondedValidatorsByPower : list bytes;
  GetLastValidatorPower : bytes -> Z;
  ERC20ToDenomLookup : bytes -> bool * string;
  BankBurnCoins : list BurnCall -> BurnCall -> option string;
  ValAddressFromBech32 : string -> option bytes;
  Marshal : Val -> bytes
}.

(** The state a keeper call runs on: the module's store, the parameter
    subspace, the event manager and the calls made to the bank. *)
Record State := {
  kv : gmap bytes Val;
  params : Params;
  events : list Event;
  burns : list BurnCall
}.

Definition with_kv (f : gmap bytes Val -> gmap bytes Val) (s : State) : State :=
  {| kv := f (kv s); params := params s; events := events s; burns := burns s |}.

Definition with_params (p : Params) (s : State) : State :=
  {| kv := kv s; params := p; events := events s; burns := burns s |}.

Definition with_event (e : Event) (s : State) : State :=
  {| kv := kv s; params := params s; events := events s ++ [e]; burns := burns s |}.

Definition with_burn (c : BurnCall) (s : State) : State :=
  {| kv := kv s; params := params s; events := events s; burns := burns s ++ [c] |}.

(** ** Stateful code: a state monad in which a Go panic is [None] *)

Definition M (A : Type) : Type := State -> option (A * State).

Definition ret {A} (a : A) : M A := fun s => Some (a, s).

Definition bind {A B} (m : M A) (f : A -> M B) : M B :=
  fun s => match m s with
           | Some (a, s') => f a s'
           | None => None
           end.

Definition panic {A} : M A := fun _ => None.

Definition get_state : M State := fun s => Some (s, s).

Definition modify (f : State -> State) : M unit := fun s => Some (tt, f s).

(** A reader that may panic, run inside [M]. *)
Definition read {A} (f : State -> option A) : M A :=
  fun s => match f s with Some a => Some (a, s) | None => None end.

Notation "x <- m ;; k" := (bind m (fun x => k))
  (at level 100, m at next level, right associativity).
Notation "m ;;; k" := (bind m (fun _ => k))
  (at level 100, right associativity).

(** [for ; iter.Valid(); iter.Next() { if cb(...) { break } }] over the
    entries of an iterator; the callback's captured variables are the
    accumulator. *)
Fixpoint iterate {X A} (l : list X) (cb : A -> X -> M (A * bool)) (a : A) : M A :=
  match l with
  | [] => ret a
  | x :: l' =>
      r <- cb a x ;;
      if r.2 then ret r.1 else iterate l' cb r.1
  end.

Section Keeper.
Context `{TC : TypesConsts} (env : Env).

(** *** Keys (package [types]) *)

(** Modelled from the spec: [types.MakeOutgoingTxKey] is not among the
    sources; "all outgoing entries live under a common outgoing-tx prefix
    followed by their store index". *)
Definition MakeOutgoingTxKey (storeIndex : bytes) : bytes :=
  OutgoingTxKey :: storeIndex.

(** Modelled from the spec: [types.MakeSignerSetTxKey] is not among the
    sources; "SignerSetTx: tag ‖ big-endian(nonce)". *)
Definition MakeSignerSetTxKey (nonce : Z) : bytes :=
  SignerSetTxPrefixByte :: Uint64ToBigEndian nonce.

(** Modelled from the spec: [types.MakeBatchTxKey] is not among the
    sources; "BatchTx: tag ‖ tokenContract (20B) ‖ big-endian(batchNonce)". *)
Definition MakeBatchTxKey (tokenContract : bytes) (nonce : Z) : bytes :=
  BatchTxPrefixByte :: tokenContract ++ Uint64ToBigEndian nonce.

(** Modelled from the spec: [types.MakeContractCallTxKey] is not among the
    sources; "ContractCallTx: tag ‖ invalidationScope ‖
    big-endian(invalidationNonce)". *)
Definition MakeContractCallTxKey (scope : bytes) (nonce : Z) : bytes :=
  ContractCallTxPrefixByte :: scope ++ Uint64ToBigEndian nonce.

(** Modelled from the spec: the [GetStoreIndex] methods of the three
    outgoing transactions are not among the sources; the store index is
    "the concatenation of a 1-byte type tag with a type-specific
    identity". *)
Definition GetStoreIndex (otx : OutgoingTx) : bytes :=
  match otx with
  | OtxSignerSet sstx => MakeSignerSetTxKey (Nonce sstx)
  | OtxBatch btx => MakeBatchTxKey (TokenContract btx) (BatchNonce btx)
  | OtxContractCall cctx =>
      MakeContractCallTxKey (InvalidationScope cctx) (InvalidationNonce cctx)
  end.

(** Modelled from the spec: [types.MakeEthereumSignatureKey] is not among
    the sources; "signatures live under a signature prefix followed by
    the store index followed by the validator address". *)
Definition MakeEthereumSignatureKey (storeIndex validator : bytes) : bytes :=
  EthereumSignatureKey :: storeIndex ++ validator.

(** Modelled from the spec: the three directory key makers are not among
    the sources; "three mappings, each with a distinct 1-byte prefix". *)
Definition MakeOrchestratorValidatorAddressKey (orch : bytes) : bytes :=
  OrchestratorValidatorAddressKey :: orch.

Definition MakeValidatorEthereumAddressKey (val : bytes) : bytes :=
  ValidatorEthereumAddressKey :: val.

Definition MakeEthereumOrchestratorAddressKey (eth : bytes) : bytes :=
  EthereumOrchestratorAddressKey :: eth.

(** Modelled from the spec: [types.MakeSendToEthereumKey] is not among the
    sources; the pool is "ordered by (token contract, fee amount
    descending, id)": the key is the fee's contract, the fee amount on
    thirty-two big-endian bytes and the id, read in reverse. *)
Definition MakeSendToEthereumKey (id : Z) (fee : ERC20Token) : bytes :=
  SendToEthereumKey ::
    Contract fee ++ be_bytes 32 (Z.of_N (Amount fee)) ++ Uint64ToBigEndian id.

(** Modelled from the spec: [types.MakeEthereumHeightVoteKey] is not among
    the sources; a per-validator record under its own prefix. *)
Definition MakeEthereumHeightVoteKey (val : bytes) : bytes :=
  EthereumHeightVoteKey :: val.

(** Modelled from the spec: the [GetFees] method of [BatchTx] is not
    among the sources; "summed fees" of the batch's transactions. *)
Definition GetFees (b : BatchTx) : N :=
  fold_left (fun sum t => (sum + Amount (Erc20Fee t))%N) (Transactions b) 0%N.

(** *** The store, as the keeper reads and writes it *)

(** The bytes [store.Get] hands back for a stored value. *)
Definition raw (v : Val) : bytes :=
  match v with
  | VBytes bz => bz
  | _ => Marshal env v
  end.

Definition storeGet (s : State) (key : bytes) : option bytes :=
  raw <$> kv s !! key.

Definition storeSet (key : bytes) (v : Val) : M unit :=
  modify (with_kv (insert key v)).

Definition storeDelete (key : bytes) : M unit :=
  modify (with_kv (delete key)).

Definition EmitEvent (e : Event) : M unit := modify (with_event e).

(** [for _, x := range l { body }] *)
Fixpoint for_each {X} (l : list X) (body : X -> M unit) : M unit :=
  match l with
  | [] => ret tt
  | x :: l' => body x ;;; for_each l' body
  end.

(** [binary.BigEndian.Uint64] on a value that was read: a panic on fewer
    than eight bytes. *)
Definition readUint64 (bz : bytes) : option Z := BigEndianUint64 bz.

(** *** SignerSetTxNonce *)

Definition GetLatestSignerSetTxNonce (s : State) : option Z :=
  match storeGet s [LatestSignerSetTxNonceKey] with
  | Some bz => readUint64 bz
  | None => Some 0
  end.

Definition incrementLatestSignerSetTxNonce : M Z :=
  current <- read GetLatestSignerSetTxNonce ;;
  let next := uint64 (current + 1) in
  storeSet [LatestSignerSetTxNonceKey] (VBytes (Uint64ToBigEndian next)) ;;;
  ret next.

(** *** Ethereum signatures *)

Definition getEthereumSignature (s : State) (storeIndex validator : bytes)
  : option bytes :=
  storeGet s (MakeEthereumSignatureKey storeIndex validator).

(** The confirmation is given by its store index and its signature. *)
Definition SetEthereumSignature (storeIndex signature val : bytes) : M bytes :=
  let key := MakeEthereumSignatureKey storeIndex val in
  storeSet key (VBytes signature) ;;;
  ret key.

(** [iterateEthereumSignatures] with the callback of
    [GetEthereumSignatures]: validator and signature, validators
    ascending. *)
Definition GetEthereumSignatures (s : State) (storeIndex : bytes)
  : list (bytes * bytes) :=
  map (fun e => (e.1, raw e.2))
      (Iterator (EthereumSignatureKey :: storeIndex) (kv s)).

Definition DeleteEthereumSignatures (otx : OutgoingTx) : M unit :=
  s <- get_state ;;
  let pre := EthereumSignatureKey :: GetStoreIndex otx in
  for_each (Iterator pre (kv s)) (fun e => storeDelete (pre ++ e.1)).

(** *** The address directory *)

Definition SetOrchestratorValidatorAddress (val orchAddr : bytes) : M unit :=
  storeSet (MakeOrchestratorValidatorAddressKey orchAddr) (VBytes val).

Definition GetOrchestratorValidatorAddress (s : State) (orchAddr : bytes)
  : option bytes :=
  storeGet s (MakeOrchestratorValidatorAddressKey orchAddr).

Definition setValidatorEthereumAddress (valAddr ethAddr : bytes) : M unit :=
  storeSet (MakeValidatorEthereumAddressKey valAddr) (VBytes ethAddr).

Definition GetValidatorEthereumAddress (s : State) (valAddr : bytes) : bytes :=
  BytesToAddress
    (default [] (storeGet s (MakeValidatorEthereumAddressKey valAddr))).

(** The iterator is opened on the module's store itself. *)
Definition getValidatorsByEthereumAddress (s : State) (ethAddr : bytes)
  : list bytes :=
  omap (fun e =>
          if bool_decide (BytesToAddress (raw e.2) = ethAddr)
          then Some (TrimPrefix e.1 [ValidatorEthereumAddressKey])
          else None)
       (entries (kv s)).

Definition setEthereumOrchestratorAddress (ethAddr orch : bytes) : M unit :=
  storeSet (MakeEthereumOrchestratorAddressKey ethAddr) (VBytes orch).

Definition GetEthereumOrchestratorAddress (s : State) (ethAddr : bytes)
  : option bytes :=
  storeGet s (MakeEthereumOrchestratorAddressKey ethAddr).

(** Account addresses are compared through their bech32 rendering, which
    is injective on the bytes. *)
Definition getEthereumAddressesByOrchestrator (s : State) (orch : bytes)
  : list bytes :=
  omap (fun e =>
          if bool_decide (raw e.2 = orch)
          then Some (BytesToAddress
                       (TrimPrefix e.1 [EthereumOrchestratorAddressKey]))
          else None)
       (entries (kv s)).

(** The part of [getDelegateKeys] that walks the validator index: the
    iterator is opened on the prefix store. *)
Definition delegateKeyPairs (s : State) : list (bytes * bytes) :=
  map (fun e => (e.1, BytesToAddress (raw e.2)))
      (Iterator [ValidatorEthereumAddressKey] (kv s)).

(** *** The signer set *)

(** [sdk.NewUint(p).MulUint64(math.MaxUint32).QuoUint64(totalPower).Uint64()]:
    the product is taken on unbounded integers; the quotient panics on a
    zero divisor and the conversion panics above 64 bits. *)
Definition normalizePower (totalPower p : Z) : option Z :=
  if totalPower =? 0 then None
  else
    let q := (p * MaxUint32) / totalPower in
    if q <? 2 ^ 64 then Some q else None.

(** The first loop of [CurrentSignerSet]: the signers with their raw
    power, and the 64-bit running total.  The address test is the code's
    [ethAddr.Hex() != "0x00…00"]. *)
Fixpoint collectSigners (s : State) (validators : list bytes)
    (ethereumSigners : list EthereumSigner) (totalPower : Z)
  : list EthereumSigner * Z :=
  match validators with
  | [] => (ethereumSigners, totalPower)
  | val :: rest =>
      let p := uint64 (GetLastValidatorPower env val) in
      let ethAddr := GetValidatorEthereumAddress s val in
      if bool_decide (ethAddr <> zeroAddress)
      then collectSigners s rest
             (ethereumSigners ++ [{| Power := p; EthereumAddress := ethAddr |}])
             (uint64 (totalPower + p))
      else collectSigners s rest ethereumSigners totalPower
  end.

(** The second loop: each power is overwritten in place. *)
Fixpoint normalizeSigners (totalPower : Z) (signers : list EthereumSigner)
  : option (list EthereumSigner) :=
  match signers with
  | [] => Some []
  | es :: rest =>
      match normalizePower totalPower (Power es) with
      | None => None
      | Some q =>
          match normalizeSigners totalPower rest with
          | None => None
          | Some rest' =>
              Some ({| Power := q; EthereumAddress := EthereumAddress es |}
                      :: rest')
          end
      end
  end.

Definition CurrentSignerSet (s : State) : option (list EthereumSigner) :=
  let '(ethereumSigners, totalPower) :=
    collectSigners s (GetBondedValidatorsByPower env) [] 0 in
  normalizeSigners totalPower ethereumSigners.

(** *** Parameters *)

Definition getBridgeContractAddress (s : State) : string :=
  BridgeEthereumAddress (params s).

Definition getBridgeChainID (s : State) : Z := BridgeChainId (params s).

(** *** Outgoing transactions *)

Definition GetOutgoingTx (s : State) (storeIndex : bytes)
  : option (option OutgoingTx) :=
  match kv s !! MakeOutgoingTxKey storeIndex with
  | None => Some None
  | Some (VOutgoingTx otx) => Some (Some otx)
  | Some _ => None
  end.

Definition SetOutgoingTx (outgoing : OutgoingTx) : M unit :=
  storeSet (MakeOutgoingTxKey (GetStoreIndex outgoing)) (VOutgoingTx outgoing).

Definition DeleteOutgoingTx (storeIndex : bytes) : M unit :=
  storeDelete (MakeOutgoingTxKey storeIndex).

Definition decodeOutgoing {A} (cb : A -> bytes -> OutgoingTx -> M (A * bool))
    (a : A) (e : bytes * Val) : M (A * bool) :=
  match e.2 with
  | VOutgoingTx otx => cb a e.1 otx
  | _ => panic
  end.

Definition IterateOutgoingTxsByType {A} (prefixByte : byte)
    (cb : A -> bytes -> OutgoingTx -> M (A * bool)) (a : A) : M A :=
  s <- get_state ;;
  iterate (ReverseIterator (MakeOutgoingTxKey [prefixByte]) (kv s))
          (decodeOutgoing cb) a.

Definition iterateOutgoingTxs {A}
    (cb : A -> bytes -> OutgoingTx -> M (A * bool)) (a : A) : M A :=
  s <- get_state ;;
  iterate (ReverseIterator [OutgoingTxKey] (kv s)) (decodeOutgoing cb) a.

Definition GetLatestSignerSetTx (s : State) : option (option SignerSetTx) :=
  match GetLatestSignerSetTxNonce s with
  | None => None
  | Some n =>
      match GetOutgoingTx s (MakeSignerSetTxKey n) with
      | None => None
      | Some (Some (OtxSignerSet sstx)) => Some (Some sstx)
      | Some _ => Some None
      end
  end.

Definition setLastObservedSignerSetTx (signerSet : SignerSetTx) : M unit :=
  storeSet [LastObservedSignerSetKey] (VSignerSetTx signerSet).

Definition GetLastObservedSignerSetTx (s : State) : option (option SignerSetTx) :=
  match kv s !! [LastObservedSignerSetKey] with
  | None => Some None
  | Some (VSignerSetTx sstx) => Some (Some sstx)
  | Some _ => None
  end.

(** *** Observed heights and the timeout *)

(** Modelled from the spec: [GetLastObservedEthereumBlockHeight] is not
    among the sources; the "module-level aggregated record" that the
    migration writes under [LastEthereumBlockHeightKey], both heights
    zero when nothing was stored. *)
Definition GetLastObservedEthereumBlockHeight (s : State)
  : option LatestEthereumBlockHeight :=
  match kv s !! [LastEthereumBlockHeightKey] with
  | None => Some {| EthereumHeight := 0; CosmosHeight := 0 |}
  | Some (VHeight h) => Some h
  | Some _ => None
  end.

(** Unsigned division; a zero divisor is a run-time panic. *)
Definition udiv (a b : Z) : option Z :=
  if b =? 0 then None else Some (a / b).

Definition getTimeoutHeight (s : State) : option Z :=
  let p := params s in
  let currentCosmosHeight := BlockHeight env in
  match GetLastObservedEthereumBlockHeight s with
  | None => None
  | Some heights =>
      if (CosmosHeight heights =? 0) || (EthereumHeight heights =? 0)
      then Some 0
      else
        let projectedMillis :=
          uint64 (uint64 (uint64 currentCosmosHeight - CosmosHeight heights)
                  * AverageBlockTime p) in
        match udiv projectedMillis (AverageEthereumBlockTime p) with
        | None => None
        | Some q =>
            let projectedCurrentEthereumHeight :=
              uint64 (q + EthereumHeight heights) in
            match udiv (TargetEthTxTimeout p) (AverageEthereumBlockTime p) with
            | None => None
            | Some blocksToAdd =>
                Some (uint64 (projectedCurrentEthereumHeight + blocksToAdd))
            end
        end
  end.

Definition CreateSignerSetTx : M SignerSetTx :=
  nonce <- incrementLatestSignerSetTxNonce ;;
  currSignerSet <- read CurrentSignerSet ;;
  let newSignerSetTx :=
    {| Nonce := nonce; SignerSetHeight := uint64 (BlockHeight env);
       Signers := currSignerSet |} in
  s <- get_state ;;
  EmitEvent (EventMultisigUpdateRequest (getBridgeContractAddress s)
               (int64 (getBridgeChainID s)) nonce) ;;;
  SetOutgoingTx (OtxSignerSet newSignerSetTx) ;;;
  ret newSignerSetTx.

(** *** The unbatched pool *)

(** Modelled from the spec: [setUnbatchedSendToEthereum] is not among the
    sources; it puts the transaction "back into U in its original
    fee-indexed slot". *)
Definition setUnbatchedSendToEthereum (ste : SendToEthereum) : M unit :=
  storeSet (MakeSendToEthereumKey (Id ste) (Erc20Fee ste)) (VSendToEthereum ste).

(** Modelled from the spec: [deleteUnbatchedSendToEthereum] is not among
    the sources; "removing each from U as it is selected". *)
Definition deleteUnbatchedSendToEthereum (id : Z) (fee : ERC20Token) : M unit :=
  storeDelete (MakeSendToEthereumKey id fee).

Definition decodeSendToEthereum {A} (cb : A -> SendToEthereum -> M (A * bool))
    (a : A) (e : bytes * Val) : M (A * bool) :=
  match e.2 with
  | VSendToEthereum ste => cb a ste
  | _ => panic
  end.

(** Modelled from the spec: [iterateUnbatchedSendToEthereumsByContract] is
    not among the sources; the "entries of U filtered by tokenContract,
    ordered by fee descending", the callback returning a stop flag. *)
Definition iterateUnbatchedSendToEthereumsByContract {A} (contract : bytes)
    (cb : A -> SendToEthereum -> M (A * bool)) (a : A) : M A :=
  s <- get_state ;;
  iterate (ReverseIterator (SendToEthereumKey :: contract) (kv s))
          (decodeSendToEthereum cb) a.

(** *** batch.go *)

(** The value [incrementLastOutgoingBatchNonce] reads before adding one. *)
Definition lastOutgoingBatchNonce (s : State) : option Z :=
  match storeGet s [LastOutgoingBatchNonceKey] with
  | Some bz => readUint64 bz
  | None => Some 0
  end.

Definition incrementLastOutgoingBatchNonce : M Z :=
  id <- read lastOutgoingBatchNonce ;;
  let newId := uint64 (id + 1) in
  storeSet [LastOutgoingBatchNonceKey] (VBytes (Uint64ToBigEndian newId)) ;;;
  ret newId.

(** The callback's type assertion to a batch leaves a nil pointer for
    another variant, and the field access on it panics. *)
Definition getLastOutgoingBatchByTokenType (token : bytes) : M (option BatchTx) :=
  r <- IterateOutgoingTxsByType BatchTxPrefixByte
         (fun (acc : option BatchTx * Z) _ otx =>
            match otx with
            | OtxBatch btx =>
                if bool_decide (TokenContract btx = token)
                   && (acc.2 <? BatchNonce btx)
                then ret ((Some btx, BatchNonce btx), false)
                else ret (acc, false)
            | _ => panic
            end)
         (None, 0) ;;
  ret r.1.

(** The counter [i] is a Go [int]; it counts the entries visited. *)
Definition getBatchFeesByTokenType (tokenContractAddr : bytes) (maxElements : Z)
  : M N :=
  r <- iterateUnbatchedSendToEthereumsByContract tokenContractAddr
         (fun (acc : N * Z) tx =>
            let feeAmount := (acc.1 + Amount (Erc20Fee tx))%N in
            let i := acc.2 + 1 in
            ret ((feeAmount, i), bool_decide (i = maxElements)))
         (0%N, 0) ;;
  ret r.1.

Definition CancelBatchTx (batch : BatchTx) : M unit :=
  for_each (Transactions batch) setUnbatchedSendToEthereum ;;;
  DeleteOutgoingTx (GetStoreIndex (OtxBatch batch)) ;;;
  s <- get_state ;;
  EmitEvent (EventOutgoingBatchCanceled (getBridgeContractAddress s)
               (int64 (getBridgeChainID s)) (BatchNonce batch)).

Definition BuildBatchTx (contractAddress : bytes) (maxElements : Z)
  : M (option BatchTx) :=
  if maxElements =? 0 then ret None
  else
    lastBatch <- getLastOutgoingBatchByTokenType contractAddress ;;
    moreProfitable <-
      match lastBatch with
      | Some lb =>
          fees <- getBatchFeesByTokenType contractAddress maxElements ;;
          ret (fees <=? GetFees lb)%N
      | None => ret false
      end ;;
    if (moreProfitable : bool) then ret None
    else
      selectedStes <-
        iterateUnbatchedSendToEthereumsByContract contractAddress
          (fun (selected : list SendToEthereum) ste =>
             let selected' := selected ++ [ste] in
             deleteUnbatchedSendToEthereum (Id ste) (Erc20Fee ste) ;;;
             ret (selected',
                  bool_decide (Z.of_nat (length selected') = maxElements)))
          [] ;;
      if bool_decide (length selectedStes = 0%nat) then ret None
      else
        nonce <- incrementLastOutgoingBatchNonce ;;
        timeout <- read getTimeoutHeight ;;
        let batch :=
          {| BatchNonce := nonce; Timeout := timeout;
             Transactions := selectedStes; TokenContract := contractAddress;
             Height := uint64 (BlockHeight env) |} in
        SetOutgoingTx (OtxBatch batch) ;;;
        s <- get_state ;;
        EmitEvent (EventOutgoingBatch (getBridgeContractAddress s)
                     (int64 (getBridgeChainID s)) (BatchNonce batch)) ;;;
        ret (Some batch).

(** The burn loop of [batchTxExecuted]: [None] is the early return on a
    transaction of another contract. *)
Fixpoint totalToBurn (tokenContract : bytes) (txs : list SendToEthereum)
    (total : N) : option N :=
  match txs with
  | [] => Some total
  | tx :: rest =>
      if bool_decide (Contract (Erc20Token tx) <> tokenContract)
         || bool_decide (Contract (Erc20Fee tx) <> tokenContract)
      then None
      else totalToBurn tokenContract rest
             (total + (Amount (Erc20Token tx) + Amount (Erc20Fee tx)))%N
  end.

Definition BurnCoins (moduleName : string) (coins : list Coin)
  : M (option string) :=
  s <- get_state ;;
  let call := {| burnModule := moduleName; burnCoins := coins |} in
  modify (with_burn call) ;;;
  ret (BankBurnCoins env (burns s) call).

Definition asBatchTx (otx : OutgoingTx) : option BatchTx :=
  match otx with
  | OtxBatch btx => Some btx
  | _ => None
  end.

(** The callback that cancels the earlier batches of the same token. *)
Definition cancelEarlier (batchTx : option BatchTx)
    (_ : unit) (_ : bytes) (otx : OutgoingTx) : M (unit * bool) :=
  match asBatchTx otx, batchTx with
  | Some btx, Some b =>
      (if (BatchNonce btx <? BatchNonce b)
          && bool_decide (TokenContract btx = TokenContract b)
       then CancelBatchTx btx
       else ret tt) ;;;
      ret (tt, false)
  | _, _ => panic
  end.

Definition errInvalidBatch : Error :=
  ErrInvalid "detected invalid batch, contains tx with different contract address".

Definition batchTxExecuted (tokenContract : bytes) (nonce : Z)
  : M (option Error) :=
  found <- read (fun s => GetOutgoingTx s (MakeBatchTxKey tokenContract nonce)) ;;
  match found with
  | None => ret None
  | Some otx =>
      let batchTx := asBatchTx otx in
      IterateOutgoingTxsByType BatchTxPrefixByte (cancelEarlier batchTx) tt ;;;
      match batchTx with
      | None => panic
      | Some b =>
          let '(isCosmosOriginated, denom) :=
            ERC20ToDenomLookup env (TokenContract b) in
          if negb isCosmosOriginated then
            match totalToBurn (TokenContract b) (Transactions b) 0%N with
            | None => ret (Some errInvalidBatch)
            | Some total =>
                let burnVouchers := NewCoins [NewCoin denom total] in
                err <- BurnCoins ModuleName burnVouchers ;;
                match err with
                | Some cause => ret (Some (ErrBurn cause))
                | None =>
                    DeleteOutgoingTx (GetStoreIndex (OtxBatch b)) ;;;
                    ret None
                end
            end
          else
            DeleteOutgoingTx (GetStoreIndex (OtxBatch b)) ;;;
            ret None
      end
  end.

(** *** Migration *)

(** Modelled from the spec: [setLastObservedEventNonce] is not among the
    sources; the persisted counter [lastObservedEventNonce]. *)
Definition setLastObservedEventNonce (nonce : Z) : M unit :=
  storeSet [LastObservedEventNonceKey] (VBytes (Uint64ToBigEndian nonce)).

(** Modelled from the spec: [setLastEventNonceByValidator] is not among
    the sources; "the per-validator last-event-nonce records". *)
Definition setLastEventNonceByValidator (val : bytes) (nonce : Z) : M unit :=
  storeSet (LastEventNonceByValidatorKey :: val)
           (VBytes (Uint64ToBigEndian nonce)).

(** Modelled from the spec: [iterateEthereumEventVoteRecords] is not
    among the sources; "the enumeration callback" over the event-vote
    records. *)
Definition iterateEthereumEventVoteRecords
    (cb : bytes -> EthereumEventVoteRecord -> M bool) : M unit :=
  s <- get_state ;;
  iterate (Iterator [EthereumEventVoteRecordKey] (kv s))
          (fun (_ : unit) e =>
             match e.2 with
             | VVoteRecord r => stop <- cb e.1 r ;; ret (tt, stop)
             | _ => panic
             end) tt.

(** The body of the first loop: the signatures of the outgoing
    transaction, then the transaction itself. *)
Definition sweepOutgoing (e : bytes * Val) : M unit :=
  match e.2 with
  | VOutgoingTx otx =>
      DeleteEthereumSignatures otx ;;;
      storeDelete ([OutgoingTxKey] ++ e.1)
  | _ => panic
  end.

(** The callback given to [iterateEthereumEventVoteRecords]; an address
    that does not parse is a panic. *)
Definition resetVoters (_ : bytes) (voteRecord : EthereumEventVoteRecord)
  : M bool :=
  for_each (Votes voteRecord)
    (fun vote =>
       match ValAddressFromBech32 env vote with
       | None => panic
       | Some val => setLastEventNonceByValidator val 0
       end) ;;;
  ret false.

Definition MigrateGravityContract (newBridgeAddress : string)
    (bridgeDeploymentHeight : Z) : M unit :=
  s0 <- get_state ;;
  for_each (ReverseIterator [OutgoingTxKey] (kv s0)) sweepOutgoing ;;;
  storeSet [LatestSignerSetTxNonceKey] (VBytes (Uint64ToBigEndian 0)) ;;;
  setLastObservedEventNonce 0 ;;;
  iterateEthereumEventVoteRecords resetVoters ;;;
  s1 <- get_state ;;
  for_each (Iterator [EthereumEventVoteRecordKey] (kv s1))
    (fun e => storeDelete ([EthereumEventVoteRecordKey] ++ e.1)) ;;;
  let height :=
    {| EthereumHeight := uint64 (bridgeDeploymentHeight - 1);
       CosmosHeight := uint64 (BlockHeight env) |} in
  storeSet [LastEthereumBlockHeightKey] (VHeight height) ;;;
  setLastObservedSignerSetTx {| Nonce := 0; SignerSetHeight := 0; Signers := [] |} ;;;
  storeSet [LastOutgoingBatchNonceKey] (VBytes (Uint64ToBigEndian 0)) ;;;
  s2 <- get_state ;;
  let p := params s2 in
  modify (with_params
            {| GravityId := GravityId p;
               BridgeEthereumAddress := newBridgeAddress;
               BridgeChainId := BridgeChainId p;
               AverageBlockTime := AverageBlockTime p;
               AverageEthereumBlockTime := AverageEthereumBlockTime p;
               TargetEthTxTimeout := TargetEthTxTimeout p;
               BridgeActive := BridgeActive p |}).

Definition DisableBridge : M unit :=
  s <- get_state ;;
  let p := params s in
  modify (with_params
            {| GravityId := GravityId p;
               BridgeEthereumAddress := BridgeEthereumAddress p;
               BridgeChainId := BridgeChainId p;
               AverageBlockTime := AverageBlockTime p;
               AverageEthereumBlockTime := AverageEthereumBlockTime p;
               TargetEthTxTimeout := TargetEthTxTimeout p;
               BridgeActive := false |}).

End Keeper.

(** ** Notions the statements use *)

Section Notions.
Context `{TC : TypesConsts} (env : Env).

(** The signers [CurrentSignerSet] includes: the bonded validators with a
    non-zero registered Ethereum address, each with the power read for it. *)
Definition includedSigners (s : State) (validators : list bytes)
  : list EthereumSigner :=
  omap (fun val =>
          let ethAddr := GetValidatorEthereumAddress env s val in
          if bool_decide (ethAddr <> zeroAddress)
          then Some {| Power := uint64 (GetLastValidatorPower env val);
                       EthereumAddress := ethAddr |}
          else None)
       validators.

Definition sumPowers (signers : list EthereumSigner) : Z :=
  foldr (fun es acc => Power es + acc) 0 signers.

(** The weight the specification gives a signer of power [p]. *)
Definition normalized (totalPower : Z) (es : EthereumSigner) : EthereumSigner :=
  {| Power := Power es * MaxUint32 / totalPower;
     EthereumAddress := EthereumAddress es |}.

(** The normalization property read on the code's own running total. *)
Definition normalization_holds (s : State) : Prop :=
  let r := collectSigners env s (GetBondedValidatorsByPower env) [] 0 in
  0 < r.2 ->
  exists signers,
    CurrentSignerSet env s = Some signers /\
    signers = map (normalized r.2) r.1 /\
    sumPowers signers <= MaxUint32 /\
    MaxUint32 - sumPowers signers < Z.of_nat (length r.1).

(** The zero-total property as the specification words it. *)
Definition zero_total_gives_empty (s : State) : Prop :=
  sumPowers (includedSigners s (GetBondedValidatorsByPower env)) = 0 ->
  CurrentSignerSet env s = Some [].

End Notions.

(** ** Concrete constants, collaborators and states *)

(** A table of constants to run the keeper on: the store prefixes numbered
    from one, the type tags likewise. *)
Definition exampleConsts : TypesConsts := {|
  ValidatorEthereumAddressKey := x01;
  OrchestratorValidatorAddressKey := x02;
  EthereumOrchestratorAddressKey := x03;
  EthereumSignatureKey := x04;
  EthereumEventVoteRecordKey := x05;
  OutgoingTxKey := x06;
  SendToEthereumKey := x07;
  LastEventNonceByValidatorKey := x08;
  LastObservedEventNonceKey := x09;
  LatestSignerSetTxNonceKey := x0a;
  LastSlashedOutgoingTxBlockKey := x0b;
  LastOutgoingBatchNonceKey := x0c;
  LastEthereumBlockHeightKey := x0d;
  LastUnBondingBlockHeightKey := x0e;
  LastObservedSignerSetKey := x0f;
  EthereumHeightVoteKey := x10;
  SignerSetTxPrefixByte := x01;
  BatchTxPrefixByte := x02;
  ContractCallTxPrefixByte := x03;
  ModuleName := "gravity"
|}.

(** A twenty-byte address ending in [b]. *)
Definition addr (b : byte) : bytes := replicate 19 x00 ++ [b].

Definition exampleParams : Params := {|
  GravityId := "gravity-id";
  BridgeEthereumAddress := "0xb1";
  BridgeChainId := 1;
  AverageBlockTime := 5000;
  AverageEthereumBlockTime := 15000;
  TargetEthTxTimeout := 43200000;
  BridgeActive := true
|}.

Definition emptyState : State :=
  {| kv := ∅; params := exampleParams; events := []; burns := [] |}.

(** Runs a call and keeps the state; a panic leaves the state as it was. *)
Definition exec {A} (m : M A) (s : State) : State :=
  match m s with
  | Some (_, s') => s'
  | None => s
  end.

(** Three bonded validators [va], [vb], [vc] with the powers given by
    [power]; the token contract is foreign-originated and the bank
    accepts every burn. *)
Definition va : bytes := [x0a].
Definition vb : bytes := [x0b].
Definition vc : bytes := [x0c].

Definition stakingEnv (power : bytes -> Z) : Env := {|
  BlockHeight := 100;
  GetBondedValidatorsByPower := [va; vb; vc];
  GetLastValidatorPower := power;
  ERC20ToDenomLookup := fun _ => (false, "gravity0xcc"%string);
  BankBurnCoins := fun _ _ => None;
  ValAddressFromBech32 := fun _ => Some va;
  Marshal := fun _ => []
|}.

(** The three validators registered with the addresses [01], [02], [03]. *)
Definition registeredState : State :=
  exec (setValidatorEthereumAddress (TC := exampleConsts) vc (addr x03))
    (exec (setValidatorEthereumAddress (TC := exampleConsts) vb (addr x02))
       (exec (setValidatorEthereumAddress (TC := exampleConsts) va (addr x01))
          emptyState)).

(** Powers 100, 50, 50. *)
Definition sharesEnv : Env :=
  stakingEnv (fun v => if decide (v = va) then 100 else 50).

(** Every validator at the largest [int64] power. *)
Definition maxPowerEnv : Env := stakingEnv (fun _ => 2 ^ 63 - 1).

(** Every validator at power zero. *)
Definition zeroPowerEnv : Env := stakingEnv (fun _ => 0).

Section MoreNotions.
Context `{TC : TypesConsts} (env : Env).

(** The reverse lookup as the specification words it: a scan of the
    validator-to-address index alone. *)
Definition validatorsByForeignAddress_spec (s : State) (ethAddr : bytes)
  : list bytes :=
  omap (fun e =>
          if bool_decide (BytesToAddress (raw env e.2) = ethAddr)
          then Some e.1
          else None)
       (Iterator [ValidatorEthereumAddressKey] (kv s)).

(** What a prefix sweep leaves of a store. *)
Definition sweep (p : bytes) (m : gmap bytes Val) : gmap bytes Val :=
  filter (fun e => has_prefix p e.1 = false) m.

(** [s'] differs from [s] at most in the store, and there only outside [P]. *)
Definition frame (P : bytes -> Prop) (s s' : State) : Prop :=
  (forall K, P K -> kv s' !! K = kv s !! K) /\
  params s' = params s /\ burns s' = burns s.

End MoreNotions.

(** The token contract of the examples and transfers on it. *)
Definition tokenC : bytes := addr xcc.

Definition transfer (id : Z) (amount fee : N) : SendToEthereum := {|
  Id := id;
  Sender := "sender";
  EthereumRecipient := addr x11;
  Erc20Token := {| Contract := tokenC; Amount := amount |};
  Erc20Fee := {| Contract := tokenC; Amount := fee |}
|}.

(** S1: three transfers with fees 3, 1, 2 wait in the pool. *)
Definition pooledState : State :=
  exec (setUnbatchedSendToEthereum (TC := exampleConsts) (transfer 3 10 2))
    (exec (setUnbatchedSendToEthereum (TC := exampleConsts) (transfer 2 10 1))
       (exec (setUnbatchedSendToEthereum (TC := exampleConsts) (transfer 1 10 3))
          emptyState)).

(** ... and a batch of two is built from them. *)
Definition batchedState : State :=
  exec (BuildBatchTx (TC := exampleConsts) sharesEnv tokenC 2) pooledState.

(** Validator [va] signs the batch. *)
Definition signedState : State :=
  exec (SetEthereumSignature (TC := exampleConsts)
          (MakeBatchTxKey (TC := exampleConsts) tokenC 1) [x51; x52] va)
       batchedState.

(** The batch is reported executed: it leaves the store, its signature
    stays. *)
Definition executedState : State :=
  exec (batchTxExecuted (TC := exampleConsts) sharesEnv tokenC 1) signedState.

(** Validator [va] registers the address [01] once a batch was built. *)
Definition directoryState : State :=
  exec (setValidatorEthereumAddress (TC := exampleConsts) va (addr x01))
       batchedState.

Section AsStated.
Context `{TC : TypesConsts} (env : Env).

(** The migration post-condition on the signature index, as stated. *)
Definition migration_empties_signatures (newBridgeAddress : string) (H : Z)
    (s : State) : Prop :=
  forall s', MigrateGravityContract env newBridgeAddress H s = Some (tt, s') ->
             Iterator [EthereumSignatureKey] (kv s') = [].

End AsStated.

Section BatchNotions.
Context `{TC : TypesConsts} (env : Env).

(** The key of a transfer in the unbatched pool. *)
Definition poolKey (t : SendToEthereum) : bytes :=
  MakeSendToEthereumKey (Id t) (Erc20Fee t).

(** [t] is in the unbatched pool. *)
Definition pooled (s : State) (t : SendToEthereum) : Prop :=
  kv s !! poolKey t = Some (VSendToEthereum t).

(** [b] is in the outgoing-tx store. *)
Definition stored_batch (s : State) (b : BatchTx) : Prop :=
  kv s !! MakeOutgoingTxKey (GetStoreIndex (OtxBatch b))
    = Some (VOutgoingTx (OtxBatch b)).

(** No key of the outgoing-tx store holds [b]. *)
Definition absent_batch (s : State) (b : BatchTx) : Prop :=
  forall idx, kv s !! MakeOutgoingTxKey idx <> Some (VOutgoingTx (OtxBatch b)).

(** Every entry under the outgoing-tx prefix is an outgoing transaction
    kept under its own store index, as [SetOutgoingTx] writes it. *)
Definition at_own_index (e : bytes * Val) : bool :=
  match e.2 with
  | VOutgoingTx otx => bool_decide (e.1 = GetStoreIndex otx)
  | _ => false
  end.

Definition wf_outgoing (s : State) : Prop :=
  forallb at_own_index (Iterator [OutgoingTxKey] (kv s)) = true.

(** Every entry under the pool prefix is a transfer kept under its own
    key, as [setUnbatchedSendToEthereum] writes it. *)
Definition at_own_slot (e : bytes * Val) : bool :=
  match e.2 with
  | VSendToEthereum t => bool_decide (SendToEthereumKey :: e.1 = poolKey t)
  | _ => false
  end.

Definition wf_pool (s : State) : Prop :=
  forallb at_own_slot (Iterator [SendToEthereumKey] (kv s)) = true.

(** The transfers held by the stored batches. *)
Definition batchTxs (s : State) : list SendToEthereum :=
  flat_map (fun e => match e.2 with
                     | VOutgoingTx (OtxBatch b) => Transactions b
                     | _ => []
                     end)
           (Iterator [OutgoingTxKey] (kv s)).

(** No two transfers held by stored batches share a pool slot (transfer
    ids are unique). *)
Definition distinct_pool_keys (s : State) : Prop :=
  NoDup (poolKey <$> batchTxs s).

(** Putting transfers back into the pool, on the store. *)
Definition reinsert (txs : list SendToEthereum) (m : gmap bytes Val)
  : gmap bytes Val :=
  fold_left (fun m t => <[poolKey t := VSendToEthereum t]> m) txs m.

(** Among the entries [l] an iterator lists, the batches that an executed
    batch [b] cancels. *)
Definition cancelled_in (b : BatchTx) (l : list (bytes * Val)) (b' : BatchTx)
  : Prop :=
  (exists k, (k, VOutgoingTx (OtxBatch b')) ∈ l) /\
  BatchNonce b' < BatchNonce b /\ TokenContract b' = TokenContract b.

(** The amount to burn for a batch: amounts and fees of its transfers. *)
Definition burnSum (txs : list SendToEthereum) : N :=
  foldr (fun t acc => (Amount (Erc20Token t) + Amount (Erc20Fee t) + acc)%N)
        0%N txs.

(** A transfer carries the token contract [c] on amount and fee. *)
Definition carries (c : bytes) (t : SendToEthereum) : Prop :=
  Contract (Erc20Token t) = c /\ Contract (Erc20Fee t) = c.

End BatchNotions.

Section ExecutedNotions.
Context `{TC : TypesConsts} (env : Env).

(** What [batchTxExecuted] does on a stored batch, step by step. *)
Definition executed_tail (b : BatchTx) (s1 : State) (r : option Error)
    (s' : State) : Prop :=
  let keyB := MakeOutgoingTxKey (GetStoreIndex (OtxBatch b)) in
  let lookup := ERC20ToDenomLookup env (TokenContract b) in
  if lookup.1 then r = None /\ s' = with_kv (delete keyB) s1
  else
    match totalToBurn (TokenContract b) (Transactions b) 0%N with
    | None => r = Some errInvalidBatch /\ s' = s1
    | Some total =>
        let call := {| burnModule := ModuleName;
                       burnCoins := NewCoins [NewCoin lookup.2 total] |} in
        match BankBurnCoins env (burns s1) call with
        | Some cause => r = Some (ErrBurn cause) /\ s' = with_burn call s1
        | None => r = None /\ s' = with_kv (delete keyB) (with_burn call s1)
        end
    end.

End ExecutedNotions.

(** S3: two more transfers with fees 10 and 20 arrive and a second batch
    is built; both batches are pending. *)
Definition twoBatchState : State :=
  exec (BuildBatchTx (TC := exampleConsts) sharesEnv tokenC 2)
    (exec (setUnbatchedSendToEthereum (TC := exampleConsts) (transfer 5 10 20))
       (exec (setUnbatchedSendToEthereum (TC := exampleConsts) (transfer 4 10 10))
          batchedState)).

Definition firstBatch : BatchTx := {|
  BatchNonce := 1;
  Timeout := 0;
  Transactions := [transfer 1 10 3; transfer 3 10 2];
  TokenContract := tokenC;
  Height := 100
|}.

Definition secondBatch : BatchTx := {|
  BatchNonce := 2;
  Timeout := 0;
  Transactions := [transfer 5 10 20; transfer 4 10 10];
  TokenContract := tokenC;
  Height := 100
|}.

(** The same collaborators with a bank that refuses every burn. *)
Definition refusingBankEnv : Env := {|
  BlockHeight := BlockHeight sharesEnv;
  GetBondedValidatorsByPower := GetBondedValidatorsByPower sharesEnv;
  GetLastValidatorPower := GetLastValidatorPower sharesEnv;
  ERC20ToDenomLookup := ERC20ToDenomLookup sharesEnv;
  BankBurnCoins := fun _ _ => Some "insufficient funds"%string;
  ValAddressFromBech32 := ValAddressFromBech32 sharesEnv;
  Marshal := Marshal sharesEnv
|}.

(** The same collaborators with a directory in which every token is
    home-originated. *)
Definition homeTokenEnv : Env := {|
  BlockHeight := BlockHeight sharesEnv;
  GetBondedValidatorsByPower := GetBondedValidatorsByPower sharesEnv;
  GetLastValidatorPower := GetLastValidatorPower sharesEnv;
  ERC20ToDenomLookup := fun _ => (true, "uhome"%string);
  BankBurnCoins := BankBurnCoins sharesEnv;
  ValAddressFromBech32 := ValAddressFromBech32 sharesEnv;
  Marshal := Marshal sharesEnv
|}.

(** A transfer whose amount is on another contract than its fee, and the
    batch built from it. *)
Definition mixedTransfer : SendToEthereum := {|
  Id := 9;
  Sender := "sender";
  EthereumRecipient := addr x11;
  Erc20Token := {| Contract := addr xdd; Amount := 7 |};
  Erc20Fee := {| Contract := tokenC; Amount := 1 |}
|}.

Definition mixedBatch : BatchTx := {|
  BatchNonce := 1;
  Timeout := 0;
  Transactions := [mixedTransfer];
  TokenContract := tokenC;
  Height := 100
|}.

Definition mixedState : State :=
  exec (BuildBatchTx (TC := exampleConsts) homeTokenEnv tokenC 1)
    (exec (setUnbatchedSendToEthereum (TC := exampleConsts) mixedTransfer)
       emptyState).

Section ExecutedAsStated.
Context `{TC : TypesConsts} (env : Env).

(** The invariant error read without regard to the token's origin. *)
Definition mismatch_fails (b : BatchTx) (s : State) : Prop :=
  stored_batch s b ->
  ~ Forall (carries (TokenContract b)) (Transactions b) ->
  exists s', batchTxExecuted env (TokenContract b) (BatchNonce b) s
             = Some (Some errInvalidBatch, s').

End ExecutedAsStated.

Section BuildNotions.
Context `{TC : TypesConsts} (env : Env).

(** The transfers among the entries an iterator lists. *)
Definition transfers_of (l : list (bytes * Val)) : list SendToEthereum :=
  omap (fun e => match e.2 with
                 | VSendToEthereum t => Some t
                 | _ => None
                 end) l.

(** The unbatched pool of a contract, in the order the pool iterator
    yields it (largest fee first). *)
Definition unbatchedTransfers (s : State) (contract : bytes)
  : list SendToEthereum :=
  transfers_of (ReverseIterator (SendToEthereumKey :: contract) (kv s)).

(** The first [maxElements] entries of a list; a bound that is not
    positive bounds nothing. *)
Definition window {X} (maxElements : Z) (l : list X) : list X :=
  if 0 <? maxElements then take (Z.to_nat maxElements) l else l.

Definition feeSum (txs : list SendToEthereum) : N :=
  foldr (fun t acc => (Amount (Erc20Fee t) + acc)%N) 0%N txs.

(** Taking transfers out of the pool, on the store. *)
Definition withdraw (txs : list SendToEthereum) (m : gmap bytes Val)
  : gmap bytes Val :=
  fold_left (fun m t => delete (poolKey t) m) txs m.

(** The calls that change the keeper's state. *)
Inductive Call :=
| CallAddToPool (t : SendToEthereum)
| CallBuildBatchTx (contract : bytes) (maxElements : Z)
| CallBatchTxExecuted (contract : bytes) (nonce : Z)
| CallCancelBatchTx (b : BatchTx)
| CallSetEthereumSignature (storeIndex signature val : bytes)
| CallCreateSignerSetTx
| CallMigrateGravityContract (newBridgeAddress : string) (height : Z).

(** One call; the result is the batch it created, if any. *)
Definition call (c : Call) : M (option BatchTx) :=
  match c with
  | CallAddToPool t => setUnbatchedSendToEthereum t ;;; ret None
  | CallBuildBatchTx contract maxElements =>
      BuildBatchTx env contract maxElements
  | CallBatchTxExecuted contract nonce =>
      batchTxExecuted env contract nonce ;;; ret None
  | CallCancelBatchTx b => CancelBatchTx b ;;; ret None
  | CallSetEthereumSignature storeIndex signature val =>
      SetEthereumSignature storeIndex signature val ;;; ret None
  | CallCreateSignerSetTx => CreateSignerSetTx env ;;; ret None
  | CallMigrateGravityContract newBridgeAddress height =>
      MigrateGravityContract env newBridgeAddress height ;;; ret None
  end.

(** A sequence of calls; the result lists the batches created, in call
    order. *)
Fixpoint run (calls : list Call) : M (list BatchTx) :=
  match calls with
  | [] => ret []
  | c :: rest =>
      r <- call c ;;
      created <- run rest ;;
      ret (match r with Some b => b :: created | None => created end)
  end.

Definition is_migration (c : Call) : bool :=
  match c with
  | CallMigrateGravityContract _ _ => true
  | _ => false
  end.

(** The nonces of the created batches grow strictly in call order. *)
Definition nonces_increase (created : list BatchTx) : Prop :=
  forall i j bi bj, (i < j)%nat -> created !! i = Some bi ->
                    created !! j = Some bj -> BatchNonce bi < BatchNonce bj.

(** Strictly increasing nonces for every sequence of calls, as stated. *)
Definition nonces_never_reused (calls : list Call) (s : State) : Prop :=
  forall created s', run calls s = Some (created, s') -> nonces_increase created.

End BuildNotions.

(** Every entry an iterator over the pool lists decodes to a transfer. *)
Definition all_transfers (l : list (bytes * Val)) : Prop :=
  forall e, e ∈ l -> exists t, e.2 = VSendToEthereum t.

Section BuildLoops.
Context `{TC : TypesConsts} (env : Env).

(** One step of the search of [getLastOutgoingBatchByTokenType]. *)
Definition pickLast (token : bytes) (acc : option BatchTx * Z)
    (e : bytes * Val) : option BatchTx * Z :=
  match e.2 with
  | VOutgoingTx (OtxBatch btx) =>
      if bool_decide (TokenContract btx = token) && (acc.2 <? BatchNonce btx)
      then (Some btx, BatchNonce btx)
      else acc
  | _ => acc
  end.

(** Every entry an iterator over the batches lists decodes to a batch. *)
Definition all_batches (l : list (bytes * Val)) : Prop :=
  forall e, e ∈ l -> exists b, e.2 = VOutgoingTx (OtxBatch b).

(** The callback of the selection loop of [BuildBatchTx]. *)
Definition selectTransfer (maxElements : Z) (selected : list SendToEthereum)
    (ste : SendToEthereum) : M (list SendToEthereum * bool) :=
  let selected' := selected ++ [ste] in
  deleteUnbatchedSendToEthereum (Id ste) (Erc20Fee ste) ;;;
  ret (selected', bool_decide (Z.of_nat (length selected') = maxElements)).

(** The batch [BuildBatchTx] assembles. *)
Definition newBatch (contract : bytes) (nonce timeout : Z)
    (selected : list SendToEthereum) : BatchTx :=
  {| BatchNonce := nonce; Timeout := timeout; Transactions := selected;
     TokenContract := contract; Height := uint64 (BlockHeight env) |}.

(** The store does not change outside the keys in [P]. *)
Definition kv_frame (P : bytes -> Prop) (s s' : State) : Prop :=
  forall K, ~ P K -> kv s' !! K = kv s !! K.

End BuildLoops.

(** Nonces above [lo], each above the one before. *)
Fixpoint ascending (lo : Z) (l : list BatchTx) : Prop :=
  match l with
  | [] => True
  | b :: rest => lo < BatchNonce b /\ ascending (BatchNonce b) rest
  end.

(** A transfer arrives and a batch of one is built, twice; in
    [migratingCalls] the bridge contract is migrated in between. *)
Definition steadyCalls : list Call :=
  [ CallAddToPool (transfer 1 10 3); CallBuildBatchTx tokenC 1;
    CallAddToPool (transfer 2 10 5); CallBuildBatchTx tokenC 1 ].

Definition migratingCalls : list Call :=
  [ CallAddToPool (transfer 1 10 3); CallBuildBatchTx tokenC 1;
    CallMigrateGravityContract "0xb2" 500;
    CallAddToPool (transfer 2 10 5); CallBuildBatchTx tokenC 1 ].

(** ** Stores the migration can decode *)

Section MigrationNotions.
Context `{TC : TypesConsts} (env : Env).

(** Everything the migration decodes can be decoded: the entries under the
    outgoing-tx prefix are outgoing transactions, those under the
    event-vote prefix are vote records, and every vote parses as a
    validator address. *)
Definition decodable_vote (e : bytes * Val) : bool :=
  match e.2 with
  | VVoteRecord r =>
      forallb (fun vote => bool_decide (is_Some (ValAddressFromBech32 env vote)))
              (Votes r)
  | _ => false
  end.

Definition decodable_outgoing (e : bytes * Val) : bool :=
  match e.2 with
  | VOutgoingTx _ => true
  | _ => false
  end.

Definition migratable (s : State) : Prop :=
  forallb decodable_outgoing (Iterator [OutgoingTxKey] (kv s)) = true /\
  forallb decodable_vote (Iterator [EthereumEventVoteRecordKey] (kv s)) = true.

End MigrationNotions.

(** ** The rest of the keeper *)

(** An entry of the delegate-key export.  The three addresses are carried
    as strings in the code (bech32 for the validator and the orchestrator,
    hex for the Ethereum address); the model keeps the bytes they render.
    The field [EthereumAddress] of the message is [MsgEthereumAddress]
    here, the name being taken by the signer's field. *)
Record MsgDelegateKeys := {
  ValidatorAddress : bytes;
  OrchestratorAddress : bytes;
  MsgEthereumAddress : bytes
}.

Section KeeperRest.
Context `{TC : TypesConsts} (env : Env).

(** *** LastUnbondingBlockHeight *)

Definition setLastUnbondingBlockHeight (unbondingBlockHeight : Z) : M unit :=
  storeSet [LastUnBondingBlockHeightKey]
           (VBytes (Uint64ToBigEndian unbondingBlockHeight)).

(** The test is on the length: a missing key and an empty value both read
    as zero. *)
Definition GetLastUnbondingBlockHeight (s : State) : option Z :=
  match storeGet env s [LastUnBondingBlockHeightKey] with
  | None => Some 0
  | Some bz =>
      if bool_decide (length bz = 0%nat) then Some 0 else readUint64 bz
  end.

(** *** Signatures, through the iterator *)

(** [iterateEthereumSignatures]: validator and signature of every entry of
    the prefix store of [storeIndex], keys ascending, until the callback
    asks to stop. *)
Definition iterateEthereumSignatures {A} (storeIndex : bytes)
    (cb : A -> bytes -> bytes -> M (A * bool)) (a : A) : M A :=
  s <- get_state ;;
  iterate (Iterator (EthereumSignatureKey :: storeIndex) (kv s))
          (fun a e => cb a e.1 (raw env e.2)) a.

(** *** Signer sets *)

(** The type assertion leaves a nil pointer for an outgoing transaction of
    another variant, and the nil pointer is appended. *)
Definition GetSignerSetTxs : M (list (option SignerSetTx)) :=
  IterateOutgoingTxsByType SignerSetTxPrefixByte
    (fun (out : list (option SignerSetTx)) _ otx =>
       let sstx := match otx with
                   | OtxSignerSet sstx => Some sstx
                   | _ => None
                   end in
       ret (out ++ [sstx], false))
    [].

(** *** Parameters *)

Definition GetParams (s : State) : Params := params s.

Definition SetParams (ps : Params) : M unit := modify (with_params ps).

Definition getGravityID (s : State) : string := GravityId (params s).

(** *** The delegate-key export *)

(** [getDelegateKeys] before its final [sort.Slice], which permutes the
    entries: the walk over the prefix store of the validator index, then
    the orchestrator looked up for each Ethereum address (the empty
    address when there is none). *)
Definition delegateKeys (s : State) : list MsgDelegateKeys :=
  let out :=
    map (fun e => {| ValidatorAddress := e.1;
                     OrchestratorAddress := [];
                     MsgEthereumAddress := BytesToAddress (raw env e.2) |})
        (Iterator [ValidatorEthereumAddressKey] (kv s)) in
  map (fun msg =>
         {| ValidatorAddress := ValidatorAddress msg;
            OrchestratorAddress :=
              default [] (GetEthereumOrchestratorAddress env s
                            (MsgEthereumAddress msg));
            MsgEthereumAddress := MsgEthereumAddress msg |})
      out.

(** *** Observed heights, per validator *)

Definition GetEthereumHeightVote (s : State) (valAddress : bytes)
  : option LatestEthereumBlockHeight :=
  match kv s !! MakeEthereumHeightVoteKey valAddress with
  | None => Some {| EthereumHeight := 0; CosmosHeight := 0 |}
  | Some v =>
      if bool_decide (length (raw env v) = 0%nat)
      then Some {| EthereumHeight := 0; CosmosHeight := 0 |}
      else match v with
           | VHeight height => Some height
           | _ => None
           end
  end.

Definition SetEthereumHeightVote (valAddress : bytes) (ethereumHeight : Z)
  : M unit :=
  let height := {| EthereumHeight := ethereumHeight;
                   CosmosHeight := uint64 (BlockHeight env) |} in
  storeSet (MakeEthereumHeightVoteKey valAddress) (VHeight height).

(** [sdk.KVStorePrefixIterator] yields the keys with their prefix; the
    validator is what [bytes.Buffer.Next(20)] reads of the trimmed key, at
    most twenty bytes. *)
Definition IterateEthereumHeightVotes {A}
    (cb : A -> bytes -> LatestEthereumBlockHeight -> M (A * bool)) (a : A)
  : M A :=
  s <- get_state ;;
  iterate (Iterator [EthereumHeightVoteKey] (kv s))
          (fun a e =>
             let key := TrimPrefix ([EthereumHeightVoteKey] ++ e.1)
                                   [EthereumHeightVoteKey] in
             let val := take 20 key in
             match e.2 with
             | VHeight height => cb a val height
             | _ => panic
             end) a.

(** *** batch.go: the exported fee query and the slashing bookkeeping *)

Definition GetBatchFeesByTokenType (tokenContractAddr : bytes) (maxElements : Z)
  : M N :=
  r <- iterateUnbatchedSendToEthereumsByContract tokenContractAddr
         (fun (acc : N * Z) tx =>
            let feeAmount := (acc.1 + Amount (Erc20Fee tx))%N in
            let i := acc.2 + 1 in
            ret ((feeAmount, i), bool_decide (i = maxElements)))
         (0%N, 0) ;;
  ret r.1.

Definition SetLastSlashedOutgoingTxBlockHeight (blockHeight : Z) : M unit :=
  storeSet [LastSlashedOutgoingTxBlockKey]
           (VBytes (Uint64ToBigEndian blockHeight)).

(** The test is on nil: only a missing key reads as zero. *)
Definition GetLastSlashedOutgoingTxBlockHeight (s : State) : option Z :=
  match storeGet env s [LastSlashedOutgoingTxBlockKey] with
  | None => Some 0
  | Some bz => readUint64 bz
  end.

(** Modelled from the spec: the [GetCosmosHeight] methods of the three
    outgoing transactions are not among the sources; each variant carries
    a "height (home)". *)
Definition GetCosmosHeight (otx : OutgoingTx) : Z :=
  match otx with
  | OtxSignerSet sstx => SignerSetHeight sstx
  | OtxBatch btx => Height btx
  | OtxContractCall cctx => CallHeight cctx
  end.

Definition GetUnSlashedOutgoingTxs (maxHeight : Z) : M (list OutgoingTx) :=
  lastSlashed <- read GetLastSlashedOutgoingTxBlockHeight ;;
  iterateOutgoingTxs
    (fun (out : list OutgoingTx) _ otx =>
       if (GetCosmosHeight otx <? maxHeight)
          && (lastSlashed <? GetCosmosHeight otx)
       then ret (out ++ [otx], false)
       else ret (out, false))
    [].

End KeeperRest.

(** ** What a call may do to the outgoing-tx store and the pool *)

Section WellFormedSteps.
Context `{TC : TypesConsts}.

(** From [s] to [s'] an entry under the outgoing-tx prefix or the pool
    prefix is either the one that was there or one kept under its own
    store index, its own pool slot. *)
Definition keeps_wf (s s' : State) : Prop :=
  (forall k v, kv s' !! (OutgoingTxKey :: k) = Some v ->
               kv s !! (OutgoingTxKey :: k) = Some v \/
               at_own_index (k, v) = true) /\
  (forall k v, kv s' !! (SendToEthereumKey :: k) = Some v ->
               kv s !! (SendToEthereumKey :: k) = Some v \/
               at_own_slot (k, v) = true).

(** Every run of [m] that returns is such a step. *)
Definition preserves {A} (m : M A) : Prop :=
  forall s a s', m s = Some (a, s') -> keeps_wf s s'.

End WellFormedSteps.

(** ** Where a call writes *)

Section Confinement.
Context `{TC : TypesConsts}.

(** The prefixes under which the migration deletes or writes. *)
Definition migrated_prefixes : list byte :=
  [ OutgoingTxKey; EthereumSignatureKey; LatestSignerSetTxNonceKey;
    LastObservedEventNonceKey; LastEventNonceByValidatorKey;
    EthereumEventVoteRecordKey; LastEthereumBlockHeightKey;
    LastObservedSignerSetKey; LastOutgoingBatchNonceKey ].

(** The parameters agree but for the bridge contract address. *)
Definition same_but_address (p p' : Params) : Prop :=
  GravityId p' = GravityId p /\ BridgeChainId p' = BridgeChainId p /\
  AverageBlockTime p' = AverageBlockTime p /\
  AverageEthereumBlockTime p' = AverageEthereumBlockTime p /\
  TargetEthTxTimeout p' = TargetEthTxTimeout p /\
  BridgeActive p' = BridgeActive p.

(** [s'] differs from [s] in the store only under [prefixes]; no event
    was emitted, the bank was not called and the parameters agree but for
    the bridge address. *)
Definition only_under (prefixes : list byte) (s s' : State) : Prop :=
  (forall K, (forall b r, K = b :: r -> b ∉ prefixes) ->
             kv s' !! K = kv s !! K) /\
  same_but_address (params s) (params s') /\
  events s' = events s /\ burns s' = burns s.

Definition confined {A} (prefixes : list byte) (m : M A) : Prop :=
  forall s a s', m s = Some (a, s') -> only_under prefixes s s'.

End Confinement.

(** ** Stores the remaining iterators can decode, and examples *)

Section Decodable.
Context `{TC : TypesConsts}.

(** Every entry under the height-vote prefix is a height record. *)
Definition decodable_height_vote (e : bytes * Val) : bool :=
  match e.2 with
  | VHeight _ => true
  | _ => false
  end.

Definition decodable_height_votes (s : State) : Prop :=
  forallb decodable_height_vote (Iterator [EthereumHeightVoteKey] (kv s)) = true.

(** The fee of a pooled transfer fits the thirty-two bytes the pool key
    gives it and is on a contract as long as [contract]. *)
Definition fee_fits (contract : bytes) (e : bytes * Val) : bool :=
  match e.2 with
  | VSendToEthereum t =>
      bool_decide (length (Contract (Erc20Fee t)) = length contract)
      && (Z.of_N (Amount (Erc20Fee t)) <? 256 ^ 32)
  | _ => true
  end.

Definition fees_fit (s : State) (contract : bytes) : Prop :=
  forallb (fee_fits contract) (Iterator [SendToEthereumKey] (kv s)) = true.

End Decodable.

(** Validator [va] has voted the Ethereum height 7. *)
Definition votedState : State :=
  exec (SetEthereumHeightVote (TC := exampleConsts) sharesEnv va 7) emptyState.

(** The heights (Ethereum 10, home 50) were observed. *)
Definition observedState : State :=
  exec (storeSet [@LastEthereumBlockHeightKey exampleConsts]
          (VHeight {| EthereumHeight := 10; CosmosHeight := 50 |}))
       emptyState.

(** Two signer sets were created for the three registered validators. *)
Definition signerSetState : State :=
  exec (CreateSignerSetTx (TC := exampleConsts) sharesEnv)
    (exec (CreateSignerSetTx (TC := exampleConsts) sharesEnv) registeredState).

(** ** The refusal of an unprofitable batch, as stated *)

Section RefusalAsStated.
Context `{TC : TypesConsts} (env : Env).

(** The first [n] entries of a list as the specification counts them:
    none for [n] at or below zero. *)
Definition firstEntries {X} (n : Z) (l : list X) : list X :=
  take (Z.to_nat n) l.

(** The refusal as the specification words it: a batch of the contract is
    stored, the one with the greatest nonce has fees at least the fee sum
    of the first [maxElements] unbatched transfers of the contract, and
    the call then returns no batch and leaves the state as it was. *)
Definition refuses_unprofitable_as_stated (contract : bytes) (maxElements : Z)
    (s : State) : Prop :=
  forall lb,
    stored_batch s lb -> TokenContract lb = contract ->
    (forall b, stored_batch s b -> TokenContract b = contract ->
               BatchNonce b <= BatchNonce lb) ->
    (feeSum (firstEntries maxElements (unbatchedTransfers s contract))
       <= GetFees lb)%N ->
    BuildBatchTx env contract maxElements s = Some (None, s).

End RefusalAsStated.

(** S2 with one more transfer: batch 1 (fees 5) is pending, the transfers
    2 (fee 1) and 7 (fee 9) wait in the pool. *)
Definition richPoolState : State :=
  exec (setUnbatchedSendToEthereum (TC := exampleConsts) (transfer 7 10 9))
       batchedState.

(** A batch with the nonce zero, as a genesis import or a wrapped counter
    leaves one: it holds transfer 1 (fee 3), and transfer 2 (fee 1) waits
    in the pool. *)
Definition zeroNonceBatch : BatchTx := {|
  BatchNonce := 0;
  Timeout := 0;
  Transactions := [transfer 1 10 3];
  TokenContract := tokenC;
  Height := 100
|}.

Definition zeroNonceState : State :=
  exec (SetOutgoingTx (TC := exampleConsts) (OtxBatch zeroNonceBatch))
    (exec (setUnbatchedSendToEthereum (TC := exampleConsts) (transfer 2 10 1))
       emptyState).

(** ** Facts about bytes and the store *)

Lemma Z_of_byte_range b : 0 <= Z_of_byte b < 256.
Proof.
  unfold Z_of_byte. pose proof (Byte.to_N_bounded b). lia.
Qed.

Lemma Z_of_byte_of_Z z : Z_of_byte (byte_of_Z z) = z mod 256.
Proof.
  unfold Z_of_byte, byte_of_Z.
  assert (Hr : 0 <= z mod 256 < 256) by (apply Z.mod_pos_bound; lia).
  destruct (Byte.of_N (Z.to_N (z mod 256))) as [b|] eqn:E.
  - apply Byte.to_of_N in E. simpl. rewrite E. lia.
  - apply Byte.of_N_None_iff in E. lia.
Qed.

Lemma Z_of_byte_inj b1 b2 : Z_of_byte b1 = Z_of_byte b2 -> b1 = b2.
Proof.
  unfold Z_of_byte. intros H. apply N2Z.inj in H.
  assert (Some b1 = Some b2) as [= ->]; [|done].
  by rewrite <- !Byte.of_to_N, H.
Qed.

Lemma be_value_app bz b : be_value (bz ++ [b]) = be_value bz * 256 + Z_of_byte b.
Proof. unfold be_value. by rewrite fold_left_app. Qed.

Lemma length_be_bytes w n : length (be_bytes w n) = w.
Proof.
  revert n. induction w as [|w IH]; intros n; simpl; [done|].
  rewrite length_app, IH. simpl. lia.
Qed.

Lemma be_value_be_bytes w n : be_value (be_bytes w n) = n mod 256 ^ Z.of_nat w.
Proof.
  revert n. induction w as [|w IH]; intros n.
  - simpl. by rewrite Z.mod_1_r.
  - cbn [be_bytes]. rewrite be_value_app, IH, Z_of_byte_of_Z.
    rewrite Nat2Z.inj_succ, Z.pow_succ_r by lia.
    rewrite Z.mod_mod by lia.
    rewrite Z.rem_mul_r; [lia|lia|apply Z.pow_pos_nonneg; lia].
Qed.

Lemma BigEndianUint64_Uint64ToBigEndian n :
  BigEndianUint64 (Uint64ToBigEndian n) = Some (uint64 n).
Proof.
  unfold BigEndianUint64, Uint64ToBigEndian.
  rewrite length_be_bytes. rewrite decide_True by lia.
  rewrite take_ge by (rewrite length_be_bytes; lia).
  by rewrite be_value_be_bytes.
Qed.

Lemma uint64_range z : 0 <= uint64 z < 2 ^ 64.
Proof. unfold uint64. apply Z.mod_pos_bound. lia. Qed.

Lemma uint64_small z : 0 <= z < 2 ^ 64 -> uint64 z = z.
Proof. unfold uint64. intros. by apply Z.mod_small. Qed.

Lemma has_prefix_spec p k : has_prefix p k = true <-> exists r, k = p ++ r.
Proof.
  revert k. induction p as [|x p IH]; intros k; simpl.
  - split; [eauto|done].
  - destruct k as [|y k]; [split; [done|intros [r [=]]]|].
    destruct (decide (x = y)) as [->|Hne].
    + rewrite IH. split; intros [r Hr]; exists r; simpl in *; congruence.
    + split; [done|]. intros [r [=]]. done.
Qed.

Lemma has_prefix_app p r : has_prefix p (p ++ r) = true.
Proof. apply has_prefix_spec. eauto. Qed.

Lemma has_prefix_cons_ne x y p k : x <> y -> has_prefix (x :: p) (y :: k) = false.
Proof. intros. simpl. by rewrite decide_False. Qed.

Section store_facts.
Context {V : Type}.
Implicit Types (kv : gmap bytes V) (p k : bytes) (v : V).

Lemma elem_of_entries kv k v : (k, v) ∈ entries kv <-> kv !! k = Some v.
Proof.
  unfold entries. rewrite merge_sort_Permutation.
  apply elem_of_map_to_list.
Qed.

Lemma NoDup_entries kv : NoDup (entries kv).*1.
Proof.
  unfold entries.
  rewrite (merge_sort_Permutation entry_le (map_to_list kv)).
  apply NoDup_fst_map_to_list.
Qed.

Lemma elem_of_Iterator p kv k v :
  (k, v) ∈ Iterator p kv <-> kv !! (p ++ k) = Some v.
Proof.
  unfold Iterator. rewrite list_elem_of_omap. split.
  - intros [[k0 v0] [Hin Hf]]. simpl in Hf.
    destruct (has_prefix p k0) eqn:Hp; [|done].
    apply has_prefix_spec in Hp as [r ->].
    rewrite drop_app_length in Hf. injection Hf as -> ->.
    by apply elem_of_entries.
  - intros Hl. exists (p ++ k, v). split; [by apply elem_of_entries|].
    simpl. by rewrite has_prefix_app, drop_app_length.
Qed.

Lemma elem_of_ReverseIterator p kv k v :
  (k, v) ∈ ReverseIterator p kv <-> kv !! (p ++ k) = Some v.
Proof. unfold ReverseIterator. rewrite elem_of_reverse. apply elem_of_Iterator. Qed.

Lemma Iterator_nil_iff p kv :
  Iterator p kv = [] <-> forall k, kv !! (p ++ k) = None.
Proof.
  split.
  - intros Hn k. destruct (kv !! (p ++ k)) as [v|] eqn:E; [|done].
    apply elem_of_Iterator in E. rewrite Hn in E. by apply elem_of_nil in E.
  - intros Hn. destruct (Iterator p kv) as [|[k v] l] eqn:E; [done|].
    assert ((k, v) ∈ Iterator p kv) as Hin by (rewrite E; left).
    apply elem_of_Iterator in Hin. by rewrite Hn in Hin.
Qed.
End store_facts.

(** ** The signer set *)

Section SignerSet.
Context `{TC : TypesConsts} (env : Env).

Lemma collectSigners_spec s validators acc total :
  collectSigners env s validators acc total =
  (acc ++ includedSigners env s validators,
   fold_left (fun t es => uint64 (t + Power es))
             (includedSigners env s validators) total).
Proof.
  revert acc total. induction validators as [|val rest IH]; intros acc total.
  - simpl. by rewrite app_nil_r.
  - cbn [collectSigners includedSigners omap list_omap].
    destruct (bool_decide _) eqn:E.
    + rewrite IH. cbn [fold_left]. by rewrite <- app_assoc.
    + apply IH.
Qed.

Lemma includedSigners_power_range s validators es :
  es ∈ includedSigners env s validators -> 0 <= Power es < 2 ^ 64.
Proof.
  unfold includedSigners. rewrite list_elem_of_omap.
  intros [val [_ Hval]]. destruct (bool_decide _); [|done].
  injection Hval as <-. apply uint64_range.
Qed.

Lemma sumPowers_nonneg l :
  (forall es, es ∈ l -> 0 <= Power es) -> 0 <= sumPowers l.
Proof.
  induction l as [|es l IH]; intros Hl; simpl; [lia|].
  assert (0 <= Power es) by (apply Hl; left).
  assert (0 <= sumPowers l) by (apply IH; intros; apply Hl; by right).
  unfold sumPowers in *. lia.
Qed.

(** Without a wrap the 64-bit running total is the sum of the powers. *)
Lemma running_total_exact l total :
  (forall es, es ∈ l -> 0 <= Power es) ->
  0 <= total -> total + sumPowers l < 2 ^ 64 ->
  fold_left (fun t es => uint64 (t + Power es)) l total = total + sumPowers l.
Proof.
  revert total. induction l as [|es l IH]; intros total Hl Ht Hs; simpl in *.
  - lia.
  - assert (0 <= Power es) by (apply Hl; left).
    assert (0 <= sumPowers l)
      by (apply sumPowers_nonneg; intros; apply Hl; by right).
    unfold sumPowers in *.
    rewrite uint64_small by lia.
    rewrite IH; [lia| |lia|lia]. intros; apply Hl; by right.
Qed.

Lemma normalizePower_small totalPower p :
  0 < totalPower -> 0 <= p <= totalPower ->
  normalizePower totalPower p = Some (p * MaxUint32 / totalPower).
Proof.
  intros Ht Hp. unfold normalizePower.
  destruct (totalPower =? 0) eqn:E; [lia|].
  assert (p * MaxUint32 / totalPower <= MaxUint32).
  { apply Z.div_le_upper_bound; [lia|]. unfold MaxUint32. nia. }
  assert (Hm : MaxUint32 < 2 ^ 64) by (unfold MaxUint32; lia).
  destruct (_ <? _) eqn:E2; [done|lia].
Qed.

Lemma normalizeSigners_spec totalPower l :
  0 < totalPower ->
  (forall es, es ∈ l -> 0 <= Power es <= totalPower) ->
  normalizeSigners totalPower l = Some (map (normalized totalPower) l).
Proof.
  intros Ht. induction l as [|es l IH]; intros Hl; simpl; [done|].
  rewrite normalizePower_small; [|done|apply Hl; left].
  rewrite IH; [done|]. intros; apply Hl; by right.
Qed.

(** The truncation loss: the remainders of the divisions, one per signer. *)
Lemma truncation_loss totalPower l :
  0 < totalPower ->
  (forall es, es ∈ l -> 0 <= Power es) ->
  0 <= MaxUint32 * sumPowers l
       - totalPower * sumPowers (map (normalized totalPower) l)
    <= Z.of_nat (length l) * (totalPower - 1).
Proof.
  intros Ht. induction l as [|es l IH]; intros Hl.
  - simpl. lia.
  - assert (Hes : 0 <= Power es) by (apply Hl; left).
    assert (IH' := IH (fun e He => Hl e (list_elem_of_further _ _ _ He))).
    cbn [map sumPowers foldr normalized Power length] in *.
    fold (sumPowers l) in *. fold (sumPowers (map (normalized totalPower) l)) in *.
    pose proof (Z.div_mod (Power es * MaxUint32) totalPower ltac:(lia)) as Hdm.
    pose proof (Z.mod_pos_bound (Power es * MaxUint32) totalPower Ht) as Hr.
    set (q := Power es * MaxUint32 / totalPower) in *.
    set (r := (Power es * MaxUint32) mod totalPower) in *.
    rewrite Nat2Z.inj_succ. nia.
Qed.

Lemma elem_le_sumPowers l es :
  (forall e, e ∈ l -> 0 <= Power e) -> es ∈ l -> Power es <= sumPowers l.
Proof.
  induction l as [|e l IH]; intros Hl Hin; [by apply elem_of_nil in Hin|].
  assert (0 <= Power e) by (apply Hl; left).
  assert (0 <= sumPowers l)
    by (apply sumPowers_nonneg; intros; apply Hl; by right).
  apply elem_of_cons in Hin as [->|Hin]; simpl; unfold sumPowers in *; [lia|].
  assert (Power es <= foldr (fun es acc => Power es + acc) 0 l); [|lia].
  apply IH; [|done]. intros; apply Hl; by right.
Qed.

(** C1 (as amended).  When the powers of the included signers add up, as
    unbounded integers, to a total that is positive and fits in 64 bits,
    [CurrentSignerSet] returns every included signer with the power
    floor(p * (2^32 - 1) / totalPower); the normalized powers sum to at most
    2^32 - 1, and 2^32 - 1 minus that sum is less than the number of
    included signers. *)
Theorem CurrentSignerSet_normalized (s : State) :
  let included := includedSigners env s (GetBondedValidatorsByPower env) in
  let totalPower := sumPowers included in
  totalPower < 2 ^ 64 ->
  0 < totalPower ->
  exists signers,
    CurrentSignerSet env s = Some signers /\
    signers = map (normalized totalPower) included /\
    sumPowers signers <= MaxUint32 /\
    MaxUint32 - sumPowers signers < Z.of_nat (length included).
Proof.
  intros included totalPower Hfit Hpos.
  assert (Hrange : forall es, es ∈ included -> 0 <= Power es).
  { intros es Hes. by apply includedSigners_power_range in Hes as [? _]. }
  exists (map (normalized totalPower) included).
  split; [|split; [done|]].
  - unfold CurrentSignerSet. rewrite collectSigners_spec. simpl.
    fold included. rewrite running_total_exact by (done || lia).
    rewrite Z.add_0_l. fold totalPower.
    apply normalizeSigners_spec; [done|].
    intros es Hes. split; [by apply Hrange|by apply elem_le_sumPowers].
  - pose proof (truncation_loss totalPower included Hpos Hrange) as Hloss.
    assert (Hsum : sumPowers included = totalPower) by reflexivity.
    rewrite Hsum in Hloss.
    assert (Hk : 1 <= Z.of_nat (length included)).
    { destruct included; [simpl in Hsum; lia|simpl; lia]. }
    set (n := sumPowers (map (normalized totalPower) included)) in *.
    set (k := Z.of_nat (length included)) in *.
    clearbody n k totalPower. clear Hsum.
    split; nia.
Qed.

(** C7 (as amended).  When no bonded validator has a non-zero registered
    Ethereum address, [CurrentSignerSet] returns the empty list (the
    normalizing loop has nothing to divide); and whatever list it returns
    carries exactly the non-zero registered addresses of the bonded
    validators, in order: a validator whose address is the zero address
    contributes no signer. *)
Theorem CurrentSignerSet_excludes_zero_address (s : State) :
  (includedSigners env s (GetBondedValidatorsByPower env) = [] ->
   CurrentSignerSet env s = Some []) /\
  (forall signers,
     CurrentSignerSet env s = Some signers ->
     map EthereumAddress signers =
       filter (fun a => a <> zeroAddress)
              (map (GetValidatorEthereumAddress env s)
                   (GetBondedValidatorsByPower env))).
Proof.
  unfold CurrentSignerSet. rewrite collectSigners_spec. simpl. split.
  - intros ->. done.
  - set (total := fold_left _ _ _). clearbody total.
    assert (Haddr : forall l,
      map EthereumAddress (includedSigners env s l) =
      filter (fun a => a <> zeroAddress) (map (GetValidatorEthereumAddress env s) l)).
    { induction l as [|val l IH]; [done|].
      cbn [includedSigners omap list_omap map]. rewrite filter_cons.
      destruct (decide (GetValidatorEthereumAddress env s val <> zeroAddress)) as [Hne|He].
      - rewrite bool_decide_eq_true_2 by done. simpl. f_equal. apply IH.
      - rewrite bool_decide_eq_false_2 by done. apply IH. }
    rewrite <- Haddr. clear Haddr.
    generalize (includedSigners env s (GetBondedValidatorsByPower env)).
    intros l. induction l as [|es l IH]; intros signers Hs; simpl in *.
    + by injection Hs as <-.
    + destruct (normalizePower total (Power es)); [|done].
      destruct (normalizeSigners total l) as [rest|]; [|done].
      injection Hs as <-. simpl. f_equal. by apply IH.
Qed.

(** With included signers whose powers total zero, the division is reached
    and panics. *)
Lemma CurrentSignerSet_zero_total_panics (s : State) :
  let r := collectSigners env s (GetBondedValidatorsByPower env) [] 0 in
  r.1 <> [] -> r.2 = 0 -> CurrentSignerSet env s = None.
Proof.
  unfold CurrentSignerSet.
  destruct (collectSigners _ _ _ _ _) as [l total]. simpl.
  intros Hne ->. destruct l as [|es l]; [done|]. done.
Qed.

End SignerSet.

(** S5: powers 100, 50, 50 give 2147483647, 1073741823, 1073741823. *)
Example CurrentSignerSet_shares :
  option_map (map Power) (CurrentSignerSet (TC := exampleConsts) sharesEnv registeredState)
  = Some [2147483647; 1073741823; 1073741823].
Proof. vm_compute. reflexivity. Qed.

Lemma CurrentSignerSet_normalized_witness :
  exists signers,
    CurrentSignerSet (TC := exampleConsts) sharesEnv registeredState = Some signers /\
    sumPowers signers <= MaxUint32 /\
    MaxUint32 - sumPowers signers < 3.
Proof.
  destruct (CurrentSignerSet_normalized (TC := exampleConsts) sharesEnv registeredState)
    as [signers [H1 [_ [H3 H4]]]].
  - vm_compute. reflexivity.
  - vm_compute. reflexivity.
  - exists signers. split; [exact H1|]. split; [exact H3|exact H4].
Defined.

(** C1, as stated, fails: three validators at power 2^63 - 1 wrap the
    64-bit total to 2^63 - 3, every signer is normalized to 2^32 - 1, and
    the weights sum to three times the bound. *)
Lemma normalization_fails_on_wrap :
  ~ normalization_holds (TC := exampleConsts) maxPowerEnv registeredState.
Proof.
  unfold normalization_holds. intros H.
  destruct H as [signers [Hs [_ [Hle _]]]].
  - vm_compute. reflexivity.
  - vm_compute in Hs. injection Hs as <-. vm_compute in Hle. by apply Hle.
Qed.

(** C7, as stated, fails: three registered validators of power zero total
    zero, and the call panics on the division instead of returning the
    empty list. *)
Lemma zero_total_panics :
  ~ zero_total_gives_empty (TC := exampleConsts) zeroPowerEnv registeredState.
Proof.
  unfold zero_total_gives_empty. intros H.
  assert (Hs : CurrentSignerSet (TC := exampleConsts) zeroPowerEnv registeredState = Some [])
    by (apply H; vm_compute; reflexivity).
  vm_compute in Hs. discriminate Hs.
Qed.

(** ** Reasoning about keeper calls *)

Lemma bind_Some {A B} (m : M A) (f : A -> M B) s b s' :
  bind m f s = Some (b, s') <->
  exists a s1, m s = Some (a, s1) /\ f a s1 = Some (b, s').
Proof.
  unfold bind. split.
  - destruct (m s) as [[a s1]|]; [|done]. eauto.
  - intros (a & s1 & -> & H). done.
Qed.

Lemma ret_Some {A} (a b : A) s s' : ret a s = Some (b, s') <-> b = a /\ s' = s.
Proof. unfold ret. split; [intros [= -> ->]|intros [-> ->]]; done. Qed.

Lemma modify_Some f (u : unit) s s' : modify f s = Some (u, s') <-> s' = f s.
Proof. unfold modify. destruct u. split; [intros [= ->]|intros ->]; done. Qed.

Lemma get_state_Some s0 s s' : get_state s = Some (s0, s') <-> s0 = s /\ s' = s.
Proof. unfold get_state. split; [intros [= -> ->]|intros [-> ->]]; done. Qed.

Lemma read_Some {A} (f : State -> option A) a s s' :
  read f s = Some (a, s') <-> f s = Some a /\ s' = s.
Proof.
  unfold read. destruct (f s); split; try done.
  - intros [= -> ->]. done.
  - intros [[= ->] ->]. done.
  - intros [[=] _].
Qed.

Lemma panic_Some {A} (a : A) s s' : panic s = Some (a, s') <-> False.
Proof. done. Qed.

(** Splits a successful run of a sequence of calls into its steps. *)
Ltac inv_call H :=
  repeat match type of H with
  | bind _ _ _ = Some _ =>
      let a := fresh "a" in let s := fresh "s" in let H1 := fresh "Hstep" in
      apply bind_Some in H as (a & s & H1 & H)
  end.

Ltac inv_steps :=
  repeat match goal with
  | H : ret _ _ = Some _ |- _ => apply ret_Some in H as [? ?]; subst
  | H : modify _ _ = Some _ |- _ => apply modify_Some in H; subst
  | H : get_state _ = Some _ |- _ => apply get_state_Some in H as [? ?]; subst
  | H : read _ _ = Some _ |- _ => apply read_Some in H as [H ?]; subst
  | H : panic _ = Some _ |- _ => by apply panic_Some in H
  end.

Lemma with_kv_id s : with_kv (fun m => m) s = s.
Proof. by destruct s. Qed.

Lemma for_each_cons_Some {X} (x : X) l (body : X -> M unit) s (u : unit) s' :
  for_each (x :: l) body s = Some (u, s') <->
  exists s1, body x s = Some (tt, s1) /\ for_each l body s1 = Some (u, s').
Proof.
  cbn [for_each]. rewrite bind_Some. split.
  - intros ([] & s1 & ? & ?). eauto.
  - intros (s1 & ? & ?). eauto.
Qed.

(** A relation that every step of a loop respects holds across the loop. *)
Lemma for_each_rel {X} (R : State -> State -> Prop) (l : list X)
    (body : X -> M unit) :
  (forall s, R s s) ->
  (forall s1 s2 s3, R s1 s2 -> R s2 s3 -> R s1 s3) ->
  (forall x s1 s2, x ∈ l -> body x s1 = Some (tt, s2) -> R s1 s2) ->
  forall s (u : unit) s', for_each l body s = Some (u, s') -> R s s'.
Proof.
  intros Hrefl Htrans. induction l as [|x l IH]; intros Hbody s u s' H.
  - apply ret_Some in H as [_ ->]. apply Hrefl.
  - apply for_each_cons_Some in H as (s1 & H1 & H2).
    eapply Htrans; [eapply Hbody; [left|done]|].
    eapply IH; [|done]. intros; eapply Hbody; [by right|done].
Qed.

Lemma iterate_rel {X A} (R : State -> State -> Prop) (l : list X)
    (cb : A -> X -> M (A * bool)) :
  (forall s, R s s) ->
  (forall s1 s2 s3, R s1 s2 -> R s2 s3 -> R s1 s3) ->
  (forall a x r s1 s2, x ∈ l -> cb a x s1 = Some (r, s2) -> R s1 s2) ->
  forall a s a' s', iterate l cb a s = Some (a', s') -> R s s'.
Proof.
  intros Hrefl Htrans. induction l as [|x l IH]; intros Hcb a s a' s' H.
  - apply ret_Some in H as [_ ->]. apply Hrefl.
  - cbn [iterate] in H. apply bind_Some in H as (r & s1 & H1 & H2).
    assert (R s s1) by (eapply Hcb; [left|done]).
    destruct (r.2).
    + apply ret_Some in H2 as [_ ->]. done.
    + eapply Htrans; [done|]. eapply IH; [|done].
      intros; eapply Hcb; [by right|done].
Qed.

Section Frames.
Context `{TC : TypesConsts} (env : Env).

Lemma frame_refl P s : frame P s s.
Proof. done. Qed.

Lemma frame_trans P s1 s2 s3 : frame P s1 s2 -> frame P s2 s3 -> frame P s1 s3.
Proof.
  intros (Ha & Hb & Hc) (Ha' & Hb' & Hc'). split; [|split; congruence].
  intros K HK. rewrite Ha', Ha; done.
Qed.

Lemma frame_weaken (P Q : bytes -> Prop) s s' :
  (forall K, Q K -> P K) -> frame P s s' -> frame Q s s'.
Proof. intros HPQ (Ha & Hb & Hc). split; [|done]. intros K HK. apply Ha, HPQ, HK. Qed.

Lemma storeSet_frame key v s (u : unit) s' :
  storeSet key v s = Some (u, s') -> frame (fun K => K <> key) s s'.
Proof.
  intros H. apply modify_Some in H as ->. split; [|done].
  intros K HK. simpl. by rewrite lookup_insert_ne.
Qed.

Lemma storeSet_lookup key v s (u : unit) s' :
  storeSet key v s = Some (u, s') -> kv s' !! key = Some v.
Proof. intros H. apply modify_Some in H as ->. simpl. apply lookup_insert_eq. Qed.

Lemma storeDelete_frame key s (u : unit) s' :
  storeDelete key s = Some (u, s') -> frame (fun K => K <> key) s s'.
Proof.
  intros H. apply modify_Some in H as ->. split; [|done].
  intros K HK. simpl. by rewrite lookup_delete_ne.
Qed.

Lemma lookup_sweep (p : bytes) (m : gmap bytes Val) (K : bytes) :
  sweep p m !! K = if has_prefix p K then None else m !! K.
Proof.
  unfold sweep. destruct (has_prefix p K) eqn:E.
  - apply map_lookup_filter_None. right. intros v _. simpl. congruence.
  - destruct (m !! K) as [v|] eqn:Hm.
    + apply map_lookup_filter_Some. done.
    + apply map_lookup_filter_None. by left.
Qed.

Lemma lookup_fold_delete {X} (f : X -> bytes) (l : list X)
    (m : gmap bytes Val) (K : bytes) :
  fold_left (fun m e => delete (f e) m) l m !! K =
  if decide (K ∈ f <$> l) then None else m !! K.
Proof.
  revert m. induction l as [|x l IH]; intros m; cbn [fold_left fmap list_fmap].
  - rewrite decide_False; [done|]. apply not_elem_of_nil.
  - rewrite IH. destruct (decide (K ∈ f <$> l)) as [Hin|Hnin].
    + rewrite decide_True; [done|]. by right.
    + destruct (decide (K = f x)) as [->|Hne].
      * rewrite decide_True by left. apply lookup_delete_eq.
      * rewrite decide_False.
        -- by rewrite lookup_delete_ne.
        -- intros [?|?]%elem_of_cons; done.
Qed.

Lemma for_each_storeDelete {X} (f : X -> bytes) (l : list X) s :
  for_each l (fun e => storeDelete (f e)) s =
  Some (tt, with_kv (fun m => fold_left (fun m e => delete (f e) m) l m) s).
Proof.
  revert s. induction l as [|x l IH]; intros s.
  - simpl. unfold ret. by rewrite with_kv_id.
  - cbn [for_each]. unfold bind at 1. unfold storeDelete at 1, modify.
    rewrite IH. done.
Qed.

(** Deleting what an iterator over a prefix lists is a sweep of the prefix. *)
Lemma delete_prefix_entries (p : bytes) (s : State) :
  for_each (Iterator p (kv s)) (fun e => storeDelete (p ++ e.1)) s =
  Some (tt, with_kv (sweep p) s).
Proof.
  rewrite for_each_storeDelete. do 2 f_equal.
  unfold with_kv. f_equal. apply map_eq. intros K.
  rewrite lookup_fold_delete, lookup_sweep.
  destruct (has_prefix p K) eqn:E.
  - apply has_prefix_spec in E as [r ->].
    destruct (kv s !! (p ++ r)) as [v|] eqn:Hl.
    + rewrite decide_True; [done|].
      apply list_elem_of_fmap. exists (r, v). split; [done|].
      by apply elem_of_Iterator.
    + by destruct (decide _).
  - rewrite decide_False; [done|].
    intros [[k v] [-> _]]%list_elem_of_fmap. simpl in E.
    by rewrite has_prefix_app in E.
Qed.

Lemma DeleteEthereumSignatures_spec otx s :
  DeleteEthereumSignatures otx s =
  Some (tt, with_kv (sweep (EthereumSignatureKey :: GetStoreIndex otx)) s).
Proof.
  unfold DeleteEthereumSignatures, bind, get_state.
  apply (delete_prefix_entries (EthereumSignatureKey :: GetStoreIndex otx)).
Qed.

End Frames.

(** ** Migration *)

Lemma NoDup_lookup_ne {A} (l : list A) (i j : nat) (a b : A) :
  NoDup l -> l !! i = Some a -> l !! j = Some b -> i <> j -> a <> b.
Proof.
  intros Hnd Hi Hj Hij ->. apply Hij. eapply NoDup_lookup; eauto.
Qed.

Ltac index_of a l :=
  lazymatch l with
  | a :: _ => constr:(O)
  | _ :: ?l' => let n := index_of a l' in constr:(S n)
  end.

(** Two store prefixes of different names differ. *)
Ltac prefix_ne Hd :=
  lazymatch goal with
  | |- ?a <> ?b =>
      let l := eval cbv [store_prefixes] in store_prefixes in
      let i := index_of a l in
      let j := index_of b l in
      exact (NoDup_lookup_ne store_prefixes i j a b (proj1 Hd) eq_refl eq_refl
               ltac:(discriminate))
  end.

Section Migration.
Context `{TC : TypesConsts} (env : Env).

Lemma has_prefix_refl (p : bytes) : has_prefix p p = true.
Proof. apply has_prefix_spec. exists []. by rewrite app_nil_r. Qed.

Lemma storeSet_frame_prefix b r v s (u : unit) s' :
  storeSet (b :: r) v s = Some (u, s') ->
  frame (fun K => has_prefix [b] K = false) s s'.
Proof.
  intros H. eapply frame_weaken; [|by eapply storeSet_frame].
  intros K HK ->. simpl in HK. by rewrite decide_True in HK.
Qed.

Lemma storeDelete_frame_prefix b r s (u : unit) s' :
  storeDelete (b :: r) s = Some (u, s') ->
  frame (fun K => has_prefix [b] K = false) s s'.
Proof.
  intros H. eapply frame_weaken; [|by eapply storeDelete_frame].
  intros K HK ->. simpl in HK. by rewrite decide_True in HK.
Qed.

Lemma sweepOutgoing_loop (l : list (bytes * Val)) s (u : unit) s1 :
  for_each l sweepOutgoing s = Some (u, s1) ->
  params s1 = params s /\
  (forall K, kv s1 !! K = None \/ kv s1 !! K = kv s !! K) /\
  (forall k v, (k, v) ∈ l ->
     kv s1 !! (OutgoingTxKey :: k) = None /\
     exists otx, v = VOutgoingTx otx /\
       forall r, kv s1 !! (EthereumSignatureKey :: GetStoreIndex otx ++ r) = None) /\
  (forall K,
     (forall k v, (k, v) ∈ l ->
        K <> OutgoingTxKey :: k /\
        forall otx, v = VOutgoingTx otx ->
          has_prefix (EthereumSignatureKey :: GetStoreIndex otx) K = false) ->
     kv s1 !! K = kv s !! K).
Proof.
  revert s. induction l as [|[k v] l IH]; intros s H.
  - apply ret_Some in H as [_ ->].
    split; [done|]. split; [by right|]. split; [|done].
    intros k v Hin. by apply elem_of_nil in Hin.
  - apply for_each_cons_Some in H as (sa & Hbody & Hrest).
    unfold sweepOutgoing in Hbody. simpl in Hbody.
    destruct v as [| otx | | | |]; try done.
    apply bind_Some in Hbody as ([] & sb & Hsig & Hdel).
    rewrite DeleteEthereumSignatures_spec in Hsig. injection Hsig as <-.
    apply modify_Some in Hdel. subst sa.
    apply IH in Hrest as (Hp & Hshrink & Hgone & Hkeep). clear IH.
    set (p := EthereumSignatureKey :: GetStoreIndex otx) in *.
    assert (Hmid : forall K,
      kv (with_kv (delete (OutgoingTxKey :: k)) (with_kv (sweep p) s)) !! K =
      if decide (OutgoingTxKey :: k = K) then None
      else if has_prefix p K then None else kv s !! K).
    { intros K. simpl. rewrite lookup_delete. destruct (decide _); [done|].
      apply lookup_sweep. }
    split; [by rewrite Hp|]. split; [|split].
    + intros K. destruct (Hshrink K) as [-> | ->]; [by left|].
      rewrite Hmid. destruct (decide _); [by left|].
      destruct (has_prefix p K); [by left|by right].
    + intros k' v' [Heq|Hin]%elem_of_cons.
      * injection Heq as -> ->. split.
        -- destruct (Hshrink (OutgoingTxKey :: k)) as [-> | ->]; [done|].
           rewrite Hmid. by rewrite decide_True.
        -- exists otx. split; [done|]. intros r.
           destruct (Hshrink (EthereumSignatureKey :: GetStoreIndex otx ++ r))
             as [-> | ->]; [done|].
           rewrite Hmid. destruct (decide _); [done|].
           fold p. change (EthereumSignatureKey :: GetStoreIndex otx ++ r)
             with (p ++ r). by rewrite has_prefix_app.
      * by apply Hgone.
    + intros K HK. rewrite Hkeep.
      * rewrite Hmid. destruct (HK k (VOutgoingTx otx)) as [Hne Hpre]; [left|].
        rewrite decide_False by done. subst p. by rewrite (Hpre otx eq_refl).
      * intros k' v' Hin. apply HK. by right.
Qed.

Lemma resetVoters_frame (k : bytes) r (b : bool) s s' :
  resetVoters env k r s = Some (b, s') ->
  frame (fun K => has_prefix [LastEventNonceByValidatorKey] K = false) s s'.
Proof.
  unfold resetVoters. intros H. apply bind_Some in H as ([] & s1 & Hloop & Hret).
  apply ret_Some in Hret as [_ ->].
  revert Hloop. apply for_each_rel.
  - apply frame_refl.
  - apply frame_trans.
  - intros vote sa sb _ Hb.
    destruct (ValAddressFromBech32 env vote) as [val|]; [|done].
    by apply storeSet_frame_prefix in Hb.
Qed.

Lemma iterateEthereumEventVoteRecords_frame s (u : unit) s' :
  iterateEthereumEventVoteRecords (resetVoters env) s = Some (u, s') ->
  frame (fun K => has_prefix [LastEventNonceByValidatorKey] K = false) s s'.
Proof.
  unfold iterateEthereumEventVoteRecords. intros H.
  apply bind_Some in H as (s0 & s1 & Hget & Hit).
  apply get_state_Some in Hget as [-> ->].
  revert Hit. apply iterate_rel.
  - apply frame_refl.
  - apply frame_trans.
  - intros [] [k v] r sa sb _ Hcb. simpl in Hcb.
    destruct v; try done.
    apply bind_Some in Hcb as (stop & sc & Hcb & Hret).
    apply ret_Some in Hret as [_ ->]. by apply resetVoters_frame in Hcb.
Qed.

(** The state a migration leaves behind, whenever it returns. *)
Lemma MigrateGravityContract_sweeps newBridgeAddress H (s s' : State) :
  consts_distinct ->
  MigrateGravityContract env newBridgeAddress H s = Some (tt, s') ->
  (forall idx, kv s' !! MakeOutgoingTxKey idx = None) /\
  (forall idx otx val,
     kv s !! MakeOutgoingTxKey idx = Some (VOutgoingTx otx) ->
     kv s' !! MakeEthereumSignatureKey (GetStoreIndex otx) val = None) /\
  (forall k,
     (forall idx otx,
        kv s !! MakeOutgoingTxKey idx = Some (VOutgoingTx otx) ->
        has_prefix (GetStoreIndex otx) k = false) ->
     kv s' !! (EthereumSignatureKey :: k) = kv s !! (EthereumSignatureKey :: k)) /\
  lastOutgoingBatchNonce env s' = Some 0 /\
  GetLatestSignerSetTxNonce env s' = Some 0 /\
  getBridgeContractAddress s' = newBridgeAddress /\
  GetLastObservedEthereumBlockHeight s' =
    Some {| EthereumHeight := uint64 (H - 1);
            CosmosHeight := uint64 (BlockHeight env) |}.
Proof.
  intros Hd Hrun. unfold MigrateGravityContract in Hrun.
  apply bind_Some in Hrun as (s0 & s0' & Hget & Hrun).
  apply get_state_Some in Hget as [-> ->].
  apply bind_Some in Hrun as ([] & sa & Hloop & Hrun).
  apply bind_Some in Hrun as ([] & sb & Hb & Hrun).
  apply bind_Some in Hrun as ([] & sc & Hc & Hrun).
  apply bind_Some in Hrun as ([] & sd & Hdd & Hrun).
  apply bind_Some in Hrun as (s1 & s1' & Hget & Hrun).
  apply get_state_Some in Hget as [-> ->].
  apply bind_Some in Hrun as ([] & se & He & Hrun).
  apply bind_Some in Hrun as ([] & sf & Hf & Hrun).
  apply bind_Some in Hrun as ([] & sg & Hg & Hrun).
  apply bind_Some in Hrun as ([] & sh & Hh & Hrun).
  apply bind_Some in Hrun as (s2 & s2' & Hget & Hrun).
  apply get_state_Some in Hget as [-> ->].
  apply modify_Some in Hrun.
  apply sweepOutgoing_loop in Hloop as (_ & Hshrink & Hgone & Hkeep).
  pose proof (storeSet_lookup _ _ _ _ _ Hb) as Lb.
  pose proof (storeSet_lookup _ _ _ _ _ Hf) as Lf.
  pose proof (storeSet_lookup _ _ _ _ _ Hh) as Lh.
  apply storeSet_frame_prefix in Hb as [Fb _].
  apply storeSet_frame_prefix in Hc as [Fc _].
  apply iterateEthereumEventVoteRecords_frame in Hdd as [Fd _].
  assert (Fe : forall K, has_prefix [EthereumEventVoteRecordKey] K = false ->
                         kv se !! K = kv sd !! K).
  { revert He. generalize (Iterator [EthereumEventVoteRecordKey] (kv sd)).
    intros l He.
    assert (Hfr : frame (fun K => has_prefix [EthereumEventVoteRecordKey] K = false) sd se).
    { revert He. apply for_each_rel.
      - apply frame_refl.
      - apply frame_trans.
      - intros e s1 s2 _ Hdel. by apply storeDelete_frame_prefix in Hdel. }
    apply Hfr. }
  apply storeSet_frame_prefix in Hf as [Ff _].
  apply storeSet_frame_prefix in Hg as [Fg _].
  apply storeSet_frame_prefix in Hh as [Fh _].
  assert (Hkv : kv s' = kv sh) by (by subst s').
  assert (Htail : forall b r,
    b <> LatestSignerSetTxNonceKey -> b <> LastObservedEventNonceKey ->
    b <> LastEventNonceByValidatorKey -> b <> EthereumEventVoteRecordKey ->
    b <> LastEthereumBlockHeightKey -> b <> LastObservedSignerSetKey ->
    b <> LastOutgoingBatchNonceKey ->
    kv s' !! (b :: r) = kv sa !! (b :: r)).
  { intros b r ? ? ? ? ? ? ?. rewrite Hkv.
    rewrite Fh, Fg, Ff, Fe, Fd, Fc, Fb; [done|..];
      by apply has_prefix_cons_ne. }
  split; [|split; [|split; [|split; [|split; [|split]]]]].
  - intros idx. unfold MakeOutgoingTxKey.
    rewrite Htail by prefix_ne Hd.
    destruct (Hshrink (OutgoingTxKey :: idx)) as [-> | Heq]; [done|].
    destruct (kv s !! (OutgoingTxKey :: idx)) as [v|] eqn:Hl; [|done].
    destruct (Hgone idx v) as [Hnone _]; [|done].
    by apply (elem_of_ReverseIterator [OutgoingTxKey]).
  - intros idx otx val Hl. unfold MakeEthereumSignatureKey.
    rewrite Htail by prefix_ne Hd.
    destruct (Hgone idx (VOutgoingTx otx)) as [_ (otx' & Heq & Hsig)].
    { by apply (elem_of_ReverseIterator [OutgoingTxKey]). }
    injection Heq as <-. apply Hsig.
  - intros k Hk. rewrite Htail by prefix_ne Hd. apply Hkeep.
    intros idx v Hin. apply (elem_of_ReverseIterator [OutgoingTxKey]) in Hin.
    split.
    + assert (EthereumSignatureKey <> OutgoingTxKey) by prefix_ne Hd.
      congruence.
    + intros otx ->. simpl. rewrite decide_True by done. by apply (Hk idx).
  - unfold lastOutgoingBatchNonce, storeGet. rewrite Hkv, Lh. simpl.
    unfold readUint64. by rewrite BigEndianUint64_Uint64ToBigEndian.
  - unfold GetLatestSignerSetTxNonce, storeGet. rewrite Hkv.
    rewrite Fh, Fg, Ff, Fe, Fd, Fc, Lb;
      [|apply has_prefix_cons_ne; prefix_ne Hd..].
    simpl. unfold readUint64. by rewrite BigEndianUint64_Uint64ToBigEndian.
  - by subst s'.
  - unfold GetLastObservedEthereumBlockHeight. rewrite Hkv.
    rewrite Fh, Fg, Lf; [done|apply has_prefix_cons_ne; prefix_ne Hd..].
Qed.

End Migration.

Lemma exampleConsts_distinct : consts_distinct (TC := exampleConsts).
Proof. apply (bool_decide_unpack _). vm_compute. exact I. Defined.

Lemma exec_Some (m : M unit) (s : State) :
  m s <> None -> m s = Some (tt, exec m s).
Proof. unfold exec. destruct (m s) as [[[] s']|]; done. Qed.

(** A run that evaluates to a result has one. *)
Lemma returns_by_evaluation {A} (o : option A) :
  match o with Some _ => true | None => false end = true -> o <> None.
Proof. by destruct o. Qed.

Lemma result_by_evaluation {A B} (o : option (A * B)) :
  match o with Some _ => true | None => false end = true ->
  exists a b, o = Some (a, b).
Proof. destruct o as [[a b]|]; [by exists a, b|done]. Qed.

(** C6, as stated, fails on the signature index: the signature of an
    executed batch outlives the batch, and the migration, which walks the
    outgoing transactions still stored, does not reach it. *)
Lemma migration_keeps_orphan_signature :
  ~ migration_empties_signatures (TC := exampleConsts) sharesEnv "0xb2" 500
      executedState.
Proof.
  intros H.
  assert (Hrun : MigrateGravityContract (TC := exampleConsts) sharesEnv "0xb2" 500
                   executedState <> None).
  { apply returns_by_evaluation. vm_compute. reflexivity. }
  specialize (H _ (exec_Some _ _ Hrun)).
  vm_compute in H. discriminate H.
Qed.

(** ** The address directory *)

Section Directory.
Context `{TC : TypesConsts} (env : Env).

(** Every validator the forward index maps to the address is reported. *)
Lemma getValidatorsByEthereumAddress_complete (s : State) (ethAddr v : bytes) :
  v ∈ validatorsByForeignAddress_spec env s ethAddr ->
  v ∈ getValidatorsByEthereumAddress env s ethAddr.
Proof.
  unfold validatorsByForeignAddress_spec, getValidatorsByEthereumAddress.
  rewrite !list_elem_of_omap. intros [[k val] [Hin Hf]]. simpl in Hf.
  destruct (bool_decide _) eqn:E; [|done]. injection Hf as ->.
  apply (elem_of_Iterator [ValidatorEthereumAddressKey]) in Hin.
  exists (ValidatorEthereumAddressKey :: v, val). split.
  - by apply elem_of_entries.
  - simpl. rewrite E. unfold TrimPrefix. simpl.
    by rewrite decide_True.
Qed.

End Directory.

(** C8 on a concrete store: validator [va] is registered with the address
    [00…01] and the batch nonce counter stands at one.  The scan of the
    forward index finds [va]; [getValidatorsByEthereumAddress], which walks
    the whole store, also reports the key of the counter, whose eight
    bytes pad to the same address. *)
Lemma getValidatorsByEthereumAddress_reads_other_keys :
  validatorsByForeignAddress_spec (TC := exampleConsts) sharesEnv
    directoryState (addr x01) = [va] /\
  getValidatorsByEthereumAddress (TC := exampleConsts) sharesEnv
    directoryState (addr x01)
    = [va; [@LastOutgoingBatchNonceKey exampleConsts]].
Proof. split; vm_compute; reflexivity. Qed.

(** ** Cancelling and executing batches *)

Section Batches.
Context `{TC : TypesConsts} (env : Env).

Lemma poolKey_prefix (t : SendToEthereum) :
  has_prefix [SendToEthereumKey] (poolKey t) = true.
Proof. unfold poolKey, MakeSendToEthereumKey. simpl. by rewrite decide_True. Qed.

Lemma lookup_reinsert_other (txs : list SendToEthereum) (m : gmap bytes Val)
    (K : bytes) :
  K ∉ poolKey <$> txs -> reinsert txs m !! K = m !! K.
Proof.
  unfold reinsert. revert m. induction txs as [|t txs IH]; intros m Hnin; [done|].
  cbn [fold_left]. rewrite IH.
  - apply lookup_insert_ne. intros <-. apply Hnin. left.
  - intros Hin. apply Hnin. by right.
Qed.

Lemma lookup_reinsert_in (txs : list SendToEthereum) (m : gmap bytes Val)
    (K : bytes) :
  K ∈ poolKey <$> txs ->
  exists t, t ∈ txs /\ poolKey t = K /\ reinsert txs m !! K = Some (VSendToEthereum t).
Proof.
  unfold reinsert. revert m. induction txs as [|t txs IH]; intros m Hin.
  - by apply elem_of_nil in Hin.
  - cbn [fold_left].
    destruct (decide (K ∈ poolKey <$> txs)) as [Hin'|Hnin].
    + destruct (IH (<[poolKey t:=VSendToEthereum t]> m) Hin') as (t' & ? & ? & ?).
      exists t'. split; [by right|done].
    + apply elem_of_cons in Hin as [->|Hin]; [|done].
      exists t. split; [left|]. split; [done|].
      fold (reinsert txs (<[poolKey t:=VSendToEthereum t]> m)).
      rewrite lookup_reinsert_other by done. apply lookup_insert_eq.
Qed.

Lemma for_each_setUnbatched (txs : list SendToEthereum) (s : State) :
  for_each txs setUnbatchedSendToEthereum s = Some (tt, with_kv (reinsert txs) s).
Proof.
  revert s. induction txs as [|t txs IH]; intros s.
  - simpl. unfold ret. by rewrite with_kv_id.
  - cbn [for_each]. unfold bind at 1.
    unfold setUnbatchedSendToEthereum at 1, storeSet, modify.
    rewrite IH. done.
Qed.

Lemma CancelBatchTx_spec (b : BatchTx) (s : State) :
  exists s',
    CancelBatchTx b s = Some (tt, s') /\
    kv s' = delete (MakeOutgoingTxKey (GetStoreIndex (OtxBatch b)))
                   (reinsert (Transactions b) (kv s)) /\
    params s' = params s /\ burns s' = burns s.
Proof.
  unfold CancelBatchTx, bind. rewrite for_each_setUnbatched.
  unfold DeleteOutgoingTx, storeDelete, modify, get_state, EmitEvent. simpl.
  eexists. split; [reflexivity|]. done.
Qed.

(** The loop of [batchTxExecuted] over the batches its iterator lists. *)
Lemma cancel_loop (Hd : consts_distinct) (b : BatchTx) (l : list (bytes * Val))
    (s : State) (u : unit) (s1 : State) :
  iterate l (decodeOutgoing (cancelEarlier (Some b))) tt s = Some (u, s1) ->
  params s1 = params s /\ burns s1 = burns s /\
  (forall K, has_prefix [SendToEthereumKey] K = false ->
     kv s1 !! K = None \/ kv s1 !! K = kv s !! K) /\
  (forall K, has_prefix [SendToEthereumKey] K = false ->
     (forall b', cancelled_in b l b' ->
        K <> MakeOutgoingTxKey (GetStoreIndex (OtxBatch b'))) ->
     kv s1 !! K = kv s !! K) /\
  (forall b', cancelled_in b l b' ->
     kv s1 !! MakeOutgoingTxKey (GetStoreIndex (OtxBatch b')) = None) /\
  (forall K, has_prefix [SendToEthereumKey] K = true ->
     kv s1 !! K = kv s !! K \/
     exists b' t, cancelled_in b l b' /\ t ∈ Transactions b' /\
                  poolKey t = K /\ kv s1 !! K = Some (VSendToEthereum t)) /\
  (forall b' t, cancelled_in b l b' -> t ∈ Transactions b' ->
     exists b'' t', cancelled_in b l b'' /\ t' ∈ Transactions b'' /\
                    poolKey t' = poolKey t /\
                    kv s1 !! poolKey t = Some (VSendToEthereum t')).
Proof.
  assert (Hne : OutgoingTxKey <> SendToEthereumKey) by prefix_ne Hd.
  assert (Hout : forall idx, has_prefix [SendToEthereumKey] (MakeOutgoingTxKey idx) = false).
  { intros idx. unfold MakeOutgoingTxKey. by apply has_prefix_cons_ne. }
  revert s. induction l as [|[k v] l IH]; intros s Hrun.
  - apply ret_Some in Hrun as [_ ->].
    assert (Hno : forall b', ~ cancelled_in b [] b').
    { intros b' [[k Hin] _]. by apply elem_of_nil in Hin. }
    split; [done|]. split; [done|]. split; [by right|]. split; [done|].
    split; [intros b' Hc; by apply Hno in Hc|]. split; [by left|].
    intros b' t Hc. by apply Hno in Hc.
  - cbn [iterate] in Hrun. apply bind_Some in Hrun as (r & sa & Hcb & Hrest).
    unfold decodeOutgoing in Hcb. simpl in Hcb.
    destruct v as [| otx | | | |]; try done.
    unfold cancelEarlier in Hcb.
    destruct (asBatchTx otx) as [bh|] eqn:Hbh; [|done].
    destruct otx as [|bh'|]; try done. injection Hbh as ->.
    apply bind_Some in Hcb as ([] & sa' & Hstep & Hret).
    apply ret_Some in Hret as [-> ->]. simpl in Hrest.
    apply IH in Hrest as (Hp & Hb & Hshrink & Hkeep & Hgone & Hpool & Hins).
    clear IH.
    assert (Hcons : forall b', cancelled_in b ((k, VOutgoingTx (OtxBatch bh)) :: l) b' <->
              (b' = bh /\ BatchNonce bh < BatchNonce b /\ TokenContract bh = TokenContract b)
              \/ cancelled_in b l b').
    { intros b'. unfold cancelled_in. split.
      - intros [[k' Hin] [Hn Ht]]. apply elem_of_cons in Hin as [Heq|Hin].
        + injection Heq as -> ->. by left.
        + right. eauto.
      - intros [(-> & Hn & Ht)|[[k' Hin] [Hn Ht]]].
        + split; [exists k; left|done].
        + split; [exists k'; by right|done]. }
    destruct ((BatchNonce bh <? BatchNonce b)
              && bool_decide (TokenContract bh = TokenContract b)) eqn:Hcond.
    + (* the batch is cancelled *)
      apply andb_true_iff in Hcond as [Hn Ht].
      apply Z.ltb_lt in Hn. apply bool_decide_eq_true in Ht.
      destruct (CancelBatchTx_spec bh s) as (sc & Hc & Hkv & Hpc & Hbc).
      rewrite Hc in Hstep. injection Hstep as <-.
      set (Kh := MakeOutgoingTxKey (GetStoreIndex (OtxBatch bh))) in *.
      assert (Hmid_out : forall K, has_prefix [SendToEthereumKey] K = false ->
                kv sc !! K = if decide (Kh = K) then None else kv s !! K).
      { intros K HK. rewrite Hkv, lookup_delete. destruct (decide _); [done|].
        apply lookup_reinsert_other. intros [t [-> _]]%list_elem_of_fmap.
        by rewrite poolKey_prefix in HK. }
      assert (Hmid_pool : forall K, has_prefix [SendToEthereumKey] K = true ->
                kv sc !! K = reinsert (Transactions bh) (kv s) !! K).
      { intros K HK. rewrite Hkv. apply lookup_delete_ne. intros <-.
        subst Kh. by rewrite Hout in HK. }
      split; [congruence|]. split; [congruence|].
      split; [|split; [|split; [|split]]].
      * intros K HK. destruct (Hshrink K HK) as [-> | ->]; [by left|].
        rewrite Hmid_out by done. destruct (decide _); [by left|by right].
      * intros K HK Hnc. rewrite Hkeep; [|done|].
        -- rewrite Hmid_out by done. rewrite decide_False; [done|].
           intros <-. apply (Hnc bh); [apply Hcons; by left|done].
        -- intros b' Hc'. apply Hnc, Hcons. by right.
      * intros b' [(-> & _)|Hc']%Hcons; [|by apply Hgone].
        change (kv s1 !! Kh = None).
        destruct (Hshrink Kh (Hout _)) as [-> | ->]; [done|].
        rewrite Hmid_out by apply Hout. by rewrite decide_True.
      * intros K HK. destruct (Hpool K HK) as [-> | (b' & t & Hc' & ? & ? & ?)].
        -- rewrite Hmid_pool by done.
           destruct (decide (K ∈ poolKey <$> Transactions bh)) as [Hin|Hnin].
           ++ right. destruct (lookup_reinsert_in _ (kv s) _ Hin) as (t & ? & ? & ?).
              exists bh, t. split; [apply Hcons; by left|done].
           ++ left. by apply lookup_reinsert_other.
        -- right. exists b', t. split; [apply Hcons; by right|done].
      * intros b' t [(-> & _)|Hc']%Hcons Hin.
        -- destruct (Hpool (poolKey t) (poolKey_prefix t))
             as [-> | (b' & t' & Hc' & ? & ? & ?)].
           ++ rewrite Hmid_pool by apply poolKey_prefix.
              destruct (lookup_reinsert_in (Transactions bh) (kv s) (poolKey t))
                as (t' & ? & ? & ?).
              { apply list_elem_of_fmap. eauto. }
              exists bh, t'. split; [apply Hcons; by left|done].
           ++ exists b', t'. split; [apply Hcons; by right|done].
        -- destruct (Hins b' t Hc' Hin) as (b'' & t' & Hc'' & ? & ? & ?).
           exists b'', t'. split; [apply Hcons; by right|done].
    + (* the batch is left alone *)
      apply ret_Some in Hstep as [_ ->].
      assert (Hsame : forall b', cancelled_in b ((k, VOutgoingTx (OtxBatch bh)) :: l) b'
                                 <-> cancelled_in b l b').
      { intros b'. rewrite Hcons. split; [|by right].
        intros [(-> & Hn & Ht)|?]; [|done].
        apply andb_false_iff in Hcond as [Hc|Hc].
        - apply Z.ltb_ge in Hc. lia.
        - by apply bool_decide_eq_false in Hc. }
      split; [done|]. split; [done|]. split; [done|].
      split; [|split; [|split]].
      * intros K HK Hnc. apply Hkeep; [done|]. intros b' Hc'. by apply Hnc, Hsame.
      * intros b' Hc'%Hsame. by apply Hgone.
      * intros K HK. destruct (Hpool K HK) as [?|(b' & t & Hc' & ?)]; [by left|].
        right. exists b', t. split; [by apply Hsame|done].
      * intros b' t Hc'%Hsame Hin.
        destruct (Hins b' t Hc' Hin) as (b'' & t' & Hc'' & ?).
        exists b'', t'. split; [by apply Hsame|done].
Qed.

End Batches.

Lemma iterate_returns {X A} (l : list X) (cb : A -> X -> M (A * bool)) :
  (forall x a s, x ∈ l -> is_Some (cb a x s)) ->
  forall a s, is_Some (iterate l cb a s).
Proof.
  induction l as [|x l IH]; intros Hcb a s; [by eexists|].
  cbn [iterate]. unfold bind.
  destruct (Hcb x a s) as [[r s1] ->]; [left|].
  destruct (r.2); [by eexists|].
  apply IH. intros; apply Hcb. by right.
Qed.

Lemma NoDup_fmap_inj_on {A B} (f : A -> B) (l : list A) (x y : A) :
  NoDup (f <$> l) -> x ∈ l -> y ∈ l -> f x = f y -> x = y.
Proof.
  induction l as [|a l IH]; intros Hnd Hx Hy Hf; [by apply elem_of_nil in Hx|].
  rewrite fmap_cons in Hnd. apply NoDup_cons in Hnd as [Hnin Hnd].
  apply elem_of_cons in Hx as [->|Hx]; apply elem_of_cons in Hy as [->|Hy].
  - done.
  - exfalso. apply Hnin. rewrite Hf. apply list_elem_of_fmap. eauto.
  - exfalso. apply Hnin. rewrite <- Hf. apply list_elem_of_fmap. eauto.
  - by apply IH.
Qed.

Section Executed.
Context `{TC : TypesConsts} (env : Env).

Lemma wf_outgoing_lookup (s : State) (k : bytes) (v : Val) :
  wf_outgoing s -> kv s !! (OutgoingTxKey :: k) = Some v ->
  exists otx, v = VOutgoingTx otx /\ k = GetStoreIndex otx.
Proof.
  unfold wf_outgoing. rewrite forallb_forall. intros Hwf Hl.
  specialize (Hwf (k, v)). unfold at_own_index in Hwf. simpl in Hwf.
  destruct v as [| otx | | | |];
    try (discriminate Hwf; apply list_elem_of_In;
         by apply (elem_of_Iterator [OutgoingTxKey])).
  exists otx. split; [done|]. eapply bool_decide_eq_true. apply Hwf.
  apply list_elem_of_In. by apply (elem_of_Iterator [OutgoingTxKey]).
Qed.

(** Under the batch tag a well-formed store holds batches only. *)
Lemma wf_outgoing_batch (Hd : consts_distinct) (s : State) (k : bytes) (v : Val) :
  wf_outgoing s -> kv s !! (OutgoingTxKey :: BatchTxPrefixByte :: k) = Some v ->
  exists b, v = VOutgoingTx (OtxBatch b) /\
            BatchTxPrefixByte :: k = GetStoreIndex (OtxBatch b).
Proof.
  intros Hwf Hl. destruct (wf_outgoing_lookup _ _ _ Hwf Hl) as (otx & -> & Hidx).
  destruct Hd as [_ Htags]. unfold type_tags in Htags.
  apply NoDup_cons in Htags as [Hs Htags].
  apply NoDup_cons in Htags as [Hb _].
  destruct otx as [ss|b|cc]; simpl in Hidx.
  - exfalso. apply Hs. injection Hidx as Heq _. rewrite <- Heq. left.
  - by exists b.
  - exfalso. apply Hb. injection Hidx as Heq _. rewrite Heq. left.
Qed.

Lemma stored_batch_listed (s : State) (b : BatchTx) :
  stored_batch s b ->
  (TokenContract b ++ Uint64ToBigEndian (BatchNonce b), VOutgoingTx (OtxBatch b))
    ∈ ReverseIterator (MakeOutgoingTxKey [BatchTxPrefixByte]) (kv s).
Proof. intros Hs. by apply elem_of_ReverseIterator. Qed.

Lemma stored_batch_txs (s : State) (b : BatchTx) (t : SendToEthereum) :
  stored_batch s b -> t ∈ Transactions b -> t ∈ batchTxs s.
Proof.
  intros Hs Ht. unfold batchTxs. apply list_elem_of_In, in_flat_map.
  exists (GetStoreIndex (OtxBatch b), VOutgoingTx (OtxBatch b)). split.
  - apply list_elem_of_In. by apply (elem_of_Iterator [OutgoingTxKey]).
  - simpl. by apply list_elem_of_In.
Qed.

Lemma cancelEarlier_returns (Hd : consts_distinct) (s : State) (b : BatchTx)
    (l : list (bytes * Val)) :
  wf_outgoing s ->
  (forall e, e ∈ l ->
     kv s !! (OutgoingTxKey :: BatchTxPrefixByte :: e.1) = Some e.2) ->
  forall s0, is_Some (iterate l (decodeOutgoing (cancelEarlier (Some b))) tt s0).
Proof.
  intros Hwf Hl s0. apply iterate_returns. intros [k v] [] sx Hin.
  destruct (wf_outgoing_batch Hd s k v Hwf (Hl _ Hin)) as (b' & -> & _).
  unfold decodeOutgoing, cancelEarlier. simpl. unfold bind.
  destruct (_ && _).
  - destruct (CancelBatchTx_spec b' sx) as (s' & -> & _). by eexists.
  - by eexists.
Qed.

Lemma batchTxExecuted_inv (b : BatchTx) (s : State) (r : option Error) (s' : State) :
  stored_batch s b ->
  batchTxExecuted env (TokenContract b) (BatchNonce b) s = Some (r, s') ->
  exists s1,
    iterate (ReverseIterator (MakeOutgoingTxKey [BatchTxPrefixByte]) (kv s))
            (decodeOutgoing (cancelEarlier (Some b))) tt s = Some (tt, s1) /\
    executed_tail env b s1 r s'.
Proof.
  intros Hs Hrun. unfold batchTxExecuted in Hrun.
  apply bind_Some in Hrun as (found & s0 & Hget & Hrun).
  apply read_Some in Hget as [Hget ->].
  unfold GetOutgoingTx in Hget. unfold stored_batch, GetStoreIndex in Hs.
  rewrite Hs in Hget. injection Hget as <-.
  simpl in Hrun. apply bind_Some in Hrun as ([] & s1 & Hloop & Hrun).
  unfold IterateOutgoingTxsByType in Hloop.
  apply bind_Some in Hloop as (sx & sy & Hg & Hloop).
  apply get_state_Some in Hg as [-> ->].
  exists s1. split; [exact Hloop|].
  unfold executed_tail.
  destruct (ERC20ToDenomLookup env (TokenContract b)) as [isCosmos denom].
  simpl. destruct isCosmos; simpl in Hrun.
  - apply bind_Some in Hrun as ([] & s2 & Hdel & Hret).
    apply modify_Some in Hdel. apply ret_Some in Hret as [-> ->]. done.
  - destruct (totalToBurn _ _ _) as [total|].
    + apply bind_Some in Hrun as (err & s2 & Hburn & Hrun).
      unfold BurnCoins in Hburn.
      apply bind_Some in Hburn as (sx & sy & Hg & Hburn).
      apply get_state_Some in Hg as [-> ->].
      apply bind_Some in Hburn as ([] & sz & Hm & Hret).
      apply modify_Some in Hm. apply ret_Some in Hret as [-> ->]. subst sz.
      destruct (BankBurnCoins _ _ _) as [cause|].
      * apply ret_Some in Hrun as [-> ->]. done.
      * apply bind_Some in Hrun as ([] & s3 & Hdel & Hret).
        apply modify_Some in Hdel. apply ret_Some in Hret as [-> ->]. done.
    + apply ret_Some in Hrun as [-> ->]. done.
Qed.

Lemma batchTxExecuted_returns (Hd : consts_distinct) (b : BatchTx) (s : State) :
  wf_outgoing s -> stored_batch s b ->
  exists r s', batchTxExecuted env (TokenContract b) (BatchNonce b) s = Some (r, s').
Proof.
  intros Hwf Hs. unfold batchTxExecuted, bind, read.
  unfold GetOutgoingTx. unfold stored_batch, GetStoreIndex in Hs.
  rewrite Hs. simpl.
  unfold IterateOutgoingTxsByType, bind, get_state.
  destruct (cancelEarlier_returns Hd s b
              (ReverseIterator (MakeOutgoingTxKey [BatchTxPrefixByte]) (kv s)) Hwf)
    with (s0 := s) as [[[] s1] ->].
  { intros [k v] Hin. by apply elem_of_ReverseIterator in Hin. }
  destruct (ERC20ToDenomLookup env (TokenContract b)) as [[] denom]; simpl.
  - by eexists _, _.
  - destruct (totalToBurn _ _ _); [|by eexists _, _].
    unfold BurnCoins, bind, get_state, modify, ret. simpl.
    destruct (BankBurnCoins _ _ _); by eexists _, _.
Qed.

End Executed.

Section ExecutedResults.
Context `{TC : TypesConsts} (env : Env).

Lemma listed_batch_stored (Hd : consts_distinct) (s : State) (k : bytes)
    (b : BatchTx) :
  wf_outgoing s ->
  (k, VOutgoingTx (OtxBatch b))
    ∈ ReverseIterator (MakeOutgoingTxKey [BatchTxPrefixByte]) (kv s) ->
  stored_batch s b.
Proof.
  intros Hwf Hin. apply elem_of_ReverseIterator in Hin.
  change (MakeOutgoingTxKey [BatchTxPrefixByte] ++ k)
    with (OutgoingTxKey :: BatchTxPrefixByte :: k) in Hin.
  destruct (wf_outgoing_lookup _ _ _ Hwf Hin) as (otx & Heq & Hidx).
  injection Heq as <-. unfold stored_batch, MakeOutgoingTxKey.
  by rewrite <- Hidx.
Qed.

Lemma held_batch_stored (s : State) (idx : bytes) (b : BatchTx) :
  wf_outgoing s ->
  kv s !! MakeOutgoingTxKey idx = Some (VOutgoingTx (OtxBatch b)) ->
  idx = GetStoreIndex (OtxBatch b).
Proof.
  intros Hwf Hl. destruct (wf_outgoing_lookup _ _ _ Hwf Hl) as (otx & Heq & Hidx).
  by injection Heq as <-.
Qed.

(** The state between the cancellation loop and the burn. *)
Lemma after_cancel_loop (Hd : consts_distinct) (b : BatchTx) (s s1 : State) :
  wf_outgoing s -> stored_batch s b ->
  iterate (ReverseIterator (MakeOutgoingTxKey [BatchTxPrefixByte]) (kv s))
          (decodeOutgoing (cancelEarlier (Some b))) tt s = Some (tt, s1) ->
  burns s1 = burns s /\
  stored_batch s1 b /\
  (forall idx, kv s1 !! MakeOutgoingTxKey idx = None \/
               kv s1 !! MakeOutgoingTxKey idx = kv s !! MakeOutgoingTxKey idx) /\
  (forall b', TokenContract b' = TokenContract b ->
              BatchNonce b' < BatchNonce b -> absent_batch s1 b') /\
  (distinct_pool_keys s ->
   forall b' t, stored_batch s b' -> TokenContract b' = TokenContract b ->
                BatchNonce b' < BatchNonce b -> t ∈ Transactions b' ->
                pooled s1 t).
Proof.
  intros Hwf Hs Hloop.
  assert (Hne : OutgoingTxKey <> SendToEthereumKey) by prefix_ne Hd.
  assert (Hout : forall idx, has_prefix [SendToEthereumKey] (MakeOutgoingTxKey idx) = false).
  { intros idx. unfold MakeOutgoingTxKey. by apply has_prefix_cons_ne. }
  apply (cancel_loop Hd) in Hloop
    as (_ & Hb & Hshrink & Hkeep & Hgone & _ & Hins).
  set (l := ReverseIterator (MakeOutgoingTxKey [BatchTxPrefixByte]) (kv s)) in *.
  assert (Hstored : forall b', cancelled_in b l b' -> stored_batch s b').
  { intros b' [[k Hin] _]. by eapply listed_batch_stored. }
  split; [done|]. split; [|split; [|split]].
  - unfold stored_batch. rewrite Hkeep; [done|apply Hout|].
    intros b' Hc Heq. pose proof (Hstored b' Hc) as Hs'.
    unfold stored_batch in Hs, Hs'. rewrite Heq, Hs' in Hs.
    injection Hs as ->. destruct Hc as (_ & Hn & _). lia.
  - intros idx. apply Hshrink, Hout.
  - intros b' Ht Hn idx Hl.
    assert (Hl0 : kv s !! MakeOutgoingTxKey idx = Some (VOutgoingTx (OtxBatch b'))).
    { destruct (Hshrink _ (Hout idx)) as [Heq|Heq]; rewrite Heq in Hl; done. }
    pose proof (held_batch_stored _ _ _ Hwf Hl0) as ->.
    rewrite Hgone in Hl; [done|]. split; [|done].
    exists (TokenContract b' ++ Uint64ToBigEndian (BatchNonce b')).
    by apply stored_batch_listed.
  - intros Hnd b' t Hs' Ht Hn Hin.
    destruct (Hins b' t) as (b'' & t' & Hc & Hin' & Hk & Hl); [|done|].
    { split; [|done]. eexists. by apply stored_batch_listed. }
    assert (t' = t) as ->; [|done].
    eapply (NoDup_fmap_inj_on poolKey (batchTxs s)); [done| | |done].
    + eapply stored_batch_txs; [by apply Hstored|done].
    + by eapply stored_batch_txs.
Qed.

(** C2.  On a well-formed store, once [batchTxExecuted] has returned
    without error for a stored batch [b]: [b] is gone from the outgoing-tx
    store, so is every batch of the same token contract with a lower
    nonce, and every transfer of each batch so cancelled is back in the
    unbatched pool. *)
Theorem batchTxExecuted_cancels_earlier (b : BatchTx) (s s' : State) :
  consts_distinct -> wf_outgoing s -> distinct_pool_keys s ->
  stored_batch s b ->
  batchTxExecuted env (TokenContract b) (BatchNonce b) s = Some (None, s') ->
  absent_batch s' b /\
  (forall b', TokenContract b' = TokenContract b ->
              BatchNonce b' < BatchNonce b -> absent_batch s' b') /\
  (forall b' t, stored_batch s b' -> TokenContract b' = TokenContract b ->
                BatchNonce b' < BatchNonce b -> t ∈ Transactions b' ->
                pooled s' t).
Proof.
  intros Hd Hwf Hnd Hs Hrun.
  apply batchTxExecuted_inv in Hrun as (s1 & Hloop & Htail); [|done].
  apply (after_cancel_loop Hd) in Hloop
    as (_ & Hs1 & Hshrink & Habs & Hpool); [|done..].
  assert (Hne : OutgoingTxKey <> SendToEthereumKey) by prefix_ne Hd.
  set (keyB := MakeOutgoingTxKey (GetStoreIndex (OtxBatch b))) in *.
  assert (Hkv : kv s' = delete keyB (kv s1)).
  { unfold executed_tail in Htail. fold keyB in Htail.
    destruct (ERC20ToDenomLookup env (TokenContract b)).1.
    - destruct Htail as [_ ->]. done.
    - destruct (totalToBurn _ _ _); [|by destruct Htail].
      destruct (BankBurnCoins _ _ _); [by destruct Htail|].
      destruct Htail as [_ ->]. done. }
  split; [|split].
  - intros idx Hl. rewrite Hkv in Hl.
    apply lookup_delete_Some in Hl as [Hneq Hl].
    apply Hneq. subst keyB. f_equal. symmetry.
    eapply held_batch_stored; [done|].
    destruct (Hshrink idx) as [Heq|Heq]; rewrite Heq in Hl; done.
  - intros b' Ht Hn idx Hl. rewrite Hkv in Hl.
    apply lookup_delete_Some in Hl as [_ Hl]. by eapply Habs.
  - intros b' t Hs' Ht Hn Hin. unfold pooled. rewrite Hkv.
    rewrite lookup_delete_ne; [by eapply Hpool|].
    subst keyB. unfold MakeOutgoingTxKey, poolKey, MakeSendToEthereumKey.
    congruence.
Qed.

(** C9.  Whenever [batchTxExecuted contract nonce] returns an error on a
    well-formed store, the call was for a stored batch [b]; [b] is still
    stored, every batch of the same token contract with a lower nonce is
    gone from the outgoing-tx store, and the transfers of the batches so
    cancelled are in the unbatched pool: the function undoes nothing. *)
Theorem batchTxExecuted_error_keeps_mutations (contract : bytes) (nonce : Z)
    (s : State) (err : Error) (s' : State) :
  consts_distinct -> wf_outgoing s -> distinct_pool_keys s ->
  batchTxExecuted env contract nonce s = Some (Some err, s') ->
  exists b,
    stored_batch s b /\
    GetStoreIndex (OtxBatch b) = MakeBatchTxKey contract nonce /\
    stored_batch s' b /\
    (forall b', TokenContract b' = TokenContract b ->
                BatchNonce b' < BatchNonce b -> absent_batch s' b') /\
    (forall b' t, stored_batch s b' -> TokenContract b' = TokenContract b ->
                  BatchNonce b' < BatchNonce b -> t ∈ Transactions b' ->
                  pooled s' t) /\
    (err = errInvalidBatch \/ exists cause, err = ErrBurn cause).
Proof.
  intros Hd Hwf Hnd Hrun.
  assert (Hfound : exists b,
    kv s !! MakeOutgoingTxKey (MakeBatchTxKey contract nonce)
      = Some (VOutgoingTx (OtxBatch b))).
  { unfold batchTxExecuted in Hrun.
    apply bind_Some in Hrun as (found & s0 & Hget & Hrun).
    apply read_Some in Hget as [Hget ->]. unfold GetOutgoingTx in Hget.
    destruct (kv s !! MakeOutgoingTxKey (MakeBatchTxKey contract nonce))
      as [v|] eqn:Hl.
    - destruct (wf_outgoing_batch Hd s _ v Hwf Hl) as (b & -> & _). by exists b.
    - injection Hget as <-. by apply ret_Some in Hrun as [? _]. }
  destruct Hfound as [b Hl].
  pose proof (held_batch_stored _ _ _ Hwf Hl) as Hidx.
  assert (Hs : stored_batch s b) by (unfold stored_batch; by rewrite <- Hidx).
  assert (Hrun' : batchTxExecuted env (TokenContract b) (BatchNonce b) s
                  = Some (Some err, s')).
  { rewrite <- Hrun. unfold batchTxExecuted.
    change (MakeBatchTxKey (TokenContract b) (BatchNonce b))
      with (GetStoreIndex (OtxBatch b)). by rewrite <- Hidx. }
  apply batchTxExecuted_inv in Hrun' as (s1 & Hloop & Htail); [|done].
  apply (after_cancel_loop Hd) in Hloop
    as (_ & Hs1 & _ & Habs & Hpool); [|done..].
  assert (Hkv : kv s' = kv s1 /\
                (err = errInvalidBatch \/ exists cause, err = ErrBurn cause)).
  { unfold executed_tail in Htail.
    destruct (ERC20ToDenomLookup env (TokenContract b)).1; [by destruct Htail|].
    destruct (totalToBurn _ _ _).
    - destruct (BankBurnCoins _ _ _) as [cause|]; [|by destruct Htail].
      destruct Htail as [[= ->] ->]. split; [done|]. right. by exists cause.
    - destruct Htail as [[= ->] ->]. split; [done|by left]. }
  destruct Hkv as [Hkv Herr].
  exists b. split; [done|]. split; [done|].
  split; [unfold stored_batch; by rewrite Hkv|].
  split; [|split; [|done]].
  - intros b' Ht Hn idx. rewrite Hkv. by apply Habs.
  - intros b' t Hs' Ht Hn Hin. unfold pooled. rewrite Hkv. by eapply Hpool.
Qed.

Lemma totalToBurn_carries (c : bytes) (txs : list SendToEthereum) (acc : N) :
  Forall (carries c) txs -> totalToBurn c txs acc = Some (acc + burnSum txs)%N.
Proof.
  intros Hall. revert acc. induction Hall as [|t txs [Ha Hf] _ IH]; intros acc.
  - simpl. f_equal. lia.
  - cbn [totalToBurn burnSum foldr].
    rewrite !bool_decide_eq_false_2 by (intros Hc; by apply Hc).
    simpl. rewrite IH. f_equal. unfold burnSum. lia.
Qed.

Lemma totalToBurn_mismatch (c : bytes) (txs : list SendToEthereum) (acc : N) :
  ~ Forall (carries c) txs -> totalToBurn c txs acc = None.
Proof.
  revert acc. induction txs as [|t txs IH]; intros acc Hn.
  - exfalso. apply Hn. constructor.
  - cbn [totalToBurn].
    destruct (bool_decide (Contract (Erc20Token t) <> c)) eqn:E1; [done|].
    destruct (bool_decide (Contract (Erc20Fee t) <> c)) eqn:E2; [done|].
    simpl. apply IH. intros Hall. apply Hn. constructor; [|done].
    apply bool_decide_eq_false in E1, E2. split.
    + by destruct (decide (Contract (Erc20Token t) = c)).
    + by destruct (decide (Contract (Erc20Fee t) = c)).
Qed.

(** C4 (as amended).  For a stored batch [b] on a well-formed store
    [batchTxExecuted] returns, and: if the token is home-originated the
    bank receives no burn call; if it is not and every transfer carries the
    batch's contract on amount and fee, the bank receives exactly one burn
    call, for the sum of amount plus fee over the transfers, in the
    directory's denomination; if it is not and some transfer carries
    another contract, the call fails with the invalid-batch error before
    any burn. *)
Theorem batchTxExecuted_burn (b : BatchTx) (s : State) :
  consts_distinct -> wf_outgoing s -> stored_batch s b ->
  exists r s',
    batchTxExecuted env (TokenContract b) (BatchNonce b) s = Some (r, s') /\
    let origin := ERC20ToDenomLookup env (TokenContract b) in
    (origin.1 = true -> burns s' = burns s) /\
    (origin.1 = false ->
     Forall (carries (TokenContract b)) (Transactions b) ->
     burns s' = burns s ++
       [{| burnModule := ModuleName;
           burnCoins := NewCoins [NewCoin origin.2 (burnSum (Transactions b))] |}]) /\
    (origin.1 = false ->
     ~ Forall (carries (TokenContract b)) (Transactions b) ->
     r = Some errInvalidBatch /\ burns s' = burns s).
Proof.
  intros Hd Hwf Hs.
  destruct (batchTxExecuted_returns env Hd b s Hwf Hs) as (r & s' & Hrun).
  exists r, s'. split; [done|].
  apply batchTxExecuted_inv in Hrun as (s1 & Hloop & Htail); [|done].
  apply (after_cancel_loop Hd) in Hloop as (Hb & _); [|done..].
  unfold executed_tail in Htail. simpl.
  destruct (ERC20ToDenomLookup env (TokenContract b)) as [isCosmos denom].
  simpl in *. split; [|split].
  - intros ->. destruct Htail as [_ ->]. done.
  - intros -> Hall. rewrite (totalToBurn_carries _ _ _ Hall) in Htail.
    rewrite N.add_0_l in Htail.
    destruct (BankBurnCoins _ _ _); destruct Htail as [_ ->]; simpl;
      by rewrite Hb.
  - intros -> Hmis. rewrite (totalToBurn_mismatch _ _ _ Hmis) in Htail.
    destruct Htail as [-> ->]. done.
Qed.

End ExecutedResults.

Lemma twoBatchState_wf :
  wf_outgoing (TC := exampleConsts) twoBatchState /\
  distinct_pool_keys (TC := exampleConsts) twoBatchState /\
  stored_batch (TC := exampleConsts) twoBatchState firstBatch /\
  stored_batch (TC := exampleConsts) twoBatchState secondBatch.
Proof.
  split; [vm_compute; reflexivity|]. split.
  - apply (bool_decide_unpack _). vm_compute. exact I.
  - split; vm_compute; reflexivity.
Defined.

(** S3: executing batch 2 removes both batches and returns the transfers
    of batch 1 to the pool. *)
Lemma batchTxExecuted_cancels_earlier_witness :
  let s' := exec (batchTxExecuted (TC := exampleConsts) sharesEnv tokenC 2)
                 twoBatchState in
  batchTxExecuted (TC := exampleConsts) sharesEnv tokenC 2 twoBatchState
    = Some (None, s') /\
  absent_batch (TC := exampleConsts) s' secondBatch /\
  absent_batch (TC := exampleConsts) s' firstBatch /\
  pooled (TC := exampleConsts) s' (transfer 1 10 3) /\
  pooled (TC := exampleConsts) s' (transfer 3 10 2).
Proof.
  intros s'.
  assert (Hrun : batchTxExecuted (TC := exampleConsts) sharesEnv
                   (TokenContract secondBatch) (BatchNonce secondBatch)
                   twoBatchState = Some (None, s')).
  { vm_compute. reflexivity. }
  destruct twoBatchState_wf as (Hwf & Hnd & Hs1 & Hs2).
  destruct (batchTxExecuted_cancels_earlier (TC := exampleConsts) sharesEnv
              secondBatch twoBatchState s' exampleConsts_distinct Hwf Hnd Hs2 Hrun)
    as (Ha & Hb & Hc).
  split; [exact Hrun|]. split; [exact Ha|].
  split; [apply Hb; [reflexivity|vm_compute; reflexivity]|].
  split.
  - apply (Hc firstBatch);
      [exact Hs1|reflexivity|vm_compute; reflexivity|left].
  - apply (Hc firstBatch);
      [exact Hs1|reflexivity|vm_compute; reflexivity|right; left].
Defined.

(** The bank refuses the burn of batch 2: the error is returned, batch 1
    is already cancelled and batch 2 is still stored. *)
Lemma batchTxExecuted_error_keeps_mutations_witness :
  let s' := exec (batchTxExecuted (TC := exampleConsts) refusingBankEnv tokenC 2)
                 twoBatchState in
  batchTxExecuted (TC := exampleConsts) refusingBankEnv tokenC 2 twoBatchState
    = Some (Some (ErrBurn "insufficient funds"), s') /\
  exists b,
    stored_batch (TC := exampleConsts) twoBatchState b /\
    GetStoreIndex (TC := exampleConsts) (OtxBatch b)
      = MakeBatchTxKey (TC := exampleConsts) tokenC 2 /\
    stored_batch (TC := exampleConsts) s' b.
Proof.
  intros s'.
  assert (Hrun : batchTxExecuted (TC := exampleConsts) refusingBankEnv tokenC 2
                   twoBatchState = Some (Some (ErrBurn "insufficient funds"), s')).
  { vm_compute. reflexivity. }
  destruct twoBatchState_wf as (Hwf & Hnd & _ & _).
  destruct (batchTxExecuted_error_keeps_mutations (TC := exampleConsts)
              refusingBankEnv tokenC 2 twoBatchState _ s'
              exampleConsts_distinct Hwf Hnd Hrun)
    as (b & H1 & H2 & H3 & _).
  split; [exact Hrun|]. exists b. split; [exact H1|]. split; [exact H2|exact H3].
Defined.

(** S4, on batch 2: one burn of (10 + 20) + (10 + 10) = 50. *)
Lemma batchTxExecuted_burn_witness :
  exists r s',
    batchTxExecuted (TC := exampleConsts) sharesEnv tokenC 2 twoBatchState
      = Some (r, s') /\
    burns s' = [{| burnModule := "gravity"; burnCoins := [("gravity0xcc"%string, 50%N)] |}].
Proof.
  destruct twoBatchState_wf as (Hwf & _ & _ & Hs2).
  destruct (batchTxExecuted_burn (TC := exampleConsts) sharesEnv secondBatch
              twoBatchState exampleConsts_distinct Hwf Hs2)
    as (r & s' & Hrun & _ & Hburn & _).
  exists r, s'. split; [exact Hrun|].
  apply Hburn; [reflexivity|].
  repeat constructor.
Defined.

(** C4, as stated, fails on its last clause when read for every token: a
    stored batch of a home-originated token whose transfer carries another
    contract is executed without any error, the transfers not being
    inspected on that path. *)
Lemma mismatch_passes_for_home_token :
  ~ mismatch_fails (TC := exampleConsts) homeTokenEnv mixedBatch mixedState.
Proof.
  unfold mismatch_fails. intros H.
  destruct H as [s' Hrun].
  - vm_compute. reflexivity.
  - intros Hall. apply Forall_cons in Hall as [[Hc _] _].
    vm_compute in Hc. discriminate Hc.
  - vm_compute in Hrun. discriminate Hrun.
Qed.

(** ** Building batches *)

Lemma window_nil {X} (d : Z) : window d (@nil X) = [].
Proof. unfold window. destruct (0 <? d); [apply take_nil|done]. Qed.

Lemma window_one {X} (x : X) (l : list X) : window 1 (x :: l) = [x].
Proof. unfold window. simpl. by rewrite take_0. Qed.

Lemma window_cons {X} (d : Z) (x : X) (l : list X) :
  d <> 1 -> window d (x :: l) = x :: window (d - 1) l.
Proof.
  intros Hd. unfold window.
  destruct (0 <? d) eqn:E.
  - apply Z.ltb_lt in E. assert ((0 <? d - 1) = true) as -> by (apply Z.ltb_lt; lia).
    replace (Z.to_nat d) with (S (Z.to_nat (d - 1))) by lia. done.
  - apply Z.ltb_ge in E. assert ((0 <? d - 1) = false) as -> by (apply Z.ltb_ge; lia).
    done.
Qed.

Lemma window_negative {X} (d : Z) (l : list X) : d <= 0 -> window d l = l.
Proof. intros Hd. unfold window. by assert ((0 <? d) = false) as -> by (apply Z.ltb_ge; lia). Qed.

Lemma bind_run {A B} (m : M A) (f : A -> M B) (s : State) (a : A) (s1 : State) :
  m s = Some (a, s1) -> bind m f s = f a s1.
Proof. unfold bind. by intros ->. Qed.

Section Build.
Context `{TC : TypesConsts} (env : Env).

Lemma all_transfers_cons e l :
  all_transfers (e :: l) -> (exists t, e.2 = VSendToEthereum t) /\ all_transfers l.
Proof.
  intros H. split; [apply H; left|]. intros e' He'. apply H. by right.
Qed.

(** The loop of [getBatchFeesByTokenType]. *)
Lemma fee_loop (maxElements : Z) (l : list (bytes * Val)) (fee : N) (i : Z)
    (s : State) :
  all_transfers l ->
  exists j,
    iterate l
      (decodeSendToEthereum
         (fun (acc : N * Z) tx =>
            let feeAmount := (acc.1 + Amount (Erc20Fee tx))%N in
            let i := acc.2 + 1 in
            ret ((feeAmount, i), bool_decide (i = maxElements))))
      (fee, i) s
    = Some ((fee + feeSum (window (maxElements - i) (transfers_of l)), j)%N, s).
Proof.
  revert fee i. induction l as [|e l IH]; intros fee i Hall.
  - exists i. simpl. unfold ret. rewrite window_nil. simpl.
    by rewrite N.add_0_r.
  - apply all_transfers_cons in Hall as [[t Ht] Hall].
    cbn [iterate]. unfold bind, decodeSendToEthereum at 1. rewrite Ht.
    unfold ret at 1. cbn [fst snd].
    unfold transfers_of. cbn [omap list_omap]. rewrite Ht.
    fold (transfers_of l).
    destruct (bool_decide (i + 1 = maxElements)) eqn:E.
    + apply bool_decide_eq_true in E. exists (i + 1). unfold ret.
      replace (maxElements - i) with 1 by lia. rewrite window_one.
      simpl. by rewrite N.add_0_r.
    + apply bool_decide_eq_false in E.
      destruct (IH (fee + Amount (Erc20Fee t))%N (i + 1) Hall) as [j Hj].
      exists j. etrans; [exact Hj|]. rewrite window_cons by lia. simpl.
      replace (maxElements - (i + 1)) with (maxElements - i - 1) by lia.
      do 3 f_equal. lia.
Qed.

(** The selection loop of [BuildBatchTx]. *)
Lemma selection_loop (maxElements : Z) (l : list (bytes * Val))
    (selected : list SendToEthereum) (s : State) :
  all_transfers l ->
  let taken :=
    window (maxElements - Z.of_nat (length selected)) (transfers_of l) in
  iterate l
    (decodeSendToEthereum
       (fun (selected : list SendToEthereum) ste =>
          let selected' := selected ++ [ste] in
          deleteUnbatchedSendToEthereum (Id ste) (Erc20Fee ste) ;;;
          ret (selected',
               bool_decide (Z.of_nat (length selected') = maxElements))))
    selected s
  = Some (selected ++ taken, with_kv (withdraw taken) s).
Proof.
  revert selected s. induction l as [|e l IH]; intros selected s Hall taken.
  - subst taken. simpl. unfold ret. rewrite window_nil, app_nil_r.
    by rewrite with_kv_id.
  - apply all_transfers_cons in Hall as [[t Ht] Hall].
    cbn [iterate]. unfold bind at 1, decodeSendToEthereum at 1. rewrite Ht.
    unfold bind at 1. unfold deleteUnbatchedSendToEthereum, storeDelete, modify.
    unfold ret at 1. cbn [fst snd].
    subst taken. unfold transfers_of. cbn [omap list_omap]. rewrite Ht.
    fold (transfers_of l). rewrite length_app. cbn [length].
    destruct (bool_decide _) eqn:E.
    + apply bool_decide_eq_true in E. unfold ret.
      replace (maxElements - Z.of_nat (length selected)) with 1 by lia.
      rewrite window_one. done.
    + apply bool_decide_eq_false in E.
      etrans; [by apply IH|]. rewrite length_app. cbn [length].
      rewrite window_cons by lia.
      replace (maxElements - Z.of_nat (length selected + 1))
        with (maxElements - Z.of_nat (length selected) - 1) by lia.
      rewrite <- app_assoc. done.
Qed.

Lemma wf_pool_lookup (s : State) (k : bytes) (v : Val) :
  wf_pool s -> kv s !! (SendToEthereumKey :: k) = Some v ->
  exists t, v = VSendToEthereum t /\ SendToEthereumKey :: k = poolKey t.
Proof.
  unfold wf_pool. rewrite forallb_forall. intros Hwf Hl.
  specialize (Hwf (k, v)). unfold at_own_slot in Hwf. simpl in Hwf.
  destruct v as [| | t | | |];
    try (discriminate Hwf; apply list_elem_of_In;
         by apply (elem_of_Iterator [SendToEthereumKey])).
  exists t. split; [done|]. eapply bool_decide_eq_true. apply Hwf.
  apply list_elem_of_In. by apply (elem_of_Iterator [SendToEthereumKey]).
Qed.

Lemma wf_pool_all_transfers (s : State) (contract : bytes) :
  wf_pool s ->
  all_transfers (ReverseIterator (SendToEthereumKey :: contract) (kv s)).
Proof.
  intros Hwf [k v] Hin. apply elem_of_ReverseIterator in Hin.
  destruct (wf_pool_lookup s (contract ++ k) v Hwf Hin) as (t & -> & _).
  by exists t.
Qed.

Lemma getBatchFeesByTokenType_spec (s : State) (contract : bytes)
    (maxElements : Z) :
  wf_pool s ->
  getBatchFeesByTokenType contract maxElements s
  = Some (feeSum (window maxElements (unbatchedTransfers s contract)), s).
Proof.
  intros Hwf.
  destruct (fee_loop maxElements
              (ReverseIterator (SendToEthereumKey :: contract) (kv s))
              0%N 0 s (wf_pool_all_transfers s contract Hwf)) as [j Hj].
  unfold getBatchFeesByTokenType.
  erewrite bind_run; [|exact Hj].
  unfold ret. simpl. rewrite Z.sub_0_r, N.add_0_l. done.
Qed.

(** The transfers the pool iterator yields sit under the keys it walks. *)
Lemma unbatchedTransfers_slot (s : State) (contract : bytes) (t : SendToEthereum) :
  wf_pool s -> t ∈ unbatchedTransfers s contract ->
  pooled s t /\ exists k, poolKey t = SendToEthereumKey :: contract ++ k.
Proof.
  intros Hwf Hin. unfold unbatchedTransfers, transfers_of in Hin.
  apply list_elem_of_omap in Hin as ([k v] & Hin & Hv). simpl in Hv.
  apply elem_of_ReverseIterator in Hin.
  destruct (wf_pool_lookup s (contract ++ k) v Hwf Hin) as (t' & -> & Hk).
  injection Hv as ->. split; [|by exists k].
  unfold pooled. by rewrite <- Hk.
Qed.

Lemma pooled_unbatched (s : State) (contract k : bytes) (t : SendToEthereum) :
  kv s !! (SendToEthereumKey :: contract ++ k) = Some (VSendToEthereum t) ->
  t ∈ unbatchedTransfers s contract.
Proof.
  intros Hl. unfold unbatchedTransfers, transfers_of.
  apply list_elem_of_omap. exists (k, VSendToEthereum t). split; [|done].
  by apply elem_of_ReverseIterator.
Qed.

Lemma lookup_withdraw (txs : list SendToEthereum) (m : gmap bytes Val) (K : bytes) :
  withdraw txs m !! K = if decide (K ∈ poolKey <$> txs) then None else m !! K.
Proof. apply lookup_fold_delete. Qed.

End Build.

Section BuildSteps.
Context `{TC : TypesConsts} (env : Env).

Lemma getLastOutgoingBatchByTokenType_readonly (token : bytes) (s : State)
    (r : option BatchTx) (s' : State) :
  getLastOutgoingBatchByTokenType token s = Some (r, s') -> s' = s.
Proof.
  unfold getLastOutgoingBatchByTokenType. intros H.
  apply bind_Some in H as (acc & s1 & Hit & Hret).
  apply ret_Some in Hret as [_ ->].
  unfold IterateOutgoingTxsByType in Hit.
  apply bind_Some in Hit as (sx & sy & Hg & Hit).
  apply get_state_Some in Hg as [-> ->].
  revert Hit. apply (iterate_rel (fun s s' => s' = s)); [done|congruence|].
  intros a [k v] r' sa sb _ Hcb. unfold decodeOutgoing in Hcb. simpl in Hcb.
  destruct v as [|[| btx |]| | | |]; try done.
  destruct (_ && _); by apply ret_Some in Hcb as [_ ->].
Qed.

Lemma getBatchFeesByTokenType_readonly (token : bytes) (maxElements : Z)
    (s : State) (fees : N) (s' : State) :
  getBatchFeesByTokenType token maxElements s = Some (fees, s') -> s' = s.
Proof.
  unfold getBatchFeesByTokenType. intros H.
  apply bind_Some in H as (acc & s1 & Hit & Hret).
  apply ret_Some in Hret as [_ ->].
  unfold iterateUnbatchedSendToEthereumsByContract in Hit.
  apply bind_Some in Hit as (sx & sy & Hg & Hit).
  apply get_state_Some in Hg as [-> ->].
  revert Hit. apply (iterate_rel (fun s s' => s' = s)); [done|congruence|].
  intros a [k v] r' sa sb _ Hcb. unfold decodeSendToEthereum in Hcb. simpl in Hcb.
  destruct v; try done. by apply ret_Some in Hcb as [_ ->].
Qed.

Lemma selectTransfer_Some (maxElements : Z) (selected : list SendToEthereum)
    (t : SendToEthereum) (s : State) (r : list SendToEthereum * bool) (s' : State) :
  selectTransfer maxElements selected t s = Some (r, s') ->
  r.1 = selected ++ [t] /\ s' = with_kv (delete (poolKey t)) s.
Proof.
  unfold selectTransfer. intros H.
  apply bind_Some in H as ([] & s1 & Hdel & Hret).
  apply modify_Some in Hdel. apply ret_Some in Hret as [-> ->]. by subst.
Qed.

(** The selection only grows what it has selected. *)
Lemma selection_grows (maxElements : Z) (l : list (bytes * Val))
    (selected : list SendToEthereum) (s : State)
    (r : list SendToEthereum) (s' : State) :
  iterate l (decodeSendToEthereum (selectTransfer maxElements)) selected s
    = Some (r, s') ->
  (length selected <= length r)%nat /\ (r = selected -> s' = s).
Proof.
  revert selected s. induction l as [|[k v] l IH]; intros selected s H.
  - apply ret_Some in H as [-> ->]. done.
  - cbn [iterate] in H. apply bind_Some in H as (r1 & s1 & Hcb & Hrest).
    unfold decodeSendToEthereum in Hcb. simpl in Hcb.
    destruct v as [| | t | | |]; try done.
    apply selectTransfer_Some in Hcb as [Hr1 ->].
    assert (Hlen : length r1.1 = S (length selected)).
    { rewrite Hr1, length_app. simpl. lia. }
    destruct (r1.2).
    + apply ret_Some in Hrest as [-> ->]. split; [lia|].
      intros Heq. rewrite Heq in Hlen. lia.
    + apply IH in Hrest as [Hle _]. split; [lia|].
      intros Heq. rewrite Heq in Hle. lia.
Qed.

Lemma selection_frame (maxElements : Z) (l : list (bytes * Val))
    (selected : list SendToEthereum) (s : State)
    (r : list SendToEthereum) (s' : State) :
  iterate l (decodeSendToEthereum (selectTransfer maxElements)) selected s
    = Some (r, s') ->
  kv_frame (fun K => has_prefix [SendToEthereumKey] K = true) s s' /\
  params s' = params s /\ events s' = events s /\ burns s' = burns s.
Proof.
  apply (iterate_rel (fun s s' =>
    kv_frame (fun K => has_prefix [SendToEthereumKey] K = true) s s' /\
    params s' = params s /\ events s' = events s /\ burns s' = burns s)).
  - done.
  - intros s1 s2 s3 (Ha & Hb & Hc & Hd) (Ha' & Hb' & Hc' & Hd').
    split; [|split; [|split]; congruence].
    intros K HK. rewrite Ha', Ha; done.
  - intros a [k v] r' sa sb _ Hcb. unfold decodeSendToEthereum in Hcb.
    simpl in Hcb. destruct v as [| | t | | |]; try done.
    apply selectTransfer_Some in Hcb as [_ ->]. split; [|done].
    intros K HK. simpl. apply lookup_delete_ne. intros <-.
    by rewrite poolKey_prefix in HK.
Qed.

(** [BuildBatchTx], step by step. *)
Lemma BuildBatchTx_inv (contract : bytes) (maxElements : Z) (s : State)
    (r : option BatchTx) (s' : State) :
  BuildBatchTx env contract maxElements s = Some (r, s') ->
  (r = None /\ s' = s) \/
  (maxElements <> 0 /\
   exists selected s1 n timeout,
     iterate (ReverseIterator (SendToEthereumKey :: contract) (kv s))
             (decodeSendToEthereum (selectTransfer maxElements)) [] s
       = Some (selected, s1) /\
     selected <> [] /\
     lastOutgoingBatchNonce env s1 = Some n /\
     let s2 := with_kv (insert [LastOutgoingBatchNonceKey]
                          (VBytes (Uint64ToBigEndian (uint64 (n + 1))))) s1 in
     getTimeoutHeight env s2 = Some timeout /\
     let b := newBatch env contract (uint64 (n + 1)) timeout selected in
     r = Some b /\
     s' = with_event (EventOutgoingBatch (getBridgeContractAddress s2)
                        (int64 (getBridgeChainID s2)) (BatchNonce b))
            (with_kv (insert (MakeOutgoingTxKey (GetStoreIndex (OtxBatch b)))
                             (VOutgoingTx (OtxBatch b))) s2)).
Proof.
  unfold BuildBatchTx. intros H.
  destruct (maxElements =? 0) eqn:E0.
  { apply ret_Some in H as [-> ->]. by left. }
  apply Z.eqb_neq in E0.
  apply bind_Some in H as (lastBatch & s0 & Hlast & H).
  pose proof (getLastOutgoingBatchByTokenType_readonly _ _ _ _ Hlast) as ->.
  apply bind_Some in H as (refuse & s0 & Hfees & H).
  assert (s0 = s) as ->.
  { destruct lastBatch as [lb|].
    - apply bind_Some in Hfees as (fees & s1 & Hf & Hret).
      apply ret_Some in Hret as [_ ->].
      by apply getBatchFeesByTokenType_readonly in Hf.
    - by apply ret_Some in Hfees as [_ ->]. }
  destruct refuse.
  { apply ret_Some in H as [-> ->]. by left. }
  apply bind_Some in H as (selected & s1 & Hsel & H).
  unfold iterateUnbatchedSendToEthereumsByContract in Hsel.
  apply bind_Some in Hsel as (sx & sy & Hg & Hsel).
  apply get_state_Some in Hg as [-> ->].
  change (iterate (ReverseIterator (SendToEthereumKey :: contract) (kv s))
            (decodeSendToEthereum (selectTransfer maxElements)) [] s
          = Some (selected, s1)) in Hsel.
  destruct (bool_decide (length selected = 0%nat)) eqn:Elen.
  { apply bool_decide_eq_true in Elen. apply ret_Some in H as [-> ->].
    left. split; [done|]. destruct selected; [|done].
    by apply selection_grows in Hsel as [_ ->]. }
  apply bool_decide_eq_false in Elen. right. split; [done|].
  apply bind_Some in H as (nonce & s2 & Hinc & H).
  unfold incrementLastOutgoingBatchNonce in Hinc.
  apply bind_Some in Hinc as (n & sx & Hn & Hinc).
  apply read_Some in Hn as [Hn ->].
  apply bind_Some in Hinc as ([] & sy & Hset & Hret).
  apply modify_Some in Hset. apply ret_Some in Hret as [-> ->]. subst sy.
  apply bind_Some in H as (timeout & sx & Ht & H).
  apply read_Some in Ht as [Ht ->].
  apply bind_Some in H as ([] & s3 & Hset & H).
  apply modify_Some in Hset.
  apply bind_Some in H as (sx & sy & Hg & H).
  apply get_state_Some in Hg as [-> ->].
  apply bind_Some in H as ([] & s4 & Hev & Hret).
  apply modify_Some in Hev. apply ret_Some in Hret as [-> ->].
  exists selected, s1, n, timeout.
  split; [done|]. split; [by destruct selected|]. split; [done|].
  split; [done|]. split; [done|]. subst. done.
Qed.

(** A call that builds nothing changes nothing. *)
Lemma BuildBatchTx_none_unchanged (contract : bytes) (maxElements : Z)
    (s s' : State) :
  BuildBatchTx env contract maxElements s = Some (None, s') -> s' = s.
Proof.
  intros H. apply BuildBatchTx_inv in H as [[_ ->]|(_ & H)]; [done|].
  destruct H as (selected & s1 & n & timeout & _ & _ & _ & _ & Hr & _).
  discriminate Hr.
Qed.

End BuildSteps.

(** ** Batch nonces *)

Lemma be_value_nonneg (bz : bytes) : 0 <= be_value bz.
Proof.
  induction bz as [|b bz IH] using rev_ind; [done|].
  rewrite be_value_app. pose proof (Z_of_byte_range b). lia.
Qed.

Lemma uint64_uint64 (z : Z) : uint64 (uint64 z) = uint64 z.
Proof. unfold uint64. apply Z.mod_mod. lia. Qed.

Lemma ascending_weaken (lo lo' : Z) (l : list BatchTx) :
  lo' <= lo -> ascending lo l -> ascending lo' l.
Proof. destruct l; simpl; [done|]. intros ? [? ?]. split; [lia|done]. Qed.

Lemma ascending_above (lo : Z) (l : list BatchTx) (b : BatchTx) :
  ascending lo l -> b ∈ l -> lo < BatchNonce b.
Proof.
  revert lo. induction l as [|a l IH]; intros lo Hasc Hin.
  - by apply elem_of_nil in Hin.
  - destruct Hasc as [Hlo Hasc]. apply elem_of_cons in Hin as [->|Hin]; [done|].
    specialize (IH _ Hasc Hin). lia.
Qed.

Lemma ascending_increase (lo : Z) (l : list BatchTx) :
  ascending lo l -> nonces_increase l.
Proof.
  revert lo. induction l as [|a l IH]; intros lo Hasc i j bi bj Hij Hi Hj.
  - done.
  - destruct Hasc as [Hlo Hasc]. destruct j as [|j]; [lia|].
    simpl in Hj. destruct i as [|i].
    + injection Hi as ->. eapply ascending_above; [done|].
      by eapply list_elem_of_lookup_2.
    + simpl in Hi. eapply (IH _ Hasc i j); [lia|done..].
Qed.

Section Nonces.
Context `{TC : TypesConsts} (env : Env).
Hypothesis Hd : consts_distinct.

Lemma lastOutgoingBatchNonce_nonneg (s : State) (n : Z) :
  lastOutgoingBatchNonce env s = Some n -> 0 <= n.
Proof.
  unfold lastOutgoingBatchNonce. destruct (storeGet env s _) as [bz|].
  - unfold readUint64, BigEndianUint64. destruct (decide _); [|done].
    intros [= <-]. apply be_value_nonneg.
  - intros [= <-]. done.
Qed.

Lemma counter_kept (s s' : State) :
  kv s' !! [LastOutgoingBatchNonceKey] = kv s !! [LastOutgoingBatchNonceKey] ->
  lastOutgoingBatchNonce env s' = lastOutgoingBatchNonce env s.
Proof. unfold lastOutgoingBatchNonce, storeGet. by intros ->. Qed.

Lemma counter_not_pool : has_prefix [SendToEthereumKey] [LastOutgoingBatchNonceKey] = false.
Proof. apply has_prefix_cons_ne. prefix_ne Hd. Qed.

Lemma counter_not_outgoing : has_prefix [OutgoingTxKey] [LastOutgoingBatchNonceKey] = false.
Proof. apply has_prefix_cons_ne. prefix_ne Hd. Qed.

Lemma CancelBatchTx_counter (b : BatchTx) (s : State) (u : unit) (s' : State) :
  CancelBatchTx b s = Some (u, s') ->
  kv s' !! [LastOutgoingBatchNonceKey] = kv s !! [LastOutgoingBatchNonceKey].
Proof.
  intros H. destruct (CancelBatchTx_spec b s) as (s1 & Hc & Hkv & _).
  rewrite Hc in H. injection H as _ <-. rewrite Hkv.
  rewrite lookup_delete_ne.
  - apply lookup_reinsert_other. intros [t [Heq _]]%list_elem_of_fmap.
    pose proof (poolKey_prefix t) as Hp. rewrite <- Heq in Hp.
    by rewrite counter_not_pool in Hp.
  - unfold MakeOutgoingTxKey. intros Heq.
    pose proof counter_not_outgoing as Hp. rewrite <- Heq in Hp.
    simpl in Hp. by rewrite decide_True in Hp.
Qed.

Lemma batchTxExecuted_counter (contract : bytes) (nonce : Z) (s : State)
    (r : option Error) (s' : State) :
  batchTxExecuted env contract nonce s = Some (r, s') ->
  kv s' !! [LastOutgoingBatchNonceKey] = kv s !! [LastOutgoingBatchNonceKey].
Proof.
  unfold batchTxExecuted. intros H.
  apply bind_Some in H as (found & s0 & Hget & H).
  apply read_Some in Hget as [_ ->].
  destruct found as [otx|]; [|by apply ret_Some in H as [_ ->]].
  apply bind_Some in H as ([] & s1 & Hloop & H).
  assert (Hk1 : kv s1 !! [LastOutgoingBatchNonceKey]
                = kv s !! [LastOutgoingBatchNonceKey]).
  { unfold IterateOutgoingTxsByType in Hloop.
    apply bind_Some in Hloop as (sx & sy & Hg & Hloop).
    apply get_state_Some in Hg as [-> ->].
    revert Hloop.
    apply (iterate_rel (fun s s' =>
      kv s' !! [LastOutgoingBatchNonceKey] = kv s !! [LastOutgoingBatchNonceKey]));
      [done|congruence|].
    intros [] [k v] r' sa sb _ Hcb. unfold decodeOutgoing in Hcb. simpl in Hcb.
    destruct v as [| otx' | | | |]; try done. unfold cancelEarlier in Hcb.
    destruct (asBatchTx otx') as [btx|]; [|done].
    destruct (asBatchTx otx) as [b|]; [|done].
    apply bind_Some in Hcb as ([] & sc & Hc & Hret).
    apply ret_Some in Hret as [_ ->].
    destruct (_ && _).
    - by apply CancelBatchTx_counter in Hc.
    - by apply ret_Some in Hc as [_ ->]. }
  rewrite <- Hk1.
  assert (Hdel : forall idx, delete (MakeOutgoingTxKey idx) (kv s1)
                   !! [LastOutgoingBatchNonceKey]
                 = kv s1 !! [LastOutgoingBatchNonceKey]).
  { intros idx. apply lookup_delete_ne. unfold MakeOutgoingTxKey. intros Heq.
    pose proof counter_not_outgoing as Hp. rewrite <- Heq in Hp.
    simpl in Hp. by rewrite decide_True in Hp. }
  destruct (asBatchTx otx) as [b|]; [|done].
  destruct (ERC20ToDenomLookup env (TokenContract b)) as [[] denom]; simpl in H.
  - apply bind_Some in H as ([] & s2 & Hdl & Hret).
    apply modify_Some in Hdl. apply ret_Some in Hret as [_ ->]. subst s2.
    apply Hdel.
  - destruct (totalToBurn _ _ _); [|by apply ret_Some in H as [_ ->]].
    apply bind_Some in H as (err & s2 & Hburn & H).
    unfold BurnCoins in Hburn.
    apply bind_Some in Hburn as (sx & sy & Hg & Hburn).
    apply get_state_Some in Hg as [-> ->].
    apply bind_Some in Hburn as ([] & sz & Hm & Hret).
    apply modify_Some in Hm. apply ret_Some in Hret as [_ ->]. subst sz.
    destruct err.
    + by apply ret_Some in H as [_ ->].
    + apply bind_Some in H as ([] & s3 & Hdl & Hret).
      apply modify_Some in Hdl. apply ret_Some in Hret as [_ ->]. subst s3.
      apply (Hdel _).
Qed.

Lemma CreateSignerSetTx_counter (s : State) (r : SignerSetTx) (s' : State) :
  CreateSignerSetTx env s = Some (r, s') ->
  kv s' !! [LastOutgoingBatchNonceKey] = kv s !! [LastOutgoingBatchNonceKey].
Proof.
  unfold CreateSignerSetTx. intros H.
  apply bind_Some in H as (nonce & s1 & Hinc & H).
  unfold incrementLatestSignerSetTxNonce in Hinc.
  apply bind_Some in Hinc as (cur & sx & Hr & Hinc).
  apply read_Some in Hr as [_ ->].
  apply bind_Some in Hinc as ([] & sy & Hset & Hret).
  apply modify_Some in Hset. apply ret_Some in Hret as [_ ->]. subst sy.
  apply bind_Some in H as (signers & sx & Hr & H).
  apply read_Some in Hr as [_ ->].
  apply bind_Some in H as (sx & sy & Hg & H).
  apply get_state_Some in Hg as [-> ->].
  apply bind_Some in H as ([] & s2 & Hev & H).
  apply modify_Some in Hev. subst s2.
  apply bind_Some in H as ([] & s3 & Hset & Hret).
  apply modify_Some in Hset. apply ret_Some in Hret as [_ ->]. subst s3.
  simpl. rewrite lookup_insert_ne.
  - apply lookup_insert_ne. intros [= Heq]. revert Heq. 
    assert (LatestSignerSetTxNonceKey <> LastOutgoingBatchNonceKey) by prefix_ne Hd.
    done.
  - unfold MakeOutgoingTxKey. simpl. discriminate.
Qed.

(** The counter is persisted and incremented in the state update that
    stores the batch. *)
Lemma BuildBatchTx_created (contract : bytes) (maxElements : Z) (s : State)
    (b : BatchTx) (s' : State) :
  BuildBatchTx env contract maxElements s = Some (Some b, s') ->
  exists n,
    lastOutgoingBatchNonce env s = Some n /\
    BatchNonce b = uint64 (n + 1) /\
    lastOutgoingBatchNonce env s' = Some (BatchNonce b) /\
    stored_batch s' b.
Proof.
  intros H. apply BuildBatchTx_inv in H as [[Hr _]|(_ & H)]; [done|].
  destruct H as (selected & s1 & n & timeout & Hsel & _ & Hn & _ & Hr & ->).
  injection Hr as ->. exists n.
  apply selection_frame in Hsel as [Hfr _].
  split; [|split; [done|split]].
  - rewrite <- Hn. symmetry. apply counter_kept. apply Hfr.
    rewrite counter_not_pool. done.
  - unfold lastOutgoingBatchNonce, storeGet. simpl.
    rewrite lookup_insert_ne.
    + rewrite lookup_insert_eq. simpl. unfold readUint64.
      rewrite BigEndianUint64_Uint64ToBigEndian. by rewrite uint64_uint64.
    + unfold MakeOutgoingTxKey. simpl. discriminate.
  - unfold stored_batch. simpl. apply lookup_insert_eq.
Qed.

(** What one call other than a migration does to the counter. *)
Lemma call_counter (c : Call) (s : State) (r : option BatchTx) (s' : State)
    (n : Z) :
  is_migration c = false ->
  call env c s = Some (r, s') ->
  lastOutgoingBatchNonce env s = Some n ->
  n + 1 < 2 ^ 64 ->
  (r = None /\ lastOutgoingBatchNonce env s' = Some n) \/
  (exists b, r = Some b /\ BatchNonce b = n + 1 /\
             lastOutgoingBatchNonce env s' = Some (n + 1)).
Proof.
  intros Hm Hcall Hn Hfit.
  pose proof (lastOutgoingBatchNonce_nonneg _ _ Hn) as Hpos.
  destruct c as [t|contract maxElements|contract nonce|b|idx sig val| |]; try done;
    simpl in Hcall.
  - apply bind_Some in Hcall as ([] & s1 & Hset & Hret).
    apply modify_Some in Hset. apply ret_Some in Hret as [-> ->]. subst s1.
    left. split; [done|]. rewrite <- Hn. apply counter_kept. simpl.
    apply lookup_insert_ne. intros Heq.
    pose proof (poolKey_prefix t) as Hp. unfold poolKey in Hp.
    rewrite Heq in Hp. by rewrite counter_not_pool in Hp.
  - destruct r as [b|].
    + apply BuildBatchTx_created in Hcall as (n' & Hn' & Hb & Hs' & _).
      rewrite Hn in Hn'. injection Hn' as <-.
      rewrite uint64_small in Hb by lia.
      right. exists b. split; [done|]. split; [done|]. by rewrite Hs', Hb.
    + apply BuildBatchTx_none_unchanged in Hcall as ->. by left.
  - apply bind_Some in Hcall as (err & s1 & Hex & Hret).
    apply ret_Some in Hret as [-> ->]. left. split; [done|].
    rewrite <- Hn. apply counter_kept. by eapply batchTxExecuted_counter.
  - apply bind_Some in Hcall as ([] & s1 & Hc & Hret).
    apply ret_Some in Hret as [-> ->]. left. split; [done|].
    rewrite <- Hn. apply counter_kept. by eapply CancelBatchTx_counter.
  - apply bind_Some in Hcall as (key & s1 & Hset & Hret).
    apply ret_Some in Hret as [-> ->]. left. split; [done|].
    unfold SetEthereumSignature in Hset.
    apply bind_Some in Hset as ([] & s2 & Hset & Hret).
    apply modify_Some in Hset. apply ret_Some in Hret as [_ ->]. subst s2.
    rewrite <- Hn. apply counter_kept. simpl. apply lookup_insert_ne.
    unfold MakeEthereumSignatureKey. intros [= Heq _].
    assert (EthereumSignatureKey <> LastOutgoingBatchNonceKey) by prefix_ne Hd.
    done.
  - apply bind_Some in Hcall as (sstx & s1 & Hc & Hret).
    apply ret_Some in Hret as [-> ->]. left. split; [done|].
    rewrite <- Hn. apply counter_kept. by eapply CreateSignerSetTx_counter.
Qed.

Lemma run_ascending (calls : list Call) (s : State) (n : Z)
    (created : list BatchTx) (s' : State) :
  forallb (fun c => negb (is_migration c)) calls = true ->
  lastOutgoingBatchNonce env s = Some n ->
  n + Z.of_nat (length calls) < 2 ^ 64 ->
  run env calls s = Some (created, s') ->
  ascending n created.
Proof.
  revert s n created. induction calls as [|c calls IH];
    intros s n created Hm Hn Hfit Hrun.
  - apply ret_Some in Hrun as [-> _]. done.
  - cbn [run] in Hrun. apply bind_Some in Hrun as (r & s1 & Hcall & Hrun).
    apply bind_Some in Hrun as (rest & s2 & Hrest & Hret).
    apply ret_Some in Hret as [-> ->].
    cbn [forallb] in Hm. apply andb_true_iff in Hm as [Hc Hm].
    apply negb_true_iff in Hc. cbn [length] in Hfit.
    destruct (call_counter c s r s1 n Hc Hcall Hn ltac:(lia))
      as [[-> Hn1]|(b & -> & Hb & Hn1)].
    + eapply IH; [done|done| |done]. lia.
    + simpl. split; [lia|]. rewrite Hb. eapply IH; [done|done| |done]. lia.
Qed.

(** C5 (as amended).  Over any sequence of keeper calls that contains no
    migration and cannot exhaust the 64-bit counter, the batches that
    [BuildBatchTx] creates have strictly increasing nonces in call order,
    all above the counter's starting value; and every creation stores the
    batch and the incremented counter in the same state update, the new
    nonce being the old counter plus one. *)
Theorem batch_nonces_increase (calls : list Call) (s : State) (n : Z)
    (created : list BatchTx) (s' : State) :
  forallb (fun c => negb (is_migration c)) calls = true ->
  lastOutgoingBatchNonce env s = Some n ->
  n + Z.of_nat (length calls) < 2 ^ 64 ->
  run env calls s = Some (created, s') ->
  nonces_increase created /\
  (forall b, b ∈ created -> n < BatchNonce b) /\
  (forall contract maxElements s0 b s0',
     BuildBatchTx env contract maxElements s0 = Some (Some b, s0') ->
     exists n0,
       lastOutgoingBatchNonce env s0 = Some n0 /\
       BatchNonce b = uint64 (n0 + 1) /\
       lastOutgoingBatchNonce env s0' = Some (BatchNonce b) /\
       stored_batch s0' b).
Proof.
  intros Hm Hn Hfit Hrun.
  pose proof (run_ascending _ _ _ _ _ Hm Hn Hfit Hrun) as Hasc.
  split; [by eapply ascending_increase|].
  split; [intros b; by apply ascending_above|].
  intros contract maxElements s0 b s0'. apply BuildBatchTx_created.
Qed.

End Nonces.

Lemma batch_nonces_increase_witness :
  exists created s',
    run (TC := exampleConsts) sharesEnv steadyCalls emptyState
      = Some (created, s') /\
    BatchNonce <$> created = [1; 2] /\
    nonces_increase created.
Proof.
  destruct (result_by_evaluation
              (run (TC := exampleConsts) sharesEnv steadyCalls emptyState))
    as (created & s' & Hrun); [vm_compute; reflexivity|].
  exists created, s'. split; [exact Hrun|]. split.
  - assert (E : (fun r : list BatchTx * State => BatchNonce <$> r.1)
                  <$> run (TC := exampleConsts) sharesEnv steadyCalls emptyState
                = Some [1; 2]) by (vm_compute; reflexivity).
    rewrite Hrun in E. injection E as E. exact E.
  - apply (batch_nonces_increase (TC := exampleConsts) sharesEnv
             exampleConsts_distinct steadyCalls emptyState 0 created s');
      [reflexivity|reflexivity|vm_compute; reflexivity|exact Hrun].
Defined.

(** C5, as stated, fails across a migration: the migration sets the
    counter back to zero, and the batch built after it carries nonce 1
    like the batch built before it. *)
Lemma nonce_reused_after_migration :
  ~ nonces_never_reused (TC := exampleConsts) sharesEnv migratingCalls emptyState.
Proof.
  unfold nonces_never_reused. intros H.
  destruct (result_by_evaluation
              (run (TC := exampleConsts) sharesEnv migratingCalls emptyState))
    as (created & s' & Hrun); [vm_compute; reflexivity|].
  specialize (H created s' Hrun).
  assert (E : (fun r : list BatchTx * State => BatchNonce <$> r.1)
                <$> run (TC := exampleConsts) sharesEnv migratingCalls emptyState
              = Some [1; 1]) by (vm_compute; reflexivity).
  rewrite Hrun in E. injection E as E.
  destruct created as [|b0 [|b1 created]]; try discriminate E.
  injection E as E0 E1 _.
  specialize (H 0%nat 1%nat b0 b1 ltac:(lia) eq_refl eq_refl). lia.
Qed.

(** ** Refusing and building batches *)

Section BuildResults.
Context `{TC : TypesConsts} (env : Env).
Hypothesis Hd : consts_distinct.

Lemma pickLast_loop (token : bytes) (l : list (bytes * Val))
    (acc : option BatchTx * Z) (s : State) :
  all_batches l ->
  iterate l
    (decodeOutgoing
       (fun (acc : option BatchTx * Z) (_ : bytes) otx =>
          match otx with
          | OtxBatch btx =>
              if bool_decide (TokenContract btx = token)
                 && (acc.2 <? BatchNonce btx)
              then ret ((Some btx, BatchNonce btx), false)
              else ret (acc, false)
          | _ => panic
          end))
    acc s
  = Some (fold_left (pickLast token) l acc, s).
Proof.
  revert acc. induction l as [|e l IH]; intros acc Hall; [done|].
  assert (exists b, e.2 = VOutgoingTx (OtxBatch b)) as [b Hb] by (apply Hall; left).
  cbn [iterate fold_left]. unfold bind, decodeOutgoing at 1. rewrite Hb.
  unfold pickLast at 2. rewrite Hb.
  destruct (_ && _); unfold ret at 1; simpl;
    apply IH; intros e' He'; apply Hall; by right.
Qed.

Lemma pickLast_fold (token : bytes) (l : list (bytes * Val))
    (acc : option BatchTx * Z) :
  let r := fold_left (pickLast token) l acc in
  acc.2 <= r.2 /\
  (forall k b, (k, VOutgoingTx (OtxBatch b)) ∈ l -> TokenContract b = token ->
               BatchNonce b <= r.2) /\
  (r = acc \/
   exists k b, (k, VOutgoingTx (OtxBatch b)) ∈ l /\ TokenContract b = token /\
               r = (Some b, BatchNonce b)).
Proof.
  revert acc. induction l as [|[k v] l IH]; intros acc; simpl.
  - split; [lia|]. split; [|by left]. intros k b Hin. by apply elem_of_nil in Hin.
  - destruct (IH (pickLast token acc (k, v))) as (Hle & Hmax & Hres). clear IH.
    set (r := fold_left (pickLast token) l (pickLast token acc (k, v))) in *.
    assert (Hstep : acc.2 <= (pickLast token acc (k, v)).2 /\
      (forall b, v = VOutgoingTx (OtxBatch b) -> TokenContract b = token ->
                 BatchNonce b <= (pickLast token acc (k, v)).2) /\
      (pickLast token acc (k, v) = acc \/
       exists b, v = VOutgoingTx (OtxBatch b) /\ TokenContract b = token /\
                 pickLast token acc (k, v) = (Some b, BatchNonce b))).
    { unfold pickLast. simpl. destruct v as [|[| b |]| | | |];
        try (split; [lia|split; [done|by left]]).
      destruct (bool_decide (TokenContract b = token)) eqn:Et; simpl.
      - apply bool_decide_eq_true in Et.
        destruct (acc.2 <? BatchNonce b) eqn:En.
        + apply Z.ltb_lt in En. simpl. split; [lia|]. split.
          * intros b' [= <-] _. lia.
          * right. by exists b.
        + apply Z.ltb_ge in En. split; [lia|]. split; [|by left].
          intros b' [= <-] _. lia.
      - apply bool_decide_eq_false in Et. split; [lia|]. split; [|by left].
        intros b' [= <-] Ht. done. }
    destruct Hstep as (Hle0 & Hmax0 & Hres0).
    split; [lia|]. split.
    + intros k' b [Heq|Hin]%elem_of_cons Ht.
      * injection Heq as -> <-. specialize (Hmax0 b eq_refl Ht). lia.
      * by eapply Hmax.
    + destruct Hres as [Hr|(k' & b & Hin & Ht & Hr)].
      * rewrite Hr. destruct Hres0 as [->|(b & -> & Ht & ->)]; [by left|].
        right. exists k, b. split; [left|done].
      * right. exists k', b. split; [by right|done].
Qed.

Lemma wf_all_batches (s : State) :
  wf_outgoing s ->
  all_batches (ReverseIterator (MakeOutgoingTxKey [BatchTxPrefixByte]) (kv s)).
Proof.
  intros Hwf [k v] Hin. apply elem_of_ReverseIterator in Hin.
  destruct (wf_outgoing_batch Hd s k v Hwf Hin) as (b & -> & _). by exists b.
Qed.

Lemma getLastOutgoingBatchByTokenType_spec (token : bytes) (s : State) :
  wf_outgoing s ->
  getLastOutgoingBatchByTokenType token s
  = Some ((fold_left (pickLast token)
             (ReverseIterator (MakeOutgoingTxKey [BatchTxPrefixByte]) (kv s))
             (None, 0)).1, s).
Proof.
  intros Hwf. unfold getLastOutgoingBatchByTokenType.
  erewrite bind_run; [done|].
  unfold IterateOutgoingTxsByType. erewrite bind_run; [|reflexivity].
  by apply pickLast_loop, wf_all_batches.
Qed.

(** On a well-formed store the search finds the stored batch of the token
    with the greatest nonce, provided that nonce is positive. *)
Lemma getLastOutgoingBatchByTokenType_greatest (s : State) (lb : BatchTx) :
  wf_outgoing s -> stored_batch s lb -> 0 < BatchNonce lb ->
  (forall b, stored_batch s b -> TokenContract b = TokenContract lb ->
             BatchNonce b <= BatchNonce lb) ->
  getLastOutgoingBatchByTokenType (TokenContract lb) s = Some (Some lb, s).
Proof.
  intros Hwf Hs Hpos Hmax. rewrite getLastOutgoingBatchByTokenType_spec by done.
  do 2 f_equal.
  destruct (pickLast_fold (TokenContract lb)
              (ReverseIterator (MakeOutgoingTxKey [BatchTxPrefixByte]) (kv s))
              (None, 0)) as (_ & Hle & Hres).
  specialize (Hle _ lb (stored_batch_listed s lb Hs) eq_refl).
  destruct Hres as [Hr|(k & b & Hin & Ht & Hr)]; rewrite Hr in *; simpl in *.
  - lia.
  - f_equal. apply (listed_batch_stored Hd) in Hin; [|done].
    specialize (Hmax b Hin Ht).
    assert (Hn : BatchNonce b = BatchNonce lb) by lia.
    unfold stored_batch in Hin, Hs. simpl in Hin, Hs.
    rewrite Ht, Hn, Hs in Hin. by injection Hin as ->.
Qed.

(** C3.  On a well-formed store, when the stored batch of the contract
    with the greatest nonce has a nonce above zero and total fees at least
    the fee sum of the first [maxElements] unbatched transfers of the
    contract, taken largest fee first (of all its unbatched transfers for
    a bound at or below zero, which bounds nothing), [BuildBatchTx]
    returns no batch and leaves the state (pool, outgoing-tx store, nonce
    counter, events) as it was. *)
Theorem BuildBatchTx_refuses_unprofitable (contract : bytes) (maxElements : Z)
    (s : State) (lb : BatchTx) :
  wf_outgoing s -> wf_pool s ->
  stored_batch s lb -> TokenContract lb = contract -> 0 < BatchNonce lb ->
  (forall b, stored_batch s b -> TokenContract b = contract ->
             BatchNonce b <= BatchNonce lb) ->
  (feeSum (window maxElements (unbatchedTransfers s contract)) <= GetFees lb)%N ->
  BuildBatchTx env contract maxElements s = Some (None, s).
Proof.
  intros Hwf Hwp Hs <- Hpos Hmax Hfees. unfold BuildBatchTx.
  destruct (maxElements =? 0); [done|].
  erewrite bind_run;
    [|by apply getLastOutgoingBatchByTokenType_greatest].
  erewrite bind_run.
  2:{ erewrite bind_run; [|by apply getBatchFeesByTokenType_spec]. reflexivity. }
  apply N.leb_le in Hfees. rewrite Hfees. done.
Qed.

Lemma getTimeoutHeight_ext (s s' : State) :
  params s' = params s ->
  kv s' !! [LastEthereumBlockHeightKey] = kv s !! [LastEthereumBlockHeightKey] ->
  getTimeoutHeight env s' = getTimeoutHeight env s.
Proof.
  intros Hp Hk. unfold getTimeoutHeight, GetLastObservedEthereumBlockHeight.
  by rewrite Hp, Hk.
Qed.

Lemma pool_slot_not_counter (t : SendToEthereum) (b : byte) :
  b <> SendToEthereumKey -> [b] ∉ poolKey <$> [t].
Proof.
  intros Hne [t' [Heq _]]%list_elem_of_fmap.
  unfold poolKey, MakeSendToEthereumKey in Heq. by injection Heq.
Qed.

Lemma lookup_withdraw_other (txs : list SendToEthereum) (m : gmap bytes Val)
    (K : bytes) :
  has_prefix [SendToEthereumKey] K = false -> withdraw txs m !! K = m !! K.
Proof.
  intros HK. rewrite lookup_withdraw. rewrite decide_False; [done|].
  intros [t [-> _]]%list_elem_of_fmap. by rewrite poolKey_prefix in HK.
Qed.

(** C10.  With a negative [maxElements] on a well-formed store: the
    candidate fee sum ranges over every unbatched transfer of the
    contract, and when the pool of the contract is not empty and no stored
    batch of the contract has fees as large as that sum, [BuildBatchTx]
    puts every unbatched transfer of the contract into one batch and
    leaves the contract's pool empty.  The early return is taken for
    [maxElements = 0] only. *)
Theorem BuildBatchTx_negative_takes_all (contract : bytes) (maxElements : Z)
    (s : State) (n timeout : Z) :
  wf_outgoing s -> wf_pool s ->
  maxElements < 0 ->
  lastOutgoingBatchNonce env s = Some n ->
  getTimeoutHeight env s = Some timeout ->
  unbatchedTransfers s contract <> [] ->
  (forall b, stored_batch s b -> TokenContract b = contract ->
             (GetFees b < feeSum (unbatchedTransfers s contract))%N) ->
  getBatchFeesByTokenType contract maxElements s
    = Some (feeSum (unbatchedTransfers s contract), s) /\
  (exists b s',
     BuildBatchTx env contract maxElements s = Some (Some b, s') /\
     Transactions b = unbatchedTransfers s contract /\
     stored_batch s' b /\
     unbatchedTransfers s' contract = []) /\
  (forall s0, BuildBatchTx env contract 0 s0 = Some (None, s0)).
Proof.
  intros Hwf Hwp Hneg Hn Ht Hne Hprofit.
  assert (Hwin : window maxElements (unbatchedTransfers s contract)
                 = unbatchedTransfers s contract)
    by (apply window_negative; lia).
  assert (Hfees : getBatchFeesByTokenType contract maxElements s
                  = Some (feeSum (unbatchedTransfers s contract), s)).
  { rewrite getBatchFeesByTokenType_spec by done. by rewrite Hwin. }
  split; [done|]. split; [|done].
  set (taken := unbatchedTransfers s contract) in *.
  set (s1 := with_kv (withdraw taken) s).
  set (nonce := uint64 (n + 1)).
  set (s2 := with_kv (insert [LastOutgoingBatchNonceKey]
                        (VBytes (Uint64ToBigEndian nonce))) s1).
  set (b := newBatch env contract nonce timeout taken).
  set (s3 := with_kv (insert (MakeOutgoingTxKey (GetStoreIndex (OtxBatch b)))
                             (VOutgoingTx (OtxBatch b))) s2).
  assert (Hck : has_prefix [SendToEthereumKey] [LastOutgoingBatchNonceKey] = false).
  { apply has_prefix_cons_ne. prefix_ne Hd. }
  assert (Hhk : has_prefix [SendToEthereumKey] [LastEthereumBlockHeightKey] = false).
  { apply has_prefix_cons_ne. prefix_ne Hd. }
  assert (Hn1 : lastOutgoingBatchNonce env s1 = Some n).
  { rewrite <- Hn. apply counter_kept. simpl. by apply lookup_withdraw_other. }
  assert (Ht2 : getTimeoutHeight env s2 = Some timeout).
  { rewrite <- Ht. apply getTimeoutHeight_ext; [done|]. simpl.
    rewrite lookup_insert_ne.
    - by apply lookup_withdraw_other.
    - assert (LastOutgoingBatchNonceKey <> LastEthereumBlockHeightKey)
        by prefix_ne Hd. congruence. }
  exists b, (with_event (EventOutgoingBatch (getBridgeContractAddress s3)
                           (int64 (getBridgeChainID s3)) (BatchNonce b)) s3).
  split.
  - unfold BuildBatchTx.
    assert ((maxElements =? 0) = false) as -> by (apply Z.eqb_neq; lia).
    erewrite bind_run; [|by apply getLastOutgoingBatchByTokenType_spec].
    destruct (pickLast_fold contract
                (ReverseIterator (MakeOutgoingTxKey [BatchTxPrefixByte]) (kv s))
                (None, 0)) as (_ & _ & Hres).
    assert (Hrefuse :
      (match (fold_left (pickLast contract)
                (ReverseIterator (MakeOutgoingTxKey [BatchTxPrefixByte]) (kv s))
                (None, 0)).1 with
       | Some lb => fees <- getBatchFeesByTokenType contract maxElements ;;
                    ret (fees <=? GetFees lb)%N
       | None => ret false
       end) s = Some (false, s)).
    { destruct Hres as [Hr|(k & lb & Hin & Htok & Hr)]; rewrite Hr; simpl; [done|].
      erewrite bind_run; [|exact Hfees]. unfold ret. do 2 f_equal.
      apply N.leb_gt. apply Hprofit; [|done].
      by eapply (listed_batch_stored Hd). }
    erewrite bind_run; [|exact Hrefuse]. cbn iota.
    erewrite bind_run.
    2:{ unfold iterateUnbatchedSendToEthereumsByContract.
        erewrite bind_run; [|reflexivity].
        apply selection_loop. by apply wf_pool_all_transfers. }
    cbn [length]. replace (maxElements - Z.of_nat 0) with maxElements by lia.
    fold (unbatchedTransfers s contract). fold taken.
    rewrite Hwin. rewrite app_nil_l. fold s1.
    rewrite bool_decide_eq_false_2
      by (intros Hlen; apply Hne; by apply nil_length_inv).
    unfold incrementLastOutgoingBatchNonce.
    erewrite bind_run.
    2:{ erewrite bind_run; [|by apply read_Some]. reflexivity. }
    erewrite bind_run; [|apply read_Some; split; [exact Ht2|reflexivity]].
    reflexivity.
  - split; [done|]. split.
    + unfold stored_batch. simpl. apply lookup_insert_eq.
    + unfold unbatchedTransfers, ReverseIterator.
      assert (Hnil : Iterator (SendToEthereumKey :: contract)
                       (kv (with_event (EventOutgoingBatch (getBridgeContractAddress s3)
                              (int64 (getBridgeChainID s3)) (BatchNonce b)) s3)) = []);
        [|by rewrite Hnil].
      apply Iterator_nil_iff. intros k. simpl.
      rewrite lookup_insert_ne by (unfold MakeOutgoingTxKey; intros [= Hbad _];
        revert Hbad; assert (OutgoingTxKey <> SendToEthereumKey) by prefix_ne Hd; done).
      rewrite lookup_insert_ne by (intros [= Hbad _];
        revert Hbad; assert (LastOutgoingBatchNonceKey <> SendToEthereumKey) by prefix_ne Hd; done).
      rewrite lookup_withdraw.
      destruct (decide _) as [|Hnin]; [done|].
      destruct (kv s !! (SendToEthereumKey :: contract ++ k)) as [v|] eqn:Hl; [|done].
      exfalso. apply Hnin.
      destruct (wf_pool_lookup s (contract ++ k) v Hwp Hl) as (t & -> & Hk).
      apply list_elem_of_fmap. exists t. split; [done|].
      by eapply pooled_unbatched.
Qed.

End BuildResults.

Lemma stored_batch_value `{TC : TypesConsts} (s : State) (b : BatchTx) :
  stored_batch s b ->
  VOutgoingTx (OtxBatch b) ∈ (Iterator [OutgoingTxKey] (kv s)).*2.
Proof.
  intros Hs. apply list_elem_of_fmap.
  exists (GetStoreIndex (OtxBatch b), VOutgoingTx (OtxBatch b)).
  split; [done|]. by apply (elem_of_Iterator [OutgoingTxKey]).
Qed.

(** S2: with batch 1 (fees 5) pending and one transfer of fee 1 left, a
    second build is refused and nothing changes. *)
Lemma BuildBatchTx_refuses_unprofitable_witness :
  (feeSum (window 2 (unbatchedTransfers (TC := exampleConsts) batchedState tokenC))
     <= GetFees firstBatch)%N /\
  BuildBatchTx (TC := exampleConsts) sharesEnv tokenC 2 batchedState
    = Some (None, batchedState).
Proof.
  assert (Hfees :
    (feeSum (window 2 (unbatchedTransfers (TC := exampleConsts) batchedState tokenC))
       <= GetFees firstBatch)%N).
  { vm_compute. discriminate. }
  split; [exact Hfees|].
  apply (BuildBatchTx_refuses_unprofitable (TC := exampleConsts) sharesEnv
           exampleConsts_distinct tokenC 2 batchedState firstBatch).
  - vm_compute. reflexivity.
  - vm_compute. reflexivity.
  - vm_compute. reflexivity.
  - reflexivity.
  - vm_compute. reflexivity.
  - intros b Hb _. apply stored_batch_value in Hb. vm_compute in Hb.
    apply list_elem_of_In in Hb. destruct Hb as [Hb|[]].
    injection Hb as <-. vm_compute. discriminate.
  - exact Hfees.
Defined.

(** The two stores on which the refusal is put to the test are well
    formed. *)
Lemma refusal_states_wf :
  wf_outgoing (TC := exampleConsts) richPoolState /\
  wf_pool (TC := exampleConsts) richPoolState /\
  wf_outgoing (TC := exampleConsts) zeroNonceState /\
  wf_pool (TC := exampleConsts) zeroNonceState.
Proof. repeat split; vm_compute; reflexivity. Qed.

(** C3, as stated, fails in two ways, both on well-formed stores.  With
    batch 1 (fees 5) pending and the transfers 7 (fee 9) and 2 (fee 1) in
    the pool, the first -1 unbatched transfers are none and their fee sum
    0 is within the batch's 5; but for a bound below zero the code sums
    the fees of the whole pool, 10, and builds batch 2 from both
    transfers.  And when the stored batch with the greatest nonce has the
    nonce 0 (fees 3), [getLastOutgoingBatchByTokenType], which starts its
    search at nonce 0 with a strict comparison, finds no batch: with
    transfer 2 (fee 1) in the pool, batch 1 is built from it. *)
Lemma unprofitable_build_goes_ahead :
  (~ refuses_unprofitable_as_stated (TC := exampleConsts) sharesEnv tokenC (-1)
       richPoolState) /\
  (fun r : option BatchTx * State =>
     (fun b => (BatchNonce b, Id <$> Transactions b)) <$> r.1)
    <$> BuildBatchTx (TC := exampleConsts) sharesEnv tokenC (-1) richPoolState
  = Some (Some (2, [7; 2])) /\
  (~ refuses_unprofitable_as_stated (TC := exampleConsts) sharesEnv tokenC 1
       zeroNonceState) /\
  (fun r : option BatchTx * State =>
     (fun b => (BatchNonce b, Id <$> Transactions b)) <$> r.1)
    <$> BuildBatchTx (TC := exampleConsts) sharesEnv tokenC 1 zeroNonceState
  = Some (Some (1, [2])).
Proof.
  assert (Hbuilt1 :
    (fun r : option BatchTx * State =>
       (fun b => (BatchNonce b, Id <$> Transactions b)) <$> r.1)
      <$> BuildBatchTx (TC := exampleConsts) sharesEnv tokenC (-1) richPoolState
    = Some (Some (2, [7; 2]))) by (vm_compute; reflexivity).
  assert (Hbuilt2 :
    (fun r : option BatchTx * State =>
       (fun b => (BatchNonce b, Id <$> Transactions b)) <$> r.1)
      <$> BuildBatchTx (TC := exampleConsts) sharesEnv tokenC 1 zeroNonceState
    = Some (Some (1, [2]))) by (vm_compute; reflexivity).
  split; [|split; [exact Hbuilt1|split; [|exact Hbuilt2]]].
  - intros H. rewrite (H firstBatch) in Hbuilt1; [discriminate Hbuilt1|..].
    + vm_compute. reflexivity.
    + reflexivity.
    + intros b Hb _. apply stored_batch_value in Hb. vm_compute in Hb.
      apply list_elem_of_In in Hb. destruct Hb as [Hb|[]].
      injection Hb as <-. vm_compute. discriminate.
    + vm_compute. discriminate.
  - intros H. rewrite (H zeroNonceBatch) in Hbuilt2; [discriminate Hbuilt2|..].
    + vm_compute. reflexivity.
    + reflexivity.
    + intros b Hb _. apply stored_batch_value in Hb. vm_compute in Hb.
      apply list_elem_of_In in Hb. destruct Hb as [Hb|[]].
      injection Hb as <-. vm_compute. discriminate.
    + vm_compute. discriminate.
Qed.

(** A bound of -1 on S1's pool: all three transfers go into one batch. *)
Lemma BuildBatchTx_negative_takes_all_witness :
  exists b s',
    BuildBatchTx (TC := exampleConsts) sharesEnv tokenC (-1) pooledState
      = Some (Some b, s') /\
    Transactions b = [transfer 1 10 3; transfer 3 10 2; transfer 2 10 1] /\
    unbatchedTransfers (TC := exampleConsts) s' tokenC = [].
Proof.
  destruct (BuildBatchTx_negative_takes_all (TC := exampleConsts) sharesEnv
              exampleConsts_distinct tokenC (-1) pooledState 0 0)
    as (_ & (b & s' & Hrun & Htxs & _ & Hempty) & _).
  - vm_compute. reflexivity.
  - vm_compute. reflexivity.
  - lia.
  - vm_compute. reflexivity.
  - vm_compute. reflexivity.
  - vm_compute. discriminate.
  - intros b Hb _. apply stored_batch_value in Hb. vm_compute in Hb.
    by apply elem_of_nil in Hb.
  - exists b, s'. split; [exact Hrun|]. split; [|exact Hempty].
    rewrite Htxs. vm_compute. reflexivity.
Defined.

(** ** The migration returns *)

Lemma for_each_returns {X} (l : list X) (body : X -> M unit) :
  (forall x s, x ∈ l -> is_Some (body x s)) ->
  forall s, is_Some (for_each l body s).
Proof.
  induction l as [|x l IH]; intros Hbody s; [by eexists|].
  cbn [for_each]. unfold bind.
  destruct (Hbody x s) as [[[] s1] ->]; [left|].
  apply IH. intros; apply Hbody. by right.
Qed.

Section MigrationReturns.
Context `{TC : TypesConsts} (env : Env).
Hypothesis Hd : consts_distinct.

Lemma sweepOutgoing_returns (l : list (bytes * Val)) (s : State) :
  forallb decodable_outgoing l = true ->
  is_Some (for_each l sweepOutgoing s).
Proof.
  rewrite forallb_forall. intros Hall. apply for_each_returns.
  intros [k v] sx Hin. apply list_elem_of_In, Hall in Hin.
  unfold decodable_outgoing in Hin. simpl in Hin.
  destruct v as [| otx | | | |]; try done.
  unfold sweepOutgoing, bind. simpl. rewrite DeleteEthereumSignatures_spec.
  by eexists.
Qed.

Lemma resetVoters_returns (k : bytes) (r : EthereumEventVoteRecord) (s : State) :
  forallb (fun vote => bool_decide (is_Some (ValAddressFromBech32 env vote)))
          (Votes r) = true ->
  is_Some (resetVoters env k r s).
Proof.
  rewrite forallb_forall. intros Hall. unfold resetVoters, bind.
  destruct (for_each_returns (Votes r)
              (fun vote => match ValAddressFromBech32 env vote with
                           | Some val => setLastEventNonceByValidator val 0
                           | None => panic
                           end)) with (s := s) as [[[] s1] ->]; [|by eexists].
  intros vote sx Hin. apply list_elem_of_In, Hall in Hin.
  apply bool_decide_eq_true in Hin as [val ->]. by eexists.
Qed.

(** The migration returns on every store it can decode. *)
Lemma MigrateGravityContract_returns (newBridgeAddress : string) (H : Z)
    (s : State) :
  migratable env s ->
  exists s', MigrateGravityContract env newBridgeAddress H s = Some (tt, s').
Proof.
  intros [Hout Hvotes]. unfold MigrateGravityContract.
  erewrite bind_run; [|reflexivity].
  destruct (sweepOutgoing_returns (ReverseIterator [OutgoingTxKey] (kv s)) s)
    as [[[] sa] Hloop].
  { unfold ReverseIterator. rewrite forallb_forall in Hout |- *.
    intros e He. apply Hout. apply list_elem_of_In.
    apply list_elem_of_In in He. rewrite elem_of_reverse in He. exact He. }
  erewrite bind_run; [|exact Hloop].
  erewrite bind_run; [|reflexivity].
  erewrite bind_run; [|reflexivity].
  set (sc := with_kv (insert [LastObservedEventNonceKey]
                        (VBytes (Uint64ToBigEndian 0)))
               (with_kv (insert [LatestSignerSetTxNonceKey]
                           (VBytes (Uint64ToBigEndian 0))) sa)).
  assert (Hsame : forall k,
    kv sc !! (EthereumEventVoteRecordKey :: k)
    = kv s !! (EthereumEventVoteRecordKey :: k)).
  { intros k. unfold sc. simpl.
    assert (LastObservedEventNonceKey <> EthereumEventVoteRecordKey) by prefix_ne Hd.
    assert (LatestSignerSetTxNonceKey <> EthereumEventVoteRecordKey) by prefix_ne Hd.
    assert (OutgoingTxKey <> EthereumEventVoteRecordKey) by prefix_ne Hd.
    assert (EthereumSignatureKey <> EthereumEventVoteRecordKey) by prefix_ne Hd.
    rewrite !lookup_insert_ne by congruence.
    apply sweepOutgoing_loop in Hloop as (_ & _ & _ & Hkeep).
    apply Hkeep. intros k' v' _. split; [congruence|].
    intros otx _. by apply has_prefix_cons_ne. }
  assert (Hit : is_Some (iterateEthereumEventVoteRecords (resetVoters env) sc)).
  { unfold iterateEthereumEventVoteRecords. erewrite bind_run; [|reflexivity].
    apply iterate_returns. intros [k v] [] sx Hin.
    apply (elem_of_Iterator [EthereumEventVoteRecordKey]) in Hin.
    change ([EthereumEventVoteRecordKey] ++ k)
      with (EthereumEventVoteRecordKey :: k) in Hin.
    rewrite Hsame in Hin.
    apply (elem_of_Iterator [EthereumEventVoteRecordKey]) in Hin.
    rewrite forallb_forall in Hvotes.
    apply list_elem_of_In, Hvotes in Hin. unfold decodable_vote in Hin.
    simpl in Hin. destruct v as [| | | | | r]; try done. simpl. unfold bind.
    destruct (resetVoters_returns k r sx Hin) as [[stop sy] ->]. by eexists. }
  destruct Hit as [[[] sd] Hit].
  erewrite bind_run; [|exact Hit].
  erewrite bind_run; [|reflexivity].
  erewrite bind_run;
    [|apply (for_each_storeDelete (fun e => [EthereumEventVoteRecordKey] ++ e.1))].
  by eexists.
Qed.

(** C6 (as amended).  [MigrateGravityContract newAddr H] returns on every
    store it can decode, and after it has returned: no outgoing transaction
    is left; no signature is left under the store index of an outgoing
    transaction that was in the store (a signature under no such index
    stays where it was); the batch nonce counter and the signer-set nonce
    counter read zero; the bridge address parameter is [newAddr]; and the
    last observed height record is (H - 1 on 64 bits, current block
    height). *)
Theorem MigrateGravityContract_post (newBridgeAddress : string) (H : Z)
    (s : State) :
  (migratable env s ->
   exists s', MigrateGravityContract env newBridgeAddress H s = Some (tt, s')) /\
  (forall s',
     MigrateGravityContract env newBridgeAddress H s = Some (tt, s') ->
     (forall idx, kv s' !! MakeOutgoingTxKey idx = None) /\
     (forall idx otx val,
        kv s !! MakeOutgoingTxKey idx = Some (VOutgoingTx otx) ->
        kv s' !! MakeEthereumSignatureKey (GetStoreIndex otx) val = None) /\
     (forall k,
        (forall idx otx,
           kv s !! MakeOutgoingTxKey idx = Some (VOutgoingTx otx) ->
           has_prefix (GetStoreIndex otx) k = false) ->
        kv s' !! (EthereumSignatureKey :: k) = kv s !! (EthereumSignatureKey :: k)) /\
     lastOutgoingBatchNonce env s' = Some 0 /\
     GetLatestSignerSetTxNonce env s' = Some 0 /\
     getBridgeContractAddress s' = newBridgeAddress /\
     GetLastObservedEthereumBlockHeight s' =
       Some {| EthereumHeight := uint64 (H - 1);
               CosmosHeight := uint64 (BlockHeight env) |}).
Proof.
  split.
  - apply MigrateGravityContract_returns.
  - intros s'. by apply MigrateGravityContract_sweeps.
Qed.

End MigrationReturns.

Lemma MigrateGravityContract_post_witness :
  let s' := exec (MigrateGravityContract (TC := exampleConsts) sharesEnv "0xb2" 500)
                 signedState in
  consts_distinct (TC := exampleConsts) /\
  migratable (TC := exampleConsts) sharesEnv signedState /\
  MigrateGravityContract (TC := exampleConsts) sharesEnv "0xb2" 500 signedState
    = Some (tt, s') /\
  (forall idx, kv s' !! MakeOutgoingTxKey (TC := exampleConsts) idx = None) /\
  lastOutgoingBatchNonce (TC := exampleConsts) sharesEnv s' = Some 0 /\
  GetLatestSignerSetTxNonce (TC := exampleConsts) sharesEnv s' = Some 0 /\
  getBridgeContractAddress s' = "0xb2"%string /\
  GetLastObservedEthereumBlockHeight (TC := exampleConsts) s' =
    Some {| EthereumHeight := 499; CosmosHeight := 100 |}.
Proof.
  intros s'.
  assert (Hmig : migratable (TC := exampleConsts) sharesEnv signedState).
  { split; vm_compute; reflexivity. }
  split; [exact exampleConsts_distinct|]. split; [exact Hmig|].
  destruct (MigrateGravityContract_post (TC := exampleConsts) sharesEnv
              exampleConsts_distinct "0xb2" 500 signedState) as [Hret Hpost].
  destruct (Hret Hmig) as [s1 Hrun].
  assert (Hs : s1 = s').
  { unfold s', exec. rewrite Hrun. reflexivity. }
  rewrite Hs in Hrun. split; [exact Hrun|].
  destruct (Hpost s' Hrun) as (H1 & _ & _ & H4 & H5 & H6 & H7).
  split; [exact H1|]. split; [exact H4|]. split; [exact H5|].
  split; [exact H6|exact H7].
Defined.

(** ** Counters and heights kept under one key *)

Lemma BytesToAddress_address (a : bytes) :
  length a = AddressLength -> BytesToAddress a = a.
Proof.
  intros Hl. unfold BytesToAddress. rewrite Hl, Nat.sub_diag, drop_0.
  by rewrite Hl, Nat.sub_diag.
Qed.

Lemma BytesToAddress_nil : BytesToAddress [] = zeroAddress.
Proof. reflexivity. Qed.

Lemma length_BytesToAddress (b : bytes) : length (BytesToAddress b) = AddressLength.
Proof.
  unfold BytesToAddress. rewrite length_app, length_replicate, length_drop.
  unfold AddressLength. lia.
Qed.

Section Heights.
Context `{TC : TypesConsts} (env : Env).

(** X1.  [GetLastSlashedOutgoingTxBlockHeight] reads zero while nothing was
    set; after [SetLastSlashedOutgoingTxBlockHeight h] it reads [h] as a
    64-bit value, and the setter touches no other key, no parameter, no
    event and no bank call. *)
Theorem LastSlashedOutgoingTxBlockHeight_set_get (blockHeight : Z) (s : State) :
  (kv s !! [LastSlashedOutgoingTxBlockKey] = None ->
   GetLastSlashedOutgoingTxBlockHeight env s = Some 0) /\
  exists s',
    SetLastSlashedOutgoingTxBlockHeight blockHeight s = Some (tt, s') /\
    GetLastSlashedOutgoingTxBlockHeight env s' = Some (uint64 blockHeight) /\
    (forall K, K <> [LastSlashedOutgoingTxBlockKey] -> kv s' !! K = kv s !! K) /\
    params s' = params s /\ events s' = events s /\ burns s' = burns s.
Proof.
  split.
  - intros Hnone. unfold GetLastSlashedOutgoingTxBlockHeight, storeGet.
    by rewrite Hnone.
  - eexists. split; [reflexivity|]. split; [|split; [|done]].
    + unfold GetLastSlashedOutgoingTxBlockHeight, storeGet. simpl.
      rewrite lookup_insert_eq. simpl. apply BigEndianUint64_Uint64ToBigEndian.
    + intros K HK. simpl. by rewrite lookup_insert_ne.
Qed.

(** X2.  [GetLastUnbondingBlockHeight] reads zero on a missing key and on
    an empty value, panics on a value of one to seven bytes, and after
    [setLastUnbondingBlockHeight h] reads [h] as a 64-bit value; the setter
    touches no other key. *)
Theorem LastUnbondingBlockHeight_set_get (unbondingBlockHeight : Z) (s : State) :
  (kv s !! [LastUnBondingBlockHeightKey] = None ->
   GetLastUnbondingBlockHeight env s = Some 0) /\
  (kv s !! [LastUnBondingBlockHeightKey] = Some (VBytes []) ->
   GetLastUnbondingBlockHeight env s = Some 0) /\
  (forall bz, kv s !! [LastUnBondingBlockHeightKey] = Some (VBytes bz) ->
              (0 < length bz < 8)%nat ->
              GetLastUnbondingBlockHeight env s = None) /\
  exists s',
    setLastUnbondingBlockHeight unbondingBlockHeight s = Some (tt, s') /\
    GetLastUnbondingBlockHeight env s' = Some (uint64 unbondingBlockHeight) /\
    (forall K, K <> [LastUnBondingBlockHeightKey] -> kv s' !! K = kv s !! K) /\
    params s' = params s /\ events s' = events s /\ burns s' = burns s.
Proof.
  unfold GetLastUnbondingBlockHeight, storeGet.
  split; [by intros ->|]. split; [by intros ->|]. split.
  - intros bz -> Hl. simpl. rewrite bool_decide_eq_false_2 by lia.
    unfold readUint64, BigEndianUint64. by rewrite decide_False by lia.
  - eexists. split; [reflexivity|]. split; [|split; [|done]].
    + cbn [kv with_kv]. rewrite lookup_insert_eq.
      cbn [fmap option_fmap option_map raw].
      rewrite bool_decide_eq_false_2
        by (unfold Uint64ToBigEndian; rewrite length_be_bytes; lia).
      apply BigEndianUint64_Uint64ToBigEndian.
    + intros K HK. simpl. by rewrite lookup_insert_ne.
Qed.

End Heights.

(** ** Signatures *)

Lemma NoDup_Iterator {V : Type} (p : bytes) (m : gmap bytes V) :
  NoDup (Iterator p m).*1.
Proof.
  unfold Iterator. pose proof (NoDup_entries m) as Hnd.
  induction (entries m) as [|[k v] l IH]; simpl; [constructor|].
  simpl in Hnd. apply NoDup_cons in Hnd as [Hk Hnd].
  destruct (has_prefix p k) eqn:Hp; simpl; [|by apply IH].
  apply NoDup_cons. split; [|by apply IH].
  intros Hin. apply Hk.
  apply list_elem_of_fmap in Hin as [[k' v'] [Hk' Hin]].
  apply list_elem_of_omap in Hin as [[k0 v0] [Hin0 Hf]]. simpl in *.
  destruct (has_prefix p k0) eqn:Hp0; [|done]. injection Hf as <- <-.
  apply has_prefix_spec in Hp as [r ->].
  apply has_prefix_spec in Hp0 as [r0 ->].
  rewrite !drop_app_length in Hk'. subst r0.
  apply list_elem_of_fmap. by exists (p ++ r, v0).
Qed.

(** A loop that never stops and only reads folds its accumulator. *)
Lemma iterate_fold {X A} (l : list X) (cb : A -> X -> M (A * bool))
    (g : A -> X -> A) (s : State) :
  (forall a x, x ∈ l -> cb a x s = Some ((g a x, false), s)) ->
  forall a, iterate l cb a s = Some (fold_left g l a, s).
Proof.
  induction l as [|x l IH]; intros Hcb a; [done|].
  cbn [iterate fold_left]. unfold bind. rewrite Hcb by left. simpl.
  apply IH. intros; apply Hcb. by right.
Qed.

Lemma fold_left_snoc_map {X Y} (f : X -> Y) (l : list X) (acc : list Y) :
  fold_left (fun out x => out ++ [f x]) l acc = acc ++ map f l.
Proof.
  revert acc. induction l as [|x l IH]; intros acc; simpl.
  - by rewrite app_nil_r.
  - rewrite IH. by rewrite <- app_assoc.
Qed.

Section Signatures.
Context `{TC : TypesConsts} (env : Env).

(** X3.  The signatures [iterateEthereumSignatures] hands to the callback
    of [GetEthereumSignatures] are those a point lookup finds: a validator
    is listed with a signature exactly when [getEthereumSignature] returns
    it, no validator is listed twice, and [SetEthereumSignature] returns
    the key it wrote, under which the signature is then found. *)
Theorem EthereumSignatures_agree (s : State) (storeIndex : bytes) :
  iterateEthereumSignatures env storeIndex
    (fun (signatures : list (bytes * bytes)) val h =>
       ret (signatures ++ [(val, h)], false)) [] s
    = Some (GetEthereumSignatures env s storeIndex, s) /\
  (forall val sig,
     (val, sig) ∈ GetEthereumSignatures env s storeIndex <->
     getEthereumSignature env s storeIndex val = Some sig) /\
  NoDup (GetEthereumSignatures env s storeIndex).*1 /\
  (forall sig val, exists s',
     SetEthereumSignature storeIndex sig val s
       = Some (MakeEthereumSignatureKey storeIndex val, s') /\
     getEthereumSignature env s' storeIndex val = Some sig /\
     (val, sig) ∈ GetEthereumSignatures env s' storeIndex /\
     (forall K, K <> MakeEthereumSignatureKey storeIndex val ->
                kv s' !! K = kv s !! K)).
Proof.
  assert (Hiff : forall s0 val sig,
    (val, sig) ∈ GetEthereumSignatures env s0 storeIndex <->
    getEthereumSignature env s0 storeIndex val = Some sig).
  { intros s0 val sig.
    unfold GetEthereumSignatures, getEthereumSignature, storeGet,
      MakeEthereumSignatureKey.
    rewrite list_elem_of_In, in_map_iff. split.
    - intros ([k v] & [= -> <-] & Hin). apply list_elem_of_In in Hin.
      apply elem_of_Iterator in Hin. simpl in Hin. by rewrite Hin.
    - intros Hl.
      destruct (kv s0 !! (EthereumSignatureKey :: storeIndex ++ val))
        as [v|] eqn:E; [|done].
      injection Hl as <-. exists (val, v). split; [done|].
      apply list_elem_of_In. by apply elem_of_Iterator. }
  split; [|split; [apply Hiff|split]].
  - unfold iterateEthereumSignatures. erewrite bind_run; [|reflexivity].
    erewrite (iterate_fold _ _ (fun out e => out ++ [(e.1, raw env e.2)]));
      [|done].
    by rewrite (fold_left_snoc_map (fun e => (e.1, raw env e.2))).
  - unfold GetEthereumSignatures.
    rewrite <- list_fmap_compose.
    apply (NoDup_Iterator (EthereumSignatureKey :: storeIndex) (kv s)).
  - intros sig val. eexists. split; [reflexivity|].
    assert (Hget : getEthereumSignature env
                     (with_kv (insert (MakeEthereumSignatureKey storeIndex val)
                                      (VBytes sig)) s) storeIndex val = Some sig).
    { unfold getEthereumSignature, storeGet. cbn [kv with_kv].
      by rewrite lookup_insert_eq. }
    split; [exact Hget|]. split; [by apply Hiff|].
    intros K HK. cbn [kv with_kv]. by rewrite lookup_insert_ne.
Qed.

(** X4.  [DeleteEthereumSignatures otx] returns, and afterwards no key is
    left under the signature prefix of [otx]'s store index (no signature
    is listed for it and no point lookup finds one), while every key that
    does not start with that prefix, the parameters, the events and the
    bank are as before. *)
Theorem DeleteEthereumSignatures_clears (otx : OutgoingTx) (s : State) :
  exists s',
    DeleteEthereumSignatures otx s = Some (tt, s') /\
    GetEthereumSignatures env s' (GetStoreIndex otx) = [] /\
    (forall val, getEthereumSignature env s' (GetStoreIndex otx) val = None) /\
    (forall K, has_prefix (EthereumSignatureKey :: GetStoreIndex otx) K = true ->
               kv s' !! K = None) /\
    (forall K, has_prefix (EthereumSignatureKey :: GetStoreIndex otx) K = false ->
               kv s' !! K = kv s !! K) /\
    params s' = params s /\ events s' = events s /\ burns s' = burns s.
Proof.
  eexists. split; [apply DeleteEthereumSignatures_spec|].
  cbn [kv with_kv params events burns].
  assert (Hgone : forall K,
    has_prefix (EthereumSignatureKey :: GetStoreIndex otx) K = true ->
    sweep (EthereumSignatureKey :: GetStoreIndex otx) (kv s) !! K = None).
  { intros K HK. by rewrite lookup_sweep, HK. }
  split; [|split; [|split; [exact Hgone|split; [|done]]]].
  - unfold GetEthereumSignatures. cbn [kv with_kv].
    replace (Iterator (EthereumSignatureKey :: GetStoreIndex otx)
               (sweep (EthereumSignatureKey :: GetStoreIndex otx) (kv s)))
      with (@nil (bytes * Val)); [done|].
    symmetry. apply Iterator_nil_iff. intros k. apply Hgone.
    apply has_prefix_app.
  - intros val. unfold getEthereumSignature, storeGet, MakeEthereumSignatureKey.
    cbn [kv with_kv].
    rewrite (Hgone (EthereumSignatureKey :: GetStoreIndex otx ++ val)); [done|].
    apply (has_prefix_app (EthereumSignatureKey :: GetStoreIndex otx) val).
  - intros K HK. by rewrite lookup_sweep, HK.
Qed.

End Signatures.

(** ** The address directory, in every direction *)

Section DirectoryRest.
Context `{TC : TypesConsts} (env : Env).

Lemma getEthereumAddressesByOrchestrator_elem (s : State) (orch a : bytes) :
  a ∈ getEthereumAddressesByOrchestrator env s orch <->
  exists K v, kv s !! K = Some v /\ raw env v = orch /\
              a = BytesToAddress (TrimPrefix K [EthereumOrchestratorAddressKey]).
Proof.
  unfold getEthereumAddressesByOrchestrator. rewrite list_elem_of_omap. split.
  - intros ([K v] & Hin & Hf). simpl in Hf.
    destruct (bool_decide (raw env v = orch)) eqn:E; [|done].
    apply bool_decide_eq_true in E. injection Hf as <-.
    apply elem_of_entries in Hin. by exists K, v.
  - intros (K & v & Hl & Hv & ->). exists (K, v).
    split; [by apply elem_of_entries|]. simpl.
    by rewrite bool_decide_eq_true_2.
Qed.

Lemma delegateKeys_elem (s : State) (msg : MsgDelegateKeys) :
  msg ∈ delegateKeys env s <->
  exists v,
    kv s !! MakeValidatorEthereumAddressKey (ValidatorAddress msg) = Some v /\
    MsgEthereumAddress msg = BytesToAddress (raw env v) /\
    OrchestratorAddress msg =
      default [] (GetEthereumOrchestratorAddress env s (MsgEthereumAddress msg)).
Proof.
  unfold delegateKeys. rewrite map_map.
  rewrite list_elem_of_In, in_map_iff. split.
  - intros ([k v] & <- & Hin). simpl. exists v.
    apply list_elem_of_In, elem_of_Iterator in Hin. done.
  - intros (v & Hl & He & Ho). exists (ValidatorAddress msg, v). split.
    + destruct msg as [va0 oa ea]. simpl in *. by subst.
    + apply list_elem_of_In.
      by apply (elem_of_Iterator [ValidatorEthereumAddressKey]).
Qed.

(** X5.  [getEthereumAddressesByOrchestrator] scans the whole store: it
    returns an address for every entry, under whatever prefix, whose value
    is the orchestrator's bytes, namely the key without a leading
    [EthereumOrchestratorAddressKey] byte, cut or padded to twenty bytes,
    and nothing else.  So it finds every twenty-byte Ethereum address
    registered for the orchestrator, and it also reports, as an Ethereum
    address, the index key of every orchestrator whose validator has the
    orchestrator's bytes (as the validator and the account address of one
    key have). *)
Theorem getEthereumAddressesByOrchestrator_scans_store (s : State)
    (orch : bytes) :
  consts_distinct ->
  (forall a,
     a ∈ getEthereumAddressesByOrchestrator env s orch <->
     exists K v, kv s !! K = Some v /\ raw env v = orch /\
                 a = BytesToAddress
                       (TrimPrefix K [EthereumOrchestratorAddressKey])) /\
  (forall eth,
     length eth = AddressLength ->
     GetEthereumOrchestratorAddress env s eth = Some orch ->
     eth ∈ getEthereumAddressesByOrchestrator env s orch) /\
  (forall orch',
     GetOrchestratorValidatorAddress env s orch' = Some orch ->
     BytesToAddress (MakeOrchestratorValidatorAddressKey orch')
       ∈ getEthereumAddressesByOrchestrator env s orch).
Proof.
  intros Hd. split; [intros a; apply getEthereumAddressesByOrchestrator_elem|].
  split.
  - intros eth Hlen Hget. apply getEthereumAddressesByOrchestrator_elem.
    unfold GetEthereumOrchestratorAddress, storeGet in Hget.
    apply fmap_Some in Hget as (v & Hl & Hv).
    exists (MakeEthereumOrchestratorAddressKey eth), v.
    split; [exact Hl|]. split; [by symmetry|].
    unfold TrimPrefix, MakeEthereumOrchestratorAddressKey.
    cbn [has_prefix]. rewrite decide_True by done. cbn [length drop].
    symmetry. by apply BytesToAddress_address.
  - intros orch' Hget. apply getEthereumAddressesByOrchestrator_elem.
    unfold GetOrchestratorValidatorAddress, storeGet in Hget.
    apply fmap_Some in Hget as (v & Hl & Hv).
    exists (MakeOrchestratorValidatorAddressKey orch'), v.
    split; [exact Hl|]. split; [by symmetry|].
    assert (Hne : EthereumOrchestratorAddressKey <> OrchestratorValidatorAddressKey)
      by prefix_ne Hd.
    unfold TrimPrefix, MakeOrchestratorValidatorAddressKey.
    cbn [has_prefix]. by rewrite decide_False.
Qed.

(** X6.  The delegate-key export lists exactly the entries of the
    validator index: one message per validator that has an entry there, no
    validator twice, each with the Ethereum address
    [GetValidatorEthereumAddress] returns for it and the orchestrator
    registered for that address (the empty address when there is none). *)
Theorem delegateKeys_lists_validator_index (s : State) :
  (forall msg,
     msg ∈ delegateKeys env s <->
     exists v,
       kv s !! MakeValidatorEthereumAddressKey (ValidatorAddress msg) = Some v /\
       MsgEthereumAddress msg = BytesToAddress (raw env v) /\
       OrchestratorAddress msg =
         default [] (GetEthereumOrchestratorAddress env s (MsgEthereumAddress msg))) /\
  NoDup (ValidatorAddress <$> delegateKeys env s) /\
  (forall msg, msg ∈ delegateKeys env s ->
     GetValidatorEthereumAddress env s (ValidatorAddress msg)
     = MsgEthereumAddress msg).
Proof.
  split; [apply delegateKeys_elem|]. split.
  - unfold delegateKeys. rewrite map_map.
    change (ValidatorAddress <$> ?l) with (map ValidatorAddress l).
    rewrite map_map. simpl.
    apply (NoDup_Iterator [ValidatorEthereumAddressKey] (kv s)).
  - intros msg Hin. apply delegateKeys_elem in Hin as (v & Hl & He & _).
    unfold GetValidatorEthereumAddress, storeGet. by rewrite Hl, He.
Qed.

(** X7.  Registering a validator's delegate keys by the three setters makes
    every lookup of the directory answer with them: orchestrator to
    validator, validator to Ethereum address, Ethereum address to
    orchestrator, both reverse lookups, and the export. *)
Theorem delegate_keys_round_trip (val orch eth : bytes) (s : State) :
  consts_distinct -> length eth = AddressLength ->
  exists s',
    (SetOrchestratorValidatorAddress val orch ;;;
     setValidatorEthereumAddress val eth ;;;
     setEthereumOrchestratorAddress eth orch) s = Some (tt, s') /\
    GetOrchestratorValidatorAddress env s' orch = Some val /\
    GetValidatorEthereumAddress env s' val = eth /\
    GetEthereumOrchestratorAddress env s' eth = Some orch /\
    val ∈ getValidatorsByEthereumAddress env s' eth /\
    eth ∈ getEthereumAddressesByOrchestrator env s' orch /\
    {| ValidatorAddress := val; OrchestratorAddress := orch;
       MsgEthereumAddress := eth |} ∈ delegateKeys env s'.
Proof.
  intros Hd Hlen. eexists. split; [reflexivity|].
  cbn [kv with_kv].
  assert (H12 : OrchestratorValidatorAddressKey <> ValidatorEthereumAddressKey)
    by prefix_ne Hd.
  assert (H13 : OrchestratorValidatorAddressKey <> EthereumOrchestratorAddressKey)
    by prefix_ne Hd.
  assert (H23 : ValidatorEthereumAddressKey <> EthereumOrchestratorAddressKey)
    by prefix_ne Hd.
  set (s' := with_kv _ (with_kv _ (with_kv _ s))).
  assert (Ho : kv s' !! MakeOrchestratorValidatorAddressKey orch
               = Some (VBytes val)).
  { unfold s', MakeOrchestratorValidatorAddressKey,
      MakeEthereumOrchestratorAddressKey, MakeValidatorEthereumAddressKey.
    cbn [kv with_kv].
    rewrite lookup_insert_ne by congruence.
    rewrite lookup_insert_ne by congruence.
    by rewrite lookup_insert_eq. }
  assert (Hv : kv s' !! MakeValidatorEthereumAddressKey val
               = Some (VBytes eth)).
  { unfold s', MakeOrchestratorValidatorAddressKey,
      MakeEthereumOrchestratorAddressKey, MakeValidatorEthereumAddressKey.
    cbn [kv with_kv].
    rewrite lookup_insert_ne by congruence.
    by rewrite lookup_insert_eq. }
  assert (He : kv s' !! MakeEthereumOrchestratorAddressKey eth
               = Some (VBytes orch)).
  { unfold s'. cbn [kv with_kv]. by rewrite lookup_insert_eq. }
  assert (Hget : GetEthereumOrchestratorAddress env s' eth = Some orch).
  { unfold GetEthereumOrchestratorAddress, storeGet. by rewrite He. }
  split; [unfold GetOrchestratorValidatorAddress, storeGet; by rewrite Ho|].
  split.
  { unfold GetValidatorEthereumAddress, storeGet. rewrite Hv. simpl.
    by apply BytesToAddress_address. }
  split; [exact Hget|]. split.
  { unfold getValidatorsByEthereumAddress. apply list_elem_of_omap.
    exists (MakeValidatorEthereumAddressKey val, VBytes eth).
    split; [by apply elem_of_entries|]. cbn [fst snd raw].
    rewrite bool_decide_eq_true_2 by by apply BytesToAddress_address.
    unfold TrimPrefix, MakeValidatorEthereumAddressKey. simpl.
    by rewrite decide_True. }
  split.
  { apply getEthereumAddressesByOrchestrator_elem.
    exists (MakeEthereumOrchestratorAddressKey eth), (VBytes orch).
    split; [done|]. split; [done|].
    unfold TrimPrefix, MakeEthereumOrchestratorAddressKey. simpl.
    rewrite decide_True by done. simpl. symmetry.
    by apply BytesToAddress_address. }
  apply delegateKeys_elem. simpl. exists (VBytes eth).
  split; [exact Hv|]. simpl. rewrite BytesToAddress_address by done.
  split; [done|]. by rewrite Hget.
Qed.

End DirectoryRest.

Lemma delegate_keys_round_trip_witness :
  exists s',
    (SetOrchestratorValidatorAddress (TC := exampleConsts) va [x77] ;;;
     setValidatorEthereumAddress (TC := exampleConsts) va (addr x01) ;;;
     setEthereumOrchestratorAddress (TC := exampleConsts) (addr x01) [x77])
      emptyState = Some (tt, s') /\
    GetValidatorEthereumAddress (TC := exampleConsts) sharesEnv s' va = addr x01 /\
    va ∈ getValidatorsByEthereumAddress (TC := exampleConsts) sharesEnv s' (addr x01).
Proof.
  destruct (delegate_keys_round_trip (TC := exampleConsts) sharesEnv
              va [x77] (addr x01) emptyState exampleConsts_distinct eq_refl)
    as (s' & Hrun & _ & Hv & _ & Hin & _).
  exists s'. split; [exact Hrun|]. split; [exact Hv|exact Hin].
Defined.

(** Validator [va] is its own orchestrator, with the address [00…01]: the
    reverse lookup finds that address and, besides, the index key of the
    orchestrator padded to an address. *)
Lemma getEthereumAddressesByOrchestrator_scans_store_witness :
  let s := exec (SetOrchestratorValidatorAddress (TC := exampleConsts) va va ;;;
                 setValidatorEthereumAddress (TC := exampleConsts) va (addr x01) ;;;
                 setEthereumOrchestratorAddress (TC := exampleConsts) (addr x01) va)
                emptyState in
  addr x01 ∈ getEthereumAddressesByOrchestrator (TC := exampleConsts) sharesEnv s va /\
  BytesToAddress (MakeOrchestratorValidatorAddressKey (TC := exampleConsts) va)
    ∈ getEthereumAddressesByOrchestrator (TC := exampleConsts) sharesEnv s va /\
  BytesToAddress (MakeOrchestratorValidatorAddressKey (TC := exampleConsts) va)
    <> addr x01.
Proof.
  intros s.
  destruct (getEthereumAddressesByOrchestrator_scans_store (TC := exampleConsts)
              sharesEnv s va exampleConsts_distinct) as (_ & Hreg & Hkey).
  split; [apply Hreg; vm_compute; reflexivity|].
  split; [apply Hkey; vm_compute; reflexivity|].
  vm_compute. discriminate.
Defined.

(** ** Outgoing transactions: point access and the slashing window *)

Section OutgoingRest.
Context `{TC : TypesConsts} (env : Env).

(** X8.  [SetOutgoingTx], [GetOutgoingTx] and [DeleteOutgoingTx] agree:
    a transaction that was set is read back under its store index, a
    deleted or never-set index reads as nil, a value that is no outgoing
    transaction makes the read panic, and neither the write nor the
    delete changes what another index reads. *)
Theorem OutgoingTx_set_get_delete (otx : OutgoingTx) (s : State) :
  (forall idx, kv s !! MakeOutgoingTxKey idx = None ->
               GetOutgoingTx s idx = Some None) /\
  (forall idx v, kv s !! MakeOutgoingTxKey idx = Some v ->
                 (forall o, v <> VOutgoingTx o) -> GetOutgoingTx s idx = None) /\
  exists s1 s2,
    SetOutgoingTx otx s = Some (tt, s1) /\
    GetOutgoingTx s1 (GetStoreIndex otx) = Some (Some otx) /\
    (forall idx, idx <> GetStoreIndex otx ->
                 GetOutgoingTx s1 idx = GetOutgoingTx s idx) /\
    DeleteOutgoingTx (GetStoreIndex otx) s1 = Some (tt, s2) /\
    GetOutgoingTx s2 (GetStoreIndex otx) = Some None /\
    (forall idx, idx <> GetStoreIndex otx ->
                 GetOutgoingTx s2 idx = GetOutgoingTx s idx).
Proof.
  split; [|split].
  - intros idx Hl. unfold GetOutgoingTx. by rewrite Hl.
  - intros idx v Hl Hv. unfold GetOutgoingTx. rewrite Hl.
    destruct v; try done. by destruct (Hv otx0).
  - eexists _, _. split; [reflexivity|].
    unfold GetOutgoingTx, DeleteOutgoingTx, storeDelete, modify.
    cbn [kv with_kv].
    split; [by rewrite lookup_insert_eq|].
    split.
    { intros idx Hne. rewrite lookup_insert_ne; [done|].
      unfold MakeOutgoingTxKey. congruence. }
    split; [reflexivity|]. cbn [kv with_kv].
    split; [by rewrite lookup_delete_eq|].
    intros idx Hne.
    assert (MakeOutgoingTxKey (GetStoreIndex otx) <> MakeOutgoingTxKey idx)
      by (unfold MakeOutgoingTxKey; congruence).
    rewrite lookup_delete_ne by done. by rewrite lookup_insert_ne.
Qed.

Lemma unslashed_fold (maxHeight lastSlashed : Z) (l : list (bytes * Val))
    (acc : list OutgoingTx) (otx : OutgoingTx) :
  otx ∈ fold_left
          (fun out e =>
             match e.2 with
             | VOutgoingTx o =>
                 if (GetCosmosHeight o <? maxHeight)
                    && (lastSlashed <? GetCosmosHeight o)
                 then out ++ [o] else out
             | _ => out
             end) l acc <->
  otx ∈ acc \/
  ((exists k, (k, VOutgoingTx otx) ∈ l) /\
   lastSlashed < GetCosmosHeight otx < maxHeight).
Proof.
  revert acc. induction l as [|[k v] l IH]; intros acc.
  - simpl. split; [by left|]. intros [?|[[k Hk] _]]; [done|].
    by apply elem_of_nil in Hk.
  - cbn [fold_left]. rewrite IH. clear IH. simpl. split.
    + intros [Hacc|[[k' Hk'] Hh]].
      * destruct v as [| o | | | |]; try by left.
        destruct ((GetCosmosHeight o <? maxHeight)
                  && (lastSlashed <? GetCosmosHeight o)) eqn:E; [|by left].
        apply elem_of_app in Hacc as [?|Ho]; [by left|].
        apply list_elem_of_singleton in Ho as ->. right.
        apply andb_true_iff in E as [E1 E2].
        apply Z.ltb_lt in E1. apply Z.ltb_lt in E2.
        split; [|lia]. exists k. left.
      * right. split; [|done]. exists k'. by right.
    + intros [Hacc|[[k' Hk'] Hh]].
      * left. destruct v as [| o | | | |]; try done.
        destruct ((GetCosmosHeight o <? maxHeight)
                  && (lastSlashed <? GetCosmosHeight o)); [|done].
        apply elem_of_app. by left.
      * apply elem_of_cons in Hk' as [[= <- <-]|Hk'].
        -- left.
           assert (E : (GetCosmosHeight otx <? maxHeight)
                       && (lastSlashed <? GetCosmosHeight otx) = true)
             by (apply andb_true_iff; split; apply Z.ltb_lt; lia).
           rewrite E. apply elem_of_app. right.
           by apply list_elem_of_singleton.
        -- right. split; [by exists k'|done].
Qed.

(** X9.  On a store whose outgoing transactions decode,
    [GetUnSlashedOutgoingTxs maxHeight] returns, changes nothing, and
    lists exactly the stored outgoing transactions whose home height lies
    strictly between the last slashed height and [maxHeight]. *)
Theorem GetUnSlashedOutgoingTxs_spec (maxHeight lastSlashed : Z) (s : State) :
  forallb decodable_outgoing (Iterator [OutgoingTxKey] (kv s)) = true ->
  GetLastSlashedOutgoingTxBlockHeight env s = Some lastSlashed ->
  exists out,
    GetUnSlashedOutgoingTxs env maxHeight s = Some (out, s) /\
    forall otx,
      otx ∈ out <->
      (exists idx, kv s !! MakeOutgoingTxKey idx = Some (VOutgoingTx otx)) /\
      lastSlashed < GetCosmosHeight otx < maxHeight.
Proof.
  intros Hdec Hlast. unfold GetUnSlashedOutgoingTxs.
  erewrite bind_run; [|unfold read; rewrite Hlast; reflexivity].
  unfold iterateOutgoingTxs. erewrite bind_run; [|reflexivity].
  eexists. split.
  - apply (iterate_fold _ _
       (fun out e =>
          match e.2 with
          | VOutgoingTx o =>
              if (GetCosmosHeight o <? maxHeight)
                 && (lastSlashed <? GetCosmosHeight o)
              then out ++ [o] else out
          | _ => out
          end)).
    intros a [k v] Hin. unfold decodeOutgoing. simpl.
    rewrite forallb_forall in Hdec.
    unfold ReverseIterator in Hin. rewrite elem_of_reverse in Hin.
    apply list_elem_of_In, Hdec in Hin. unfold decodable_outgoing in Hin.
    simpl in Hin. destruct v as [| o | | | |]; try done.
    by destruct ((GetCosmosHeight o <? maxHeight)
                 && (lastSlashed <? GetCosmosHeight o)).
  - intros otx. rewrite unslashed_fold. split.
    + intros [Hnil|[[k Hk] Hh]]; [by apply elem_of_nil in Hnil|].
      split; [|done]. exists k.
      by apply (elem_of_ReverseIterator [OutgoingTxKey]) in Hk.
    + intros [[idx Hidx] Hh]. right. split; [|done]. exists idx.
      by apply (elem_of_ReverseIterator [OutgoingTxKey]).
Qed.

(** X10.  The timeout height: zero while the observed home or Ethereum
    height is zero, whatever the parameters; a panic once both are
    observed and the average Ethereum block time is zero; and otherwise,
    when no 64-bit operation wraps, the observed Ethereum height plus the
    blocks projected since plus the target timeout in blocks. *)
Theorem getTimeoutHeight_cases (s : State) (heights : LatestEthereumBlockHeight) :
  GetLastObservedEthereumBlockHeight s = Some heights ->
  let p := params s in
  let elapsed := BlockHeight env - CosmosHeight heights in
  (CosmosHeight heights = 0 \/ EthereumHeight heights = 0 ->
   getTimeoutHeight env s = Some 0) /\
  (CosmosHeight heights <> 0 -> EthereumHeight heights <> 0 ->
   AverageEthereumBlockTime p = 0 -> getTimeoutHeight env s = None) /\
  (0 < CosmosHeight heights <= BlockHeight env -> BlockHeight env < 2 ^ 64 ->
   0 < EthereumHeight heights -> 0 < AverageEthereumBlockTime p ->
   0 <= AverageBlockTime p -> 0 <= TargetEthTxTimeout p ->
   elapsed * AverageBlockTime p < 2 ^ 64 ->
   EthereumHeight heights
     + elapsed * AverageBlockTime p / AverageEthereumBlockTime p
     + TargetEthTxTimeout p / AverageEthereumBlockTime p < 2 ^ 64 ->
   getTimeoutHeight env s =
     Some (EthereumHeight heights
           + elapsed * AverageBlockTime p / AverageEthereumBlockTime p
           + TargetEthTxTimeout p / AverageEthereumBlockTime p)).
Proof.
  intros Hobs p elapsed. unfold getTimeoutHeight. rewrite Hobs. fold p.
  split; [|split].
  - intros [-> | ->]; simpl; [done|]. by rewrite orb_true_r.
  - intros Hc He Hz.
    rewrite (proj2 (Z.eqb_neq _ _) Hc), (proj2 (Z.eqb_neq _ _) He). simpl.
    rewrite Hz. reflexivity.
  - intros Hc Hb He Hav Hab Ht Hm Hsum.
    rewrite (proj2 (Z.eqb_neq (CosmosHeight heights) 0)) by lia.
    rewrite (proj2 (Z.eqb_neq (EthereumHeight heights) 0)) by lia. simpl.
    unfold udiv. rewrite (proj2 (Z.eqb_neq (AverageEthereumBlockTime p) 0)) by lia.
    assert (Hq : 0 <= elapsed * AverageBlockTime p / AverageEthereumBlockTime p)
      by (apply Z.div_pos; [unfold elapsed; nia|lia]).
    assert (Hq' : 0 <= TargetEthTxTimeout p / AverageEthereumBlockTime p)
      by (apply Z.div_pos; lia).
    rewrite (uint64_small (BlockHeight env)) by lia.
    fold elapsed.
    rewrite (uint64_small elapsed) by (unfold elapsed; lia).
    rewrite (uint64_small (elapsed * AverageBlockTime p))
      by (unfold elapsed in *; nia).
    rewrite (uint64_small (_ + EthereumHeight heights)) by lia.
    rewrite uint64_small by lia. f_equal. lia.
Qed.

End OutgoingRest.

(** ** The exported fee query and a cancellation on its own *)

Section BatchRest.
Context `{TC : TypesConsts} (env : Env).

(** X11.  On a well-formed pool [GetBatchFeesByTokenType] returns the fee
    sum of the first [maxElements] unbatched transfers of the contract,
    largest fee first, and changes nothing; a bound of zero or below
    bounds nothing, so the sum is over the contract's whole pool (where
    [BuildBatchTx] with the bound zero builds nothing). *)
Theorem GetBatchFeesByTokenType_window (s : State) (contract : bytes)
    (maxElements : Z) :
  wf_pool s ->
  GetBatchFeesByTokenType contract maxElements s
    = Some (feeSum (window maxElements (unbatchedTransfers s contract)), s) /\
  (maxElements <= 0 ->
   GetBatchFeesByTokenType contract maxElements s
     = Some (feeSum (unbatchedTransfers s contract), s)) /\
  BuildBatchTx env contract 0 s = Some (None, s).
Proof.
  intros Hwf.
  assert (H : GetBatchFeesByTokenType contract maxElements s
    = Some (feeSum (window maxElements (unbatchedTransfers s contract)), s))
    by exact (getBatchFeesByTokenType_spec s contract maxElements Hwf).
  split; [exact H|]. split; [|reflexivity].
  intros Hle. rewrite H. by rewrite window_negative.
Qed.

(** X12.  [CancelBatchTx b] asks nothing of the store: whether or not [b]
    is stored, it returns, every transfer of [b] is then in the unbatched
    pool, no outgoing transaction is left under [b]'s store index, one
    cancellation event is appended, and the other keys, the parameters and
    the bank are as before. *)
Theorem CancelBatchTx_releases (b : BatchTx) (s : State) :
  consts_distinct -> NoDup (poolKey <$> Transactions b) ->
  exists s',
    CancelBatchTx b s = Some (tt, s') /\
    (forall t, t ∈ Transactions b -> pooled s' t) /\
    kv s' !! MakeOutgoingTxKey (GetStoreIndex (OtxBatch b)) = None /\
    (forall K, K ∉ poolKey <$> Transactions b ->
               K <> MakeOutgoingTxKey (GetStoreIndex (OtxBatch b)) ->
               kv s' !! K = kv s !! K) /\
    events s' = events s ++
      [EventOutgoingBatchCanceled (getBridgeContractAddress s)
         (int64 (getBridgeChainID s)) (BatchNonce b)] /\
    params s' = params s /\ burns s' = burns s.
Proof.
  intros Hd Hnd. unfold CancelBatchTx, bind. rewrite for_each_setUnbatched.
  unfold DeleteOutgoingTx, storeDelete, modify, get_state, EmitEvent.
  eexists. split; [reflexivity|].
  unfold with_event, with_kv, getBridgeContractAddress, getBridgeChainID.
  cbn [kv events params burns].
  split; [|split; [by rewrite lookup_delete_eq|split; [|done]]].
  - intros t Ht. unfold pooled. cbn [kv].
    assert (Hp : OutgoingTxKey <> SendToEthereumKey) by prefix_ne Hd.
    rewrite lookup_delete_ne
      by (unfold MakeOutgoingTxKey, poolKey, MakeSendToEthereumKey; congruence).
    destruct (lookup_reinsert_in (Transactions b) (kv s) (poolKey t))
      as (t' & Ht' & Hk & ->); [apply list_elem_of_fmap; eauto|].
    by rewrite (NoDup_fmap_inj_on poolKey (Transactions b) t' t Hnd Ht' Ht Hk).
  - intros K HK Hne. rewrite lookup_delete_ne by done.
    by apply lookup_reinsert_other.
Qed.

End BatchRest.

(** ** The order in which an iterator yields its entries *)

Lemma key_leb_refl (a : bytes) : key_leb a a = true.
Proof.
  induction a as [|x a IH]; [done|]. simpl.
  by rewrite Z.ltb_irrefl.
Qed.

Lemma key_leb_total (a b : bytes) : key_leb a b = true \/ key_leb b a = true.
Proof.
  revert b. induction a as [|x a IH]; intros [|y b]; simpl; auto.
  destruct (Z.ltb_spec (Z_of_byte x) (Z_of_byte y)); [by left|].
  destruct (Z.ltb_spec (Z_of_byte y) (Z_of_byte x)); [by right|].
  apply IH.
Qed.

Lemma key_leb_trans (a b c : bytes) :
  key_leb a b = true -> key_leb b c = true -> key_leb a c = true.
Proof.
  revert b c. induction a as [|x a IH]; intros [|y b] [|z c]; simpl; try done.
  destruct (Z.ltb_spec (Z_of_byte x) (Z_of_byte y)),
           (Z.ltb_spec (Z_of_byte y) (Z_of_byte x)),
           (Z.ltb_spec (Z_of_byte y) (Z_of_byte z)),
           (Z.ltb_spec (Z_of_byte z) (Z_of_byte y)),
           (Z.ltb_spec (Z_of_byte x) (Z_of_byte z)),
           (Z.ltb_spec (Z_of_byte z) (Z_of_byte x));
    try done; try lia.
  apply IH.
Qed.

Lemma key_leb_antisym (a b : bytes) :
  key_leb a b = true -> key_leb b a = true -> a = b.
Proof.
  revert b. induction a as [|x a IH]; intros [|y b]; simpl; try done.
  destruct (Z.ltb_spec (Z_of_byte x) (Z_of_byte y)),
           (Z.ltb_spec (Z_of_byte y) (Z_of_byte x)); try done; try lia.
  intros Hab Hba. f_equal; [|by apply IH].
  apply Z_of_byte_inj. lia.
Qed.

Lemma key_leb_app (p a b : bytes) : key_leb (p ++ a) (p ++ b) = key_leb a b.
Proof.
  induction p as [|x p IH]; [done|]. simpl. by rewrite Z.ltb_irrefl.
Qed.

(** Keys of one length compare on their first difference. *)
Lemma key_leb_snoc (x y : bytes) (c d : byte) :
  length x = length y ->
  key_leb (x ++ [c]) (y ++ [d]) =
  if decide (x = y) then Z_of_byte c <=? Z_of_byte d else key_leb x y.
Proof.
  revert y. induction x as [|a x IH]; intros [|b y] Hl; simpl in Hl; try done.
  - simpl.
    destruct (Z.ltb_spec (Z_of_byte c) (Z_of_byte d)),
             (Z.ltb_spec (Z_of_byte d) (Z_of_byte c)),
             (Z.leb_spec (Z_of_byte c) (Z_of_byte d)); try done; lia.
  - simpl. rewrite IH by lia.
    destruct (Z.ltb_spec (Z_of_byte a) (Z_of_byte b)) as [Hab|Hab].
    { destruct (decide (a :: x = b :: y)) as [[= -> ->]|]; [lia|done]. }
    destruct (Z.ltb_spec (Z_of_byte b) (Z_of_byte a)) as [Hba|Hba].
    { destruct (decide (a :: x = b :: y)) as [[= -> ->]|]; [lia|done]. }
    assert (a = b) as -> by (apply Z_of_byte_inj; lia).
    destruct (decide (x = y)) as [->|Hne].
    + by rewrite decide_True.
    + rewrite decide_False; [done|congruence].
Qed.

Lemma be_bytes_inj (w : nat) (a b : Z) :
  0 <= a < 256 ^ Z.of_nat w -> 0 <= b < 256 ^ Z.of_nat w ->
  be_bytes w a = be_bytes w b -> a = b.
Proof.
  intros Ha Hb E. apply (f_equal be_value) in E.
  rewrite !be_value_be_bytes in E.
  by rewrite !Z.mod_small in E.
Qed.

(** Big-endian keys of one width are ordered as the numbers they encode. *)
Lemma key_leb_be_bytes (w : nat) (a b : Z) :
  0 <= a < 256 ^ Z.of_nat w -> 0 <= b < 256 ^ Z.of_nat w ->
  key_leb (be_bytes w a) (be_bytes w b) = (a <=? b).
Proof.
  revert a b. induction w as [|w IH]; intros a b Ha Hb.
  - simpl in *. assert (a = 0) as -> by lia. assert (b = 0) as -> by lia. done.
  - cbn [be_bytes]. rewrite key_leb_snoc by by rewrite !length_be_bytes.
    rewrite Nat2Z.inj_succ, Z.pow_succ_r in Ha, Hb by lia.
    assert (Ha' : 0 <= a / 256 < 256 ^ Z.of_nat w)
      by (split; [apply Z.div_pos; lia|apply Z.div_lt_upper_bound; lia]).
    assert (Hb' : 0 <= b / 256 < 256 ^ Z.of_nat w)
      by (split; [apply Z.div_pos; lia|apply Z.div_lt_upper_bound; lia]).
    pose proof (Z.div_mod a 256 ltac:(lia)) as Ea.
    pose proof (Z.div_mod b 256 ltac:(lia)) as Eb.
    pose proof (Z.mod_pos_bound a 256 ltac:(lia)) as Ma.
    pose proof (Z.mod_pos_bound b 256 ltac:(lia)) as Mb.
    destruct (decide (be_bytes w (a / 256) = be_bytes w (b / 256))) as [E|E].
    + apply be_bytes_inj in E; [|done|done].
      rewrite !Z_of_byte_of_Z, !Z.mod_mod by lia.
      destruct (Z.leb_spec (a mod 256) (b mod 256)),
               (Z.leb_spec a b); try done; lia.
    + rewrite IH by done.
      assert (a / 256 <> b / 256) by (intros E'; by rewrite E' in E).
      destruct (Z.leb_spec (a / 256) (b / 256)),
               (Z.leb_spec a b); try done; lia.
Qed.

Lemma be_bytes_mod (w : nat) (n : Z) :
  be_bytes w (n mod 256 ^ Z.of_nat w) = be_bytes w n.
Proof.
  revert n. induction w as [|w IH]; intros n; [done|].
  cbn [be_bytes]. rewrite Nat2Z.inj_succ, Z.pow_succ_r by lia.
  assert (Hp : 0 < 256 ^ Z.of_nat w) by (apply Z.pow_pos_nonneg; lia).
  rewrite <- (IH (n / 256)).
  replace (n mod (256 * 256 ^ Z.of_nat w) / 256)
    with ((n / 256) mod 256 ^ Z.of_nat w).
  2:{ rewrite Z.rem_mul_r by lia.
      rewrite (Z.mul_comm 256), Z.div_add by lia.
      rewrite (Z.div_small (n mod 256)) by (apply Z.mod_pos_bound; lia). lia. }
  rewrite IH.
  replace (n mod (256 * 256 ^ Z.of_nat w) mod 256) with (n mod 256); [done|].
  rewrite Z.rem_mul_r by lia.
  rewrite (Z.mul_comm 256), Z.mod_add by lia.
  by rewrite Z.mod_mod by lia.
Qed.

Lemma Uint64ToBigEndian_uint64 (n : Z) :
  Uint64ToBigEndian (uint64 n) = Uint64ToBigEndian n.
Proof. apply (be_bytes_mod 8 n). Qed.

(** Two counters encode alike only if they agree as 64-bit values, and
    their keys are ordered as those values. *)
Lemma key_leb_Uint64ToBigEndian (a b : Z) :
  key_leb (Uint64ToBigEndian a) (Uint64ToBigEndian b)
  = (uint64 a <=? uint64 b).
Proof.
  rewrite <- (Uint64ToBigEndian_uint64 a), <- (Uint64ToBigEndian_uint64 b).
  apply (key_leb_be_bytes 8); apply uint64_range.
Qed.

Section order_facts.
Context {V : Type}.
Implicit Types (m : gmap bytes V) (p : bytes).

Lemma entry_le_trans : Transitive (@entry_le V).
Proof. intros x y z. unfold entry_le. apply key_leb_trans. Qed.

Lemma entry_le_total : Total (@entry_le V).
Proof. intros x y. unfold entry_le. apply key_leb_total. Qed.

Lemma StronglySorted_entries m : StronglySorted entry_le (entries m).
Proof.
  unfold entries.
  apply (@StronglySorted_merge_sort _ entry_le _ entry_le_trans entry_le_total).
Qed.

Lemma StronglySorted_Iterator p m : StronglySorted entry_le (Iterator p m).
Proof.
  unfold Iterator. pose proof (StronglySorted_entries m) as Hs.
  induction Hs as [|[k v] l Hs IH Hall]; simpl; [constructor|].
  destruct (has_prefix p k) eqn:Hp; simpl; [|exact IH].
  constructor; [exact IH|].
  apply Forall_forall. intros [k' v'] Hin.
  apply list_elem_of_omap in Hin as [[k0 v0] [Hin0 Hf]]. simpl in Hf.
  destruct (has_prefix p k0) eqn:Hp0; [|done]. injection Hf as <- <-.
  rewrite Forall_forall in Hall. specialize (Hall _ Hin0).
  unfold entry_le in *. simpl in *.
  apply has_prefix_spec in Hp as [r ->].
  apply has_prefix_spec in Hp0 as [r0 ->].
  rewrite !drop_app_length. by rewrite key_leb_app in Hall.
Qed.

End order_facts.

Lemma StronglySorted_reverse {A} (R : relation A) (l : list A) :
  StronglySorted R l -> StronglySorted (flip R) (reverse l).
Proof.
  induction 1 as [|x l Hs IH Hall]; [constructor|].
  rewrite reverse_cons. apply StronglySorted_app_2; [|done|repeat constructor].
  intros x1 x2 Hx1 Hx2. apply list_elem_of_singleton in Hx2 as ->.
  rewrite elem_of_reverse in Hx1. rewrite Forall_forall in Hall.
  by apply Hall.
Qed.

Lemma StronglySorted_elem_impl {A} (R R' : relation A) (l : list A) :
  (forall x y, x ∈ l -> y ∈ l -> R x y -> R' x y) ->
  StronglySorted R l -> StronglySorted R' l.
Proof.
  intros Himpl Hs. induction Hs as [|x l Hs IH Hall]; [constructor|].
  constructor.
  - apply IH. intros a b Ha Hb. apply Himpl; by right.
  - rewrite Forall_forall in Hall |- *. intros y Hy.
    apply Himpl; [left|by right|by apply Hall].
Qed.

Lemma StronglySorted_NoDup_strict {A B} (R : relation A) (f : A -> B)
    (l : list A) :
  NoDup (f <$> l) -> StronglySorted R l ->
  StronglySorted (fun x y => R x y /\ f x <> f y) l.
Proof.
  intros Hnd Hs. induction Hs as [|x l Hs IH Hall]; [constructor|].
  rewrite fmap_cons in Hnd. apply NoDup_cons in Hnd as [Hx Hnd].
  constructor; [by apply IH|].
  rewrite Forall_forall in Hall |- *. intros y Hy. split; [by apply Hall|].
  intros E. apply Hx. rewrite E. apply list_elem_of_fmap. eauto.
Qed.

Section SignerSetOrder.
Context `{TC : TypesConsts} (env : Env).

(** A signer-set transaction is in the outgoing-tx store. *)
Lemma signer_set_entry (Hd : consts_distinct) (s : State) (k : bytes) (v : Val) :
  wf_outgoing s ->
  kv s !! (MakeOutgoingTxKey [SignerSetTxPrefixByte] ++ k) = Some v ->
  exists sstx, v = VOutgoingTx (OtxSignerSet sstx) /\
               k = Uint64ToBigEndian (Nonce sstx).
Proof.
  intros Hwf Hl.
  apply (wf_outgoing_lookup s (SignerSetTxPrefixByte :: k) v Hwf) in Hl
    as (otx & -> & Hk).
  destruct Hd as [_ Htags]. unfold type_tags in Htags.
  apply NoDup_cons in Htags as [Hn1 Htags].
  destruct otx as [sstx|btx|cctx]; simpl in Hk.
  - exists sstx. split; [done|]. unfold MakeSignerSetTxKey in Hk. congruence.
  - exfalso. apply Hn1. unfold MakeBatchTxKey in Hk. injection Hk as -> _.
    left.
  - exfalso. apply Hn1. unfold MakeContractCallTxKey in Hk.
    injection Hk as -> _. right. left.
Qed.

(** X13.  On a well-formed store [GetSignerSetTxs] returns every stored
    signer-set transaction, each once and none nil, newest first: the
    nonces, as 64-bit values, strictly decrease along the list.  The call
    changes nothing. *)
Theorem GetSignerSetTxs_newest_first (s : State) :
  consts_distinct -> wf_outgoing s ->
  exists l,
    GetSignerSetTxs s = Some (Some <$> l, s) /\
    (forall sstx,
       sstx ∈ l <->
       kv s !! MakeOutgoingTxKey (MakeSignerSetTxKey (Nonce sstx))
         = Some (VOutgoingTx (OtxSignerSet sstx))) /\
    StronglySorted (fun a b => uint64 (Nonce b) < uint64 (Nonce a)) l.
Proof.
  intros Hd Hwf.
  set (R := ReverseIterator (MakeOutgoingTxKey [SignerSetTxPrefixByte]) (kv s)).
  set (h := fun e : bytes * Val =>
              match e.2 with
              | VOutgoingTx (OtxSignerSet x) => x
              | _ => {| Nonce := 0; SignerSetHeight := 0; Signers := [] |}
              end).
  assert (Hent : forall e, e ∈ R ->
            exists sstx, e = (Uint64ToBigEndian (Nonce sstx),
                              VOutgoingTx (OtxSignerSet sstx))).
  { intros [k v] Hin. apply elem_of_ReverseIterator in Hin.
    destruct (signer_set_entry Hd s k v Hwf Hin) as (sstx & -> & ->).
    by exists sstx. }
  exists (h <$> R). split; [|split].
  - unfold GetSignerSetTxs, IterateOutgoingTxsByType.
    erewrite bind_run; [|reflexivity]. fold R.
    erewrite (iterate_fold R _ (fun out e => out ++ [Some (h e)])).
    + rewrite (fold_left_snoc_map (fun e => Some (h e))). simpl.
      by rewrite <- list_fmap_compose.
    + intros a e Hin. destruct (Hent e Hin) as (sstx & ->). done.
  - intros sstx. rewrite list_elem_of_fmap. split.
    + intros (e & -> & Hin). destruct (Hent e Hin) as (x & ->).
      apply elem_of_ReverseIterator in Hin. exact Hin.
    + intros Hl. exists (Uint64ToBigEndian (Nonce sstx),
                         VOutgoingTx (OtxSignerSet sstx)).
      split; [done|]. apply elem_of_ReverseIterator. exact Hl.
  - assert (Hs : StronglySorted
                   (fun x y => flip entry_le x y /\ x.1 <> y.1) R).
    { apply StronglySorted_NoDup_strict.
      - unfold R, ReverseIterator. rewrite fmap_reverse.
        rewrite reverse_Permutation. apply NoDup_Iterator.
      - apply StronglySorted_reverse, StronglySorted_Iterator. }
    apply (StronglySorted_fmap h
             (fun x y => uint64 (Nonce (h y)) < uint64 (Nonce (h x)))
             (fun a b => uint64 (Nonce b) < uint64 (Nonce a)) R); [done|].
    eapply (StronglySorted_elem_impl
              (fun x y : bytes * Val => flip entry_le x y /\ x.1 <> y.1));
      [|exact Hs].
    intros x y Hx Hy [Hle Hne].
    destruct (Hent x Hx) as (sx & ->). destruct (Hent y Hy) as (sy & ->).
    unfold flip, entry_le in Hle. cbn [fst snd h] in *.
    rewrite key_leb_Uint64ToBigEndian in Hle. apply Z.leb_le in Hle.
    assert (uint64 (Nonce sx) <> uint64 (Nonce sy)); [|lia].
    intros E. apply Hne.
    by rewrite <- (Uint64ToBigEndian_uint64 (Nonce sx)), E,
         Uint64ToBigEndian_uint64.
Qed.

End SignerSetOrder.

(** ** Creating a signer set *)

Section SignerSetRest.
Context `{TC : TypesConsts} (env : Env).

Lemma includedSigners_ext (s s' : State) (validators : list bytes) :
  (forall val, GetValidatorEthereumAddress env s' val
               = GetValidatorEthereumAddress env s val) ->
  includedSigners env s' validators = includedSigners env s validators.
Proof.
  intros Hext. unfold includedSigners.
  induction validators as [|val rest IH]; [done|].
  cbn [omap list_omap]. by rewrite Hext, IH.
Qed.

Lemma CurrentSignerSet_ext (s s' : State) :
  (forall val, kv s' !! MakeValidatorEthereumAddressKey val
               = kv s !! MakeValidatorEthereumAddressKey val) ->
  CurrentSignerSet env s' = CurrentSignerSet env s.
Proof.
  intros Hext. unfold CurrentSignerSet. rewrite !collectSigners_spec.
  rewrite (includedSigners_ext s s'); [done|].
  intros val. unfold GetValidatorEthereumAddress, storeGet. by rewrite Hext.
Qed.

(** X14.  [CreateSignerSetTx] panics when [CurrentSignerSet] does; when
    that returns, the new signer set carries the counter plus one (on 64
    bits), the block height and the current signers, it is stored under
    its own index, [GetLatestSignerSetTxNonce] and [GetLatestSignerSetTx]
    then answer with its nonce and with it, one event is appended, and no
    other key, parameter or bank call is touched. *)
Theorem CreateSignerSetTx_stores_latest (s : State) (n : Z) :
  consts_distinct ->
  GetLatestSignerSetTxNonce env s = Some n ->
  (CurrentSignerSet env s = None -> CreateSignerSetTx env s = None) /\
  (forall signers,
     CurrentSignerSet env s = Some signers ->
     let sstx := {| Nonce := uint64 (n + 1);
                    SignerSetHeight := uint64 (BlockHeight env);
                    Signers := signers |} in
     exists s',
       CreateSignerSetTx env s = Some (sstx, s') /\
       GetLatestSignerSetTxNonce env s' = Some (uint64 (n + 1)) /\
       GetLatestSignerSetTx env s' = Some (Some sstx) /\
       events s' = events s ++
         [EventMultisigUpdateRequest (getBridgeContractAddress s)
            (int64 (getBridgeChainID s)) (uint64 (n + 1))] /\
       (forall K, K <> [LatestSignerSetTxNonceKey] ->
                  K <> MakeOutgoingTxKey (MakeSignerSetTxKey (uint64 (n + 1))) ->
                  kv s' !! K = kv s !! K) /\
       params s' = params s /\ burns s' = burns s).
Proof.
  intros Hd Hn.
  set (s1 := with_kv (insert [LatestSignerSetTxNonceKey]
                        (VBytes (Uint64ToBigEndian (uint64 (n + 1))))) s).
  assert (Hinc : incrementLatestSignerSetTxNonce env s
                 = Some (uint64 (n + 1), s1)).
  { unfold incrementLatestSignerSetTxNonce.
    erewrite bind_run; [|by apply read_Some]. reflexivity. }
  assert (Hcur : CurrentSignerSet env s1 = CurrentSignerSet env s).
  { apply CurrentSignerSet_ext. intros val. unfold s1. cbn [kv with_kv].
    apply lookup_insert_ne.
    assert (LatestSignerSetTxNonceKey <> ValidatorEthereumAddressKey)
      by prefix_ne Hd.
    unfold MakeValidatorEthereumAddressKey. congruence. }
  assert (Hk : [LatestSignerSetTxNonceKey]
               <> MakeOutgoingTxKey (MakeSignerSetTxKey (uint64 (n + 1))))
    by (unfold MakeOutgoingTxKey, MakeSignerSetTxKey; discriminate).
  split.
  - intros Hnone. unfold CreateSignerSetTx, bind. rewrite Hinc.
    unfold read. by rewrite Hcur, Hnone.
  - intros signers Hsome sstx. eexists. split; [|split; [|split]].
    + unfold CreateSignerSetTx. erewrite bind_run; [|exact Hinc].
      erewrite bind_run;
        [|apply read_Some; split; [by rewrite Hcur|reflexivity]].
      reflexivity.
    + unfold GetLatestSignerSetTxNonce, storeGet. simpl.
      rewrite lookup_insert_ne by (unfold MakeOutgoingTxKey; discriminate).
      rewrite lookup_insert_eq. simpl. unfold readUint64.
      rewrite BigEndianUint64_Uint64ToBigEndian. by rewrite uint64_uint64.
    + unfold GetLatestSignerSetTx.
      assert (Hnonce : forall st, kv st !! [LatestSignerSetTxNonceKey]
                = Some (VBytes (Uint64ToBigEndian (uint64 (n + 1)))) ->
                GetLatestSignerSetTxNonce env st = Some (uint64 (n + 1))).
      { intros st Hl. unfold GetLatestSignerSetTxNonce, storeGet. rewrite Hl.
        simpl. unfold readUint64.
        rewrite BigEndianUint64_Uint64ToBigEndian. by rewrite uint64_uint64. }
      rewrite Hnonce.
      * unfold GetOutgoingTx. simpl. by rewrite lookup_insert_eq.
      * simpl. rewrite lookup_insert_ne by (unfold MakeOutgoingTxKey; discriminate).
        by rewrite lookup_insert_eq.
    + split; [reflexivity|]. split; [|done].
      intros K HK1 HK2. simpl.
      rewrite lookup_insert_ne by (simpl in HK2; congruence).
      by rewrite lookup_insert_ne.
Qed.

End SignerSetRest.

(** ** Height votes *)

Section HeightVotes.
Context `{TC : TypesConsts} (env : Env).

(** X15.  [GetEthereumHeightVote] answers (0, 0) for a validator without
    a vote; after [SetEthereumHeightVote val h] it answers with [h] and the
    block height as a 64-bit value when the codec writes a non-empty
    record, and with (0, 0) when the record it writes is empty; the vote
    of no other validator changes. *)
Theorem EthereumHeightVote_set_get (valAddress : bytes) (ethereumHeight : Z)
    (s : State) :
  let zero := {| EthereumHeight := 0; CosmosHeight := 0 |} in
  let height := {| EthereumHeight := ethereumHeight;
                   CosmosHeight := uint64 (BlockHeight env) |} in
  (kv s !! MakeEthereumHeightVoteKey valAddress = None ->
   GetEthereumHeightVote env s valAddress = Some zero) /\
  exists s',
    SetEthereumHeightVote env valAddress ethereumHeight s = Some (tt, s') /\
    (Marshal env (VHeight height) <> [] ->
     GetEthereumHeightVote env s' valAddress = Some height) /\
    (Marshal env (VHeight height) = [] ->
     GetEthereumHeightVote env s' valAddress = Some zero) /\
    (forall val, val <> valAddress ->
       GetEthereumHeightVote env s' val = GetEthereumHeightVote env s val) /\
    params s' = params s /\ events s' = events s /\ burns s' = burns s.
Proof.
  intros zero height. split.
  - intros Hnone. unfold GetEthereumHeightVote. by rewrite Hnone.
  - eexists. split; [reflexivity|].
    unfold GetEthereumHeightVote. cbn [kv with_kv].
    rewrite lookup_insert_eq. cbn [raw]. fold height.
    split; [|split; [|split; [|done]]].
    + intros Hne. rewrite bool_decide_eq_false_2; [done|].
      intros Hl. apply Hne. by apply nil_length_inv.
    + intros ->. done.
    + intros val Hne. rewrite lookup_insert_ne; [done|].
      unfold MakeEthereumHeightVoteKey. congruence.
Qed.

(** The votes [IterateEthereumHeightVotes] hands over, collected. *)
Lemma decodable_height_votes_elem (s : State) (e : bytes * Val) :
  decodable_height_votes s ->
  e ∈ Iterator [EthereumHeightVoteKey] (kv s) -> exists h, e.2 = VHeight h.
Proof.
  unfold decodable_height_votes. rewrite forallb_forall. intros Hall Hin.
  apply list_elem_of_In, Hall in Hin. unfold decodable_height_vote in Hin.
  destruct e.2; try done. by eexists.
Qed.

Lemma IterateEthereumHeightVotes_collect (s : State) :
  decodable_height_votes s ->
  IterateEthereumHeightVotes
    (fun (out : list (bytes * LatestEthereumBlockHeight)) val height =>
       ret (out ++ [(val, height)], false)) [] s
  = Some (map (fun e => (take 20 e.1,
                         match e.2 with
                         | VHeight h => h
                         | _ => {| EthereumHeight := 0; CosmosHeight := 0 |}
                         end))
              (Iterator [EthereumHeightVoteKey] (kv s)), s).
Proof.
  intros Hdec. unfold IterateEthereumHeightVotes.
  erewrite bind_run; [|reflexivity].
  erewrite (iterate_fold _ _
    (fun out e => out ++ [(take 20 e.1,
                           match e.2 with
                           | VHeight h => h
                           | _ => {| EthereumHeight := 0; CosmosHeight := 0 |}
                           end)])).
  - by rewrite (fold_left_snoc_map
      (fun e : bytes * Val =>
         (take 20 e.1,
          match e.2 with
          | VHeight h => h
          | _ => {| EthereumHeight := 0; CosmosHeight := 0 |}
          end))).
  - intros a [k v] Hin.
    destruct (decodable_height_votes_elem _ _ Hdec Hin) as [h Hh].
    simpl in Hh. subst v. unfold TrimPrefix. cbn [fst snd].
    rewrite (has_prefix_app [EthereumHeightVoteKey] k).
    by rewrite drop_app_length.
Qed.

(** X16.  On a store whose height votes decode, [IterateEthereumHeightVotes]
    visits every stored vote, keys ascending, and names the voter by the
    first twenty bytes of the key: a validator whose address is no longer
    than twenty bytes is named in full, a longer address is cut. *)
Theorem IterateEthereumHeightVotes_names (s : State) :
  decodable_height_votes s ->
  exists out,
    IterateEthereumHeightVotes
      (fun (out : list (bytes * LatestEthereumBlockHeight)) val height =>
         ret (out ++ [(val, height)], false)) [] s
    = Some (out, s) /\
    (forall name h,
       (name, h) ∈ out <->
       exists val, kv s !! MakeEthereumHeightVoteKey val = Some (VHeight h) /\
                   name = take 20 val) /\
    (forall val h,
       kv s !! MakeEthereumHeightVoteKey val = Some (VHeight h) ->
       (length val <= 20)%nat -> (val, h) ∈ out).
Proof.
  intros Hdec. eexists. split; [by apply IterateEthereumHeightVotes_collect|].
  assert (Hiff : forall name h,
    (name, h) ∈ map (fun e : bytes * Val =>
                       (take 20 e.1,
                        match e.2 with
                        | VHeight h => h
                        | _ => {| EthereumHeight := 0; CosmosHeight := 0 |}
                        end))
                    (Iterator [EthereumHeightVoteKey] (kv s)) <->
    exists val, kv s !! MakeEthereumHeightVoteKey val = Some (VHeight h) /\
                name = take 20 val).
  { intros name h. rewrite list_elem_of_In, in_map_iff. split.
    - intros ([k v] & [= <- <-] & Hin). apply list_elem_of_In in Hin.
      destruct (decodable_height_votes_elem _ _ Hdec Hin) as [h' Hh].
      simpl in Hh. subst v.
      apply elem_of_Iterator in Hin. by exists k.
    - intros (val & Hl & ->). exists (val, VHeight h). split; [done|].
      apply list_elem_of_In.
      by apply (elem_of_Iterator [EthereumHeightVoteKey]). }
  split; [exact Hiff|].
  intros val h Hl Hlen. apply Hiff. exists val. split; [done|].
  by rewrite take_ge.
Qed.

End HeightVotes.

(** ** Batches: the latest, the executed, the built and the cancelled *)

Section BatchLifecycle.
Context `{TC : TypesConsts} (env : Env).

(** A batch is picked only above the bound the search starts from. *)
Lemma pickLast_above (token : bytes) (l : list (bytes * Val))
    (acc : option BatchTx * Z) (lo : Z) :
  lo <= acc.2 -> (forall b, acc.1 = Some b -> lo < acc.2) ->
  forall b, (fold_left (pickLast token) l acc).1 = Some b ->
            lo < (fold_left (pickLast token) l acc).2.
Proof.
  revert acc. induction l as [|[k v] l IH]; intros acc Hlo Hacc b Hb.
  - by eapply Hacc.
  - cbn [fold_left] in *. eapply (IH (pickLast token acc (k, v))); [| |exact Hb].
    + unfold pickLast. simpl. destruct v as [| [|btx|] | | | |]; try done.
      destruct (bool_decide _ && (acc.2 <? BatchNonce btx)) eqn:E; [|done].
      apply andb_true_iff in E as [_ E]. apply Z.ltb_lt in E. simpl. lia.
    + unfold pickLast. simpl. destruct v as [| [|btx|] | | | |]; try done.
      destruct (bool_decide _ && (acc.2 <? BatchNonce btx)) eqn:E; [|done].
      apply andb_true_iff in E as [_ E]. apply Z.ltb_lt in E. simpl.
      intros _ _. lia.
Qed.

(** X17.  On a well-formed store [getLastOutgoingBatchByTokenType] changes
    nothing and returns the stored batch of the token with the greatest
    nonce among those with a nonce above zero; it returns nil exactly when
    the token has no stored batch with a nonce above zero. *)
Theorem getLastOutgoingBatchByTokenType_latest (token : bytes) (s : State) :
  consts_distinct -> wf_outgoing s ->
  exists r,
    getLastOutgoingBatchByTokenType token s = Some (r, s) /\
    match r with
    | Some lb =>
        stored_batch s lb /\ TokenContract lb = token /\ 0 < BatchNonce lb /\
        forall b, stored_batch s b -> TokenContract b = token ->
                  BatchNonce b <= BatchNonce lb
    | None =>
        forall b, stored_batch s b -> TokenContract b = token ->
                  BatchNonce b <= 0
    end.
Proof.
  intros Hd Hwf. eexists.
  split; [by apply getLastOutgoingBatchByTokenType_spec|].
  set (l := ReverseIterator (MakeOutgoingTxKey [BatchTxPrefixByte]) (kv s)).
  destruct (pickLast_fold token l (None, 0)) as (_ & Hmax & Hres).
  pose proof (pickLast_above token l (None, 0) 0 ltac:(done) ltac:(done))
    as Habove.
  destruct Hres as [Hr|(k & lb & Hin & Htok & Hr)].
  - rewrite Hr. simpl. intros b Hb Ht.
    specialize (Hmax _ b (stored_batch_listed s b Hb) Ht).
    by rewrite Hr in Hmax.
  - rewrite Hr. simpl. rewrite Hr in Hmax, Habove. simpl in *.
    split; [by eapply (listed_batch_stored Hd)|]. split; [done|].
    split; [by eapply Habove|].
    intros b Hb Ht. exact (Hmax _ b (stored_batch_listed s b Hb) Ht).
Qed.

(** X18.  [batchTxExecuted] on a batch that is not stored returns no error
    and changes nothing; so once it has succeeded for a stored batch, a
    second call for the same batch returns no error, changes nothing and
    burns nothing. *)
Theorem batchTxExecuted_at_most_once (tokenContract : bytes) (nonce : Z)
    (s : State) :
  (kv s !! MakeOutgoingTxKey (MakeBatchTxKey tokenContract nonce) = None ->
   batchTxExecuted env tokenContract nonce s = Some (None, s)) /\
  (forall b s',
     stored_batch s b ->
     batchTxExecuted env (TokenContract b) (BatchNonce b) s = Some (None, s') ->
     batchTxExecuted env (TokenContract b) (BatchNonce b) s' = Some (None, s')).
Proof.
  assert (Hmiss : forall c n st,
    kv st !! MakeOutgoingTxKey (MakeBatchTxKey c n) = None ->
    batchTxExecuted env c n st = Some (None, st)).
  { intros c n st Hl. unfold batchTxExecuted, bind, read, GetOutgoingTx.
    by rewrite Hl. }
  split; [apply Hmiss|].
  intros b s' Hs Hrun. apply Hmiss.
  destruct (batchTxExecuted_inv env b s None s' Hs Hrun) as (s1 & _ & Htail).
  unfold executed_tail in Htail. simpl in Htail.
  change (MakeOutgoingTxKey (MakeBatchTxKey (TokenContract b) (BatchNonce b)))
    with (MakeOutgoingTxKey (GetStoreIndex (OtxBatch b))).
  destruct (ERC20ToDenomLookup env (TokenContract b)).1.
  - destruct Htail as [_ ->]. simpl. apply lookup_delete_eq.
  - destruct (totalToBurn _ _ _); [|by destruct Htail].
    destruct (BankBurnCoins _ _ _); [by destruct Htail|].
    destruct Htail as [_ ->]. simpl. apply lookup_delete_eq.
Qed.

Lemma BuildBatchTx_window_inv (contract : bytes) (maxElements : Z)
    (s : State) (b : BatchTx) (s' : State) :
  consts_distinct -> wf_pool s ->
  BuildBatchTx env contract maxElements s = Some (Some b, s') ->
  Transactions b = window maxElements (unbatchedTransfers s contract) /\
  Transactions b <> [] /\
  (0 < maxElements -> Z.of_nat (length (Transactions b)) <= maxElements) /\
  TokenContract b = contract /\ Height b = uint64 (BlockHeight env) /\
  (forall t, t ∈ Transactions b -> kv s' !! poolKey t = None) /\
  (forall K, K ∉ poolKey <$> Transactions b ->
             K <> [LastOutgoingBatchNonceKey] ->
             K <> MakeOutgoingTxKey (GetStoreIndex (OtxBatch b)) ->
             kv s' !! K = kv s !! K) /\
  events s' = events s ++
    [EventOutgoingBatch (getBridgeContractAddress s)
       (int64 (getBridgeChainID s)) (BatchNonce b)] /\
  params s' = params s /\ burns s' = burns s.
Proof.
  intros Hd Hwp Hrun.
  apply BuildBatchTx_inv in Hrun as [[Hr _]|(Hne0 & H)]; [done|].
  destruct H as (selected & s1 & n & timeout & Hsel & Hne & Hn & Ht & Hr & ->).
  injection Hr as ->.
  pose proof (selection_loop maxElements
                (ReverseIterator (SendToEthereumKey :: contract) (kv s)) [] s
                (wf_pool_all_transfers s contract Hwp)) as Hloop.
  cbn zeta in Hloop. unfold selectTransfer in Hsel. rewrite Hsel in Hloop.
  injection Hloop as Hsel' Hs1.
  cbn [length] in *.
  replace (maxElements - Z.of_nat 0) with maxElements in * by lia.
  fold (unbatchedTransfers s contract) in *. simpl in Hsel'.
  set (taken := window maxElements (unbatchedTransfers s contract)) in *.
  subst selected s1. cbn [Transactions newBatch TokenContract Height].
  split; [done|]. split; [done|]. split.
  { intros Hpos. unfold taken, window.
    rewrite (proj2 (Z.ltb_lt 0 maxElements) Hpos).
    rewrite length_take. lia. }
  split; [done|]. split; [done|].
  assert (Hp1 : OutgoingTxKey <> SendToEthereumKey) by prefix_ne Hd.
  assert (Hp2 : LastOutgoingBatchNonceKey <> SendToEthereumKey) by prefix_ne Hd.
  unfold with_event, with_kv, getBridgeContractAddress, getBridgeChainID.
  cbn [kv events params burns BatchNonce newBatch].
  split; [|split; [|done]].
  - intros t Hin.
    rewrite lookup_insert_ne
      by (unfold MakeOutgoingTxKey, poolKey, MakeSendToEthereumKey; congruence).
    rewrite lookup_insert_ne
      by (unfold poolKey, MakeSendToEthereumKey; congruence).
    rewrite lookup_withdraw. rewrite decide_True; [done|].
    apply list_elem_of_fmap. eauto.
  - intros K HK1 HK2 HK3.
    rewrite lookup_insert_ne by done. rewrite lookup_insert_ne by done.
    rewrite lookup_withdraw. by rewrite decide_False.
Qed.

(** X19.  A batch [BuildBatchTx] creates on a well-formed pool holds the
    first [maxElements] unbatched transfers of the contract, largest fee
    first (all of them for a bound below zero), at least one and, for a
    positive bound, at most [maxElements]; they have left the pool, the
    batch carries the contract and the block height, one event is
    appended, and apart from the pool slots taken, the nonce counter and
    the batch's own index no key has changed. *)
Theorem BuildBatchTx_takes_window (contract : bytes) (maxElements : Z)
    (s : State) (b : BatchTx) (s' : State) :
  consts_distinct -> wf_pool s ->
  BuildBatchTx env contract maxElements s = Some (Some b, s') ->
  Transactions b = window maxElements (unbatchedTransfers s contract) /\
  Transactions b <> [] /\
  (0 < maxElements -> Z.of_nat (length (Transactions b)) <= maxElements) /\
  TokenContract b = contract /\ Height b = uint64 (BlockHeight env) /\
  (forall t, t ∈ Transactions b -> kv s' !! poolKey t = None) /\
  (forall K, K ∉ poolKey <$> Transactions b ->
             K <> [LastOutgoingBatchNonceKey] ->
             K <> MakeOutgoingTxKey (GetStoreIndex (OtxBatch b)) ->
             kv s' !! K = kv s !! K) /\
  events s' = events s ++
    [EventOutgoingBatch (getBridgeContractAddress s)
       (int64 (getBridgeChainID s)) (BatchNonce b)] /\
  params s' = params s /\ burns s' = burns s.
Proof. apply BuildBatchTx_window_inv. Qed.

(** X20.  [BuildBatchTx] returns no batch for the bound zero and for a
    contract whose pool is empty, and whenever it returns no batch it has
    changed nothing: no transfer has left the pool and no nonce was
    consumed. *)
Theorem BuildBatchTx_none (contract : bytes) (maxElements : Z) (s : State) :
  BuildBatchTx env contract 0 s = Some (None, s) /\
  (consts_distinct -> wf_outgoing s -> wf_pool s ->
   unbatchedTransfers s contract = [] ->
   BuildBatchTx env contract maxElements s = Some (None, s)) /\
  (forall s', BuildBatchTx env contract maxElements s = Some (None, s') ->
              s' = s).
Proof.
  split; [reflexivity|]. split; [|apply BuildBatchTx_none_unchanged].
  intros Hd Hwf Hwp Hempty. unfold BuildBatchTx.
  destruct (maxElements =? 0); [done|].
  erewrite bind_run; [|by apply getLastOutgoingBatchByTokenType_spec].
  assert (Hfees : getBatchFeesByTokenType contract maxElements s
                  = Some (0%N, s)).
  { rewrite getBatchFeesByTokenType_spec by done. rewrite Hempty.
    by rewrite window_nil. }
  assert (Hsel : iterateUnbatchedSendToEthereumsByContract contract
            (fun (selected : list SendToEthereum) ste =>
               let selected' := selected ++ [ste] in
               deleteUnbatchedSendToEthereum (Id ste) (Erc20Fee ste) ;;;
               ret (selected',
                    bool_decide (Z.of_nat (length selected') = maxElements)))
            [] s = Some ([], s)).
  { unfold iterateUnbatchedSendToEthereumsByContract.
    erewrite bind_run; [|reflexivity].
    rewrite (selection_loop maxElements _ [] s
               (wf_pool_all_transfers s contract Hwp)).
    fold (unbatchedTransfers s contract). rewrite Hempty, window_nil.
    simpl. unfold withdraw. simpl. by rewrite with_kv_id. }
  destruct (fold_left _ _ _).1 as [lb|].
  - erewrite bind_run; [|erewrite bind_run; [reflexivity|exact Hfees]].
    destruct (0 <=? GetFees lb)%N; [done|]. cbn iota.
    erewrite bind_run; [|exact Hsel]. done.
  - erewrite bind_run; [|reflexivity]. cbn iota.
    erewrite bind_run; [|exact Hsel]. done.
Qed.

(** X21.  Cancelling a batch that was just built undoes the build on the
    store: when the batch's index was free, [CancelBatchTx] after
    [BuildBatchTx] leaves every key but the nonce counter as it was before
    the build (the transfers are back in their slots and the batch is
    gone), while the counter keeps the nonce that was consumed. *)
Theorem BuildBatchTx_then_CancelBatchTx (contract : bytes) (maxElements : Z)
    (s : State) (b : BatchTx) (s1 : State) :
  consts_distinct -> wf_pool s ->
  BuildBatchTx env contract maxElements s = Some (Some b, s1) ->
  kv s !! MakeOutgoingTxKey (GetStoreIndex (OtxBatch b)) = None ->
  exists s2,
    CancelBatchTx b s1 = Some (tt, s2) /\
    (forall K, K <> [LastOutgoingBatchNonceKey] -> kv s2 !! K = kv s !! K) /\
    lastOutgoingBatchNonce env s2 = Some (BatchNonce b) /\
    params s2 = params s /\ burns s2 = burns s.
Proof.
  intros Hd Hwp Hrun Hfree.
  destruct (BuildBatchTx_created env Hd contract maxElements s b s1 Hrun)
    as (n & Hn & Hnonce & Hcounter & Hstored).
  destruct (BuildBatchTx_window_inv contract maxElements s b s1 Hd Hwp Hrun)
    as (Htxs & _ & _ & _ & _ & Hgone & Hframe & _ & Hpar & Hbur).
  destruct (CancelBatchTx_spec b s1) as (s2 & Hc & Hkv & Hpar2 & Hbur2).
  exists s2. split; [exact Hc|].
  assert (Hp1 : OutgoingTxKey <> SendToEthereumKey) by prefix_ne Hd.
  assert (Hp2 : LastOutgoingBatchNonceKey <> SendToEthereumKey) by prefix_ne Hd.
  assert (Hp3 : LastOutgoingBatchNonceKey <> OutgoingTxKey) by prefix_ne Hd.
  split; [|split; [|split; congruence]].
  - intros K HK. rewrite Hkv.
    destruct (decide (K = MakeOutgoingTxKey (GetStoreIndex (OtxBatch b))))
      as [->|Hne]; [by rewrite lookup_delete_eq|].
    rewrite lookup_delete_ne by done.
    destruct (decide (K ∈ poolKey <$> Transactions b)) as [Hin|Hnin].
    + destruct (lookup_reinsert_in (Transactions b) (kv s1) K Hin)
        as (t & Ht & <- & ->).
      rewrite Htxs in Ht.
      assert (Hin' : t ∈ unbatchedTransfers s contract).
      { unfold window in Ht. destruct (0 <? maxElements); [|done].
        apply elem_of_take in Ht as (i & Hi & _).
        by eapply list_elem_of_lookup_2. }
      destruct (unbatchedTransfers_slot s contract t Hwp Hin') as [Hpooled _].
      by rewrite Hpooled.
    + rewrite lookup_reinsert_other by done. by apply Hframe.
  - rewrite <- Hcounter. apply counter_kept. rewrite Hkv.
    rewrite lookup_delete_ne
      by (unfold MakeOutgoingTxKey; congruence).
    apply lookup_reinsert_other.
    intros [t [E _]]%list_elem_of_fmap.
    unfold poolKey, MakeSendToEthereumKey in E. congruence.
Qed.

End BatchLifecycle.

(** ** Well-formedness is kept by every call *)

Section WellFormedKept.
Context `{TC : TypesConsts} (env : Env).

Lemma wf_outgoing_iff (s : State) :
  wf_outgoing s <->
  forall k v, kv s !! (OutgoingTxKey :: k) = Some v -> at_own_index (k, v) = true.
Proof.
  unfold wf_outgoing. rewrite forallb_forall. split.
  - intros H k v Hl. apply H, list_elem_of_In.
    by apply (elem_of_Iterator [OutgoingTxKey]).
  - intros H [k v] Hin. apply H.
    by apply list_elem_of_In, (elem_of_Iterator [OutgoingTxKey]) in Hin.
Qed.

Lemma wf_pool_iff (s : State) :
  wf_pool s <->
  forall k v, kv s !! (SendToEthereumKey :: k) = Some v -> at_own_slot (k, v) = true.
Proof.
  unfold wf_pool. rewrite forallb_forall. split.
  - intros H k v Hl. apply H, list_elem_of_In.
    by apply (elem_of_Iterator [SendToEthereumKey]).
  - intros H [k v] Hin. apply H.
    by apply list_elem_of_In, (elem_of_Iterator [SendToEthereumKey]) in Hin.
Qed.

Lemma keeps_wf_sound (s s' : State) :
  keeps_wf s s' -> wf_outgoing s -> wf_pool s -> wf_outgoing s' /\ wf_pool s'.
Proof.
  intros [Ho Hp] Hwo Hwp. rewrite wf_outgoing_iff in Hwo.
  rewrite wf_pool_iff in Hwp. split.
  - apply wf_outgoing_iff. intros k v Hl.
    destruct (Ho k v Hl) as [H|H]; [by apply Hwo|done].
  - apply wf_pool_iff. intros k v Hl.
    destruct (Hp k v Hl) as [H|H]; [by apply Hwp|done].
Qed.

Lemma keeps_wf_refl (s : State) : keeps_wf s s.
Proof. split; intros k v Hl; by left. Qed.

Lemma keeps_wf_trans (s1 s2 s3 : State) :
  keeps_wf s1 s2 -> keeps_wf s2 s3 -> keeps_wf s1 s3.
Proof.
  intros [Ho1 Hp1] [Ho2 Hp2]. split; intros k v Hl.
  - destruct (Ho2 k v Hl) as [H|H]; [by apply Ho1|by right].
  - destruct (Hp2 k v Hl) as [H|H]; [by apply Hp1|by right].
Qed.

Lemma keeps_wf_same_kv (s s' : State) : kv s' = kv s -> keeps_wf s s'.
Proof. intros E. split; intros k v Hl; left; by rewrite <- E. Qed.

Lemma preserves_ret {A} (a : A) : preserves (ret a).
Proof. intros s b s' [_ ->]%ret_Some. apply keeps_wf_refl. Qed.

Lemma preserves_panic {A} : preserves (@panic A).
Proof. intros s a s' H. done. Qed.

Lemma preserves_get_state : preserves get_state.
Proof. intros s a s' [_ ->]%get_state_Some. apply keeps_wf_refl. Qed.

Lemma preserves_read {A} (f : State -> option A) : preserves (read f).
Proof. intros s a s' [_ ->]%read_Some. apply keeps_wf_refl. Qed.

Lemma preserves_bind {A B} (m : M A) (f : A -> M B) :
  preserves m -> (forall a, preserves (f a)) -> preserves (bind m f).
Proof.
  intros Hm Hf s b s' (a & s1 & H1 & H2)%bind_Some.
  eapply keeps_wf_trans; [by eapply Hm|by eapply Hf].
Qed.

Lemma preserves_modify (f : State -> State) :
  (forall s, kv (f s) = kv s) -> preserves (modify f).
Proof. intros Hf s [] s' ->%modify_Some. by apply keeps_wf_same_kv. Qed.

Lemma preserves_EmitEvent (e : Event) : preserves (EmitEvent e).
Proof. by apply preserves_modify. Qed.

Lemma preserves_storeDelete (key : bytes) : preserves (storeDelete key).
Proof.
  intros s [] s' ->%modify_Some. split; intros k v Hl; left; simpl in Hl.
  - by apply lookup_delete_Some in Hl as [_ Hl].
  - by apply lookup_delete_Some in Hl as [_ Hl].
Qed.

Lemma preserves_storeSet_other (b : byte) (r : bytes) (v : Val) :
  b <> OutgoingTxKey -> b <> SendToEthereumKey -> preserves (storeSet (b :: r) v).
Proof.
  intros Hb1 Hb2 s [] s' ->%modify_Some.
  split; intros k v' Hl; left; simpl in Hl;
    rewrite lookup_insert_ne in Hl by congruence; done.
Qed.

Lemma preserves_SetOutgoingTx (Hd : consts_distinct) (otx : OutgoingTx) :
  preserves (SetOutgoingTx otx).
Proof.
  assert (Hp : OutgoingTxKey <> SendToEthereumKey) by prefix_ne Hd.
  intros s [] s' ->%modify_Some. split; intros k v Hl; simpl in Hl.
  - destruct (decide (k = GetStoreIndex otx)) as [->|Hne].
    + unfold MakeOutgoingTxKey in Hl. rewrite lookup_insert_eq in Hl.
      injection Hl as <-. right. unfold at_own_index. simpl.
      by apply bool_decide_eq_true.
    + left. rewrite lookup_insert_ne in Hl; [done|].
      unfold MakeOutgoingTxKey. congruence.
  - left. rewrite lookup_insert_ne in Hl; [done|].
    unfold MakeOutgoingTxKey. congruence.
Qed.

Lemma preserves_setUnbatchedSendToEthereum (Hd : consts_distinct)
    (ste : SendToEthereum) :
  preserves (setUnbatchedSendToEthereum ste).
Proof.
  assert (Hp : OutgoingTxKey <> SendToEthereumKey) by prefix_ne Hd.
  intros s [] s' ->%modify_Some. split; intros k v Hl; simpl in Hl.
  - left. rewrite lookup_insert_ne in Hl; [done|].
    unfold MakeSendToEthereumKey. congruence.
  - destruct (decide (SendToEthereumKey :: k = poolKey ste)) as [E|Hne].
    + unfold poolKey in E. rewrite E, lookup_insert_eq in Hl.
      injection Hl as <-. right. unfold at_own_slot. simpl.
      by apply bool_decide_eq_true.
    + left. rewrite lookup_insert_ne in Hl; [done|].
      intros E. apply Hne. by rewrite <- E.
Qed.

Lemma preserves_iterate {X A} (l : list X) (cb : A -> X -> M (A * bool)) :
  (forall a x, preserves (cb a x)) -> forall a, preserves (iterate l cb a).
Proof.
  intros Hcb. induction l as [|x l IH]; intros a; cbn [iterate].
  - apply preserves_ret.
  - apply preserves_bind; [apply Hcb|]. intros [a' []]; simpl.
    + apply preserves_ret.
    + apply IH.
Qed.

Lemma preserves_for_each {X} (l : list X) (body : X -> M unit) :
  (forall x, preserves (body x)) -> preserves (for_each l body).
Proof.
  intros Hb. induction l as [|x l IH]; cbn [for_each].
  - apply preserves_ret.
  - apply preserves_bind; [apply Hb|]. intros _. apply IH.
Qed.

(** Takes a keeper function apart along its binds and branches. *)
Ltac pres_step :=
  first
    [ apply preserves_ret
    | apply preserves_panic
    | apply preserves_get_state
    | apply preserves_read
    | apply preserves_EmitEvent
    | apply preserves_storeDelete
    | apply preserves_iterate; intros
    | apply preserves_for_each; intros
    | apply preserves_bind; [|intros]
    | lazymatch goal with
      | |- preserves (match ?x with _ => _ end) => destruct x
      end ].

Ltac pres := repeat pres_step.

Lemma preserves_DeleteEthereumSignatures (otx : OutgoingTx) :
  preserves (DeleteEthereumSignatures otx).
Proof. unfold DeleteEthereumSignatures. pres. Qed.

Lemma preserves_CancelBatchTx (Hd : consts_distinct) (batch : BatchTx) :
  preserves (CancelBatchTx batch).
Proof.
  unfold CancelBatchTx, DeleteOutgoingTx. pres.
  by apply preserves_setUnbatchedSendToEthereum.
Qed.

Lemma preserves_batchTxExecuted (Hd : consts_distinct) (tokenContract : bytes)
    (nonce : Z) :
  preserves (batchTxExecuted env tokenContract nonce).
Proof.
  unfold batchTxExecuted, IterateOutgoingTxsByType, decodeOutgoing,
    cancelEarlier, BurnCoins, DeleteOutgoingTx.
  pres; try by apply preserves_setUnbatchedSendToEthereum.
  all: by apply preserves_modify.
Qed.

Lemma preserves_BuildBatchTx (Hd : consts_distinct) (contractAddress : bytes)
    (maxElements : Z) :
  preserves (BuildBatchTx env contractAddress maxElements).
Proof.
  assert (LastOutgoingBatchNonceKey <> OutgoingTxKey) by prefix_ne Hd.
  assert (LastOutgoingBatchNonceKey <> SendToEthereumKey) by prefix_ne Hd.
  unfold BuildBatchTx, getLastOutgoingBatchByTokenType, getBatchFeesByTokenType,
    IterateOutgoingTxsByType, iterateUnbatchedSendToEthereumsByContract,
    decodeOutgoing, decodeSendToEthereum, deleteUnbatchedSendToEthereum,
    incrementLastOutgoingBatchNonce.
  pres; try by apply preserves_SetOutgoingTx.
  all: by apply preserves_storeSet_other.
Qed.

Lemma preserves_CreateSignerSetTx (Hd : consts_distinct) :
  preserves (CreateSignerSetTx env).
Proof.
  assert (LatestSignerSetTxNonceKey <> OutgoingTxKey) by prefix_ne Hd.
  assert (LatestSignerSetTxNonceKey <> SendToEthereumKey) by prefix_ne Hd.
  unfold CreateSignerSetTx, incrementLatestSignerSetTxNonce.
  pres; try by apply preserves_SetOutgoingTx.
  all: by apply preserves_storeSet_other.
Qed.

Lemma preserves_SetEthereumSignature (Hd : consts_distinct)
    (storeIndex signature val : bytes) :
  preserves (SetEthereumSignature storeIndex signature val).
Proof.
  assert (EthereumSignatureKey <> OutgoingTxKey) by prefix_ne Hd.
  assert (EthereumSignatureKey <> SendToEthereumKey) by prefix_ne Hd.
  unfold SetEthereumSignature, MakeEthereumSignatureKey. pres.
  by apply preserves_storeSet_other.
Qed.

Lemma preserves_MigrateGravityContract (Hd : consts_distinct)
    (newBridgeAddress : string) (bridgeDeploymentHeight : Z) :
  preserves (MigrateGravityContract env newBridgeAddress bridgeDeploymentHeight).
Proof.
  assert (LatestSignerSetTxNonceKey <> OutgoingTxKey) by prefix_ne Hd.
  assert (LatestSignerSetTxNonceKey <> SendToEthereumKey) by prefix_ne Hd.
  assert (LastObservedEventNonceKey <> OutgoingTxKey) by prefix_ne Hd.
  assert (LastObservedEventNonceKey <> SendToEthereumKey) by prefix_ne Hd.
  assert (LastEventNonceByValidatorKey <> OutgoingTxKey) by prefix_ne Hd.
  assert (LastEventNonceByValidatorKey <> SendToEthereumKey) by prefix_ne Hd.
  assert (LastEthereumBlockHeightKey <> OutgoingTxKey) by prefix_ne Hd.
  assert (LastEthereumBlockHeightKey <> SendToEthereumKey) by prefix_ne Hd.
  assert (LastObservedSignerSetKey <> OutgoingTxKey) by prefix_ne Hd.
  assert (LastObservedSignerSetKey <> SendToEthereumKey) by prefix_ne Hd.
  assert (LastOutgoingBatchNonceKey <> OutgoingTxKey) by prefix_ne Hd.
  assert (LastOutgoingBatchNonceKey <> SendToEthereumKey) by prefix_ne Hd.
  unfold MigrateGravityContract, sweepOutgoing, setLastObservedEventNonce,
    iterateEthereumEventVoteRecords, resetVoters, setLastEventNonceByValidator,
    setLastObservedSignerSetTx.
  pres; try by apply preserves_DeleteEthereumSignatures.
  all: try by apply preserves_storeSet_other.
  all: by apply preserves_modify.
Qed.

Lemma preserves_call (Hd : consts_distinct) (c : Call) : preserves (call env c).
Proof.
  destruct c; cbn [call];
    [| by apply preserves_BuildBatchTx |..];
    (apply preserves_bind; [|intros; apply preserves_ret]).
  - by apply preserves_setUnbatchedSendToEthereum.
  - by apply preserves_batchTxExecuted.
  - by apply preserves_CancelBatchTx.
  - by apply preserves_SetEthereumSignature.
  - by apply preserves_CreateSignerSetTx.
  - by apply preserves_MigrateGravityContract.
Qed.

(** X22.  Well-formedness of the store is an invariant of the keeper:
    after any sequence of pool insertions, [BuildBatchTx],
    [batchTxExecuted], [CancelBatchTx], [SetEthereumSignature],
    [CreateSignerSetTx] and [MigrateGravityContract] calls on a store in
    which every outgoing transaction sits under its own store index and
    every unbatched transfer in its own pool slot, the same holds. *)
Theorem run_keeps_well_formed (calls : list Call) (s : State)
    (created : list BatchTx) (s' : State) :
  consts_distinct -> wf_outgoing s -> wf_pool s ->
  run env calls s = Some (created, s') ->
  wf_outgoing s' /\ wf_pool s'.
Proof.
  intros Hd Hwo Hwp Hrun. eapply keeps_wf_sound; [|done|done].
  revert Hrun. clear Hwo Hwp. revert s created s'.
  change (preserves (run env calls)).
  induction calls as [|c calls IH]; cbn [run]; [apply preserves_ret|].
  apply preserves_bind; [by apply preserves_call|]. intros r.
  apply preserves_bind; [exact IH|]. intros l. apply preserves_ret.
Qed.

End WellFormedKept.

(** ** What the migration leaves alone *)

Section MigrationRest.
Context `{TC : TypesConsts} (env : Env).

Lemma same_but_address_refl (p : Params) : same_but_address p p.
Proof. by repeat split. Qed.

Lemma same_but_address_trans (p1 p2 p3 : Params) :
  same_but_address p1 p2 -> same_but_address p2 p3 -> same_but_address p1 p3.
Proof.
  intros (?&?&?&?&?&?) (?&?&?&?&?&?). repeat split; congruence.
Qed.

Lemma only_under_refl (ps : list byte) (s : State) : only_under ps s s.
Proof. split; [done|]. split; [apply same_but_address_refl|done]. Qed.

Lemma only_under_trans (ps : list byte) (s1 s2 s3 : State) :
  only_under ps s1 s2 -> only_under ps s2 s3 -> only_under ps s1 s3.
Proof.
  intros (K1 & P1 & E1 & B1) (K2 & P2 & E2 & B2).
  split; [|split; [by eapply same_but_address_trans|split; congruence]].
  intros K HK. by rewrite K2, K1.
Qed.

Lemma confined_ret {A} (ps : list byte) (a : A) : confined ps (ret a).
Proof. intros s b s' [_ ->]%ret_Some. apply only_under_refl. Qed.

Lemma confined_panic {A} (ps : list byte) : confined ps (@panic A).
Proof. intros s a s' H. done. Qed.

Lemma confined_get_state (ps : list byte) : confined ps get_state.
Proof. intros s a s' [_ ->]%get_state_Some. apply only_under_refl. Qed.

Lemma confined_bind {A B} (ps : list byte) (m : M A) (f : A -> M B) :
  confined ps m -> (forall a, confined ps (f a)) -> confined ps (bind m f).
Proof.
  intros Hm Hf s b s' (a & s1 & H1 & H2)%bind_Some.
  eapply only_under_trans; [by eapply Hm|by eapply Hf].
Qed.

Lemma confined_storeSet (ps : list byte) (b : byte) (r : bytes) (v : Val) :
  b ∈ ps -> confined ps (storeSet (b :: r) v).
Proof.
  intros Hb s [] s' ->%modify_Some.
  split; [|split; [apply same_but_address_refl|done]].
  intros K HK. simpl. apply lookup_insert_ne. intros <-. by apply (HK b r).
Qed.

Lemma confined_storeDelete (ps : list byte) (b : byte) (r : bytes) :
  b ∈ ps -> confined ps (storeDelete (b :: r)).
Proof.
  intros Hb s [] s' ->%modify_Some.
  split; [|split; [apply same_but_address_refl|done]].
  intros K HK. simpl. apply lookup_delete_ne. intros <-. by apply (HK b r).
Qed.

Lemma confined_iterate {X A} (ps : list byte) (l : list X)
    (cb : A -> X -> M (A * bool)) :
  (forall a x, confined ps (cb a x)) -> forall a, confined ps (iterate l cb a).
Proof.
  intros Hcb. induction l as [|x l IH]; intros a; cbn [iterate].
  - apply confined_ret.
  - apply confined_bind; [apply Hcb|]. intros [a' []]; simpl.
    + apply confined_ret.
    + apply IH.
Qed.

Lemma confined_for_each {X} (ps : list byte) (l : list X) (body : X -> M unit) :
  (forall x, confined ps (body x)) -> confined ps (for_each l body).
Proof.
  intros Hb. induction l as [|x l IH]; cbn [for_each].
  - apply confined_ret.
  - apply confined_bind; [apply Hb|]. intros _. apply IH.
Qed.

Lemma confined_update (ps : list byte) (g : State -> State -> State) :
  (forall s, only_under ps s (g s s)) ->
  confined ps (bind get_state (fun s => modify (g s))).
Proof.
  intros Hg s [] s' (s0 & s1 & [-> ->]%get_state_Some & ->%modify_Some)%bind_Some.
  apply Hg.
Qed.

Ltac conf_step :=
  first
    [ apply confined_update; intros
    | apply confined_ret
    | apply confined_panic
    | apply confined_get_state
    | apply confined_iterate; intros
    | apply confined_for_each; intros
    | apply confined_bind; [|intros]
    | lazymatch goal with
      | |- confined _ (match ?x with _ => _ end) => destruct x
      end ].

Lemma MigrateGravityContract_confined (newBridgeAddress : string)
    (bridgeDeploymentHeight : Z) :
  confined migrated_prefixes
    (MigrateGravityContract env newBridgeAddress bridgeDeploymentHeight).
Proof.
  unfold MigrateGravityContract, sweepOutgoing, DeleteEthereumSignatures,
    setLastObservedEventNonce, iterateEthereumEventVoteRecords, resetVoters,
    setLastEventNonceByValidator, setLastObservedSignerSetTx.
  repeat conf_step.
  all: try (apply confined_storeSet; unfold migrated_prefixes;
            repeat first [by left | right]).
  all: try (apply (confined_storeDelete migrated_prefixes);
            unfold migrated_prefixes; repeat first [by left | right]).
  split; [done|]. split; [|done]. by repeat split.
Qed.

(** X23.  Besides what it resets, [MigrateGravityContract] deletes every
    event vote record, stores the empty signer set as the last observed
    one, and leaves [GetLatestSignerSetTx] with nothing to return; it
    writes under nine prefixes only, so that the unbatched pool (to which
    the transfers of the deleted batches are not returned), the address
    directory, the height votes and the slashing bookkeeping are as
    before; it emits no event, calls the bank not at all and changes no
    parameter but the bridge address. *)
Theorem MigrateGravityContract_rest (newBridgeAddress : string)
    (bridgeDeploymentHeight : Z) (s s' : State) :
  consts_distinct ->
  MigrateGravityContract env newBridgeAddress bridgeDeploymentHeight s
    = Some (tt, s') ->
  Iterator [EthereumEventVoteRecordKey] (kv s') = [] /\
  GetLastObservedSignerSetTx s'
    = Some (Some {| Nonce := 0; SignerSetHeight := 0; Signers := [] |}) /\
  GetLatestSignerSetTx env s' = Some None /\
  only_under migrated_prefixes s s' /\
  (forall t, pooled s' t <-> pooled s t) /\
  (forall val, GetValidatorEthereumAddress env s' val
               = GetValidatorEthereumAddress env s val) /\
  (forall orch, GetOrchestratorValidatorAddress env s' orch
                = GetOrchestratorValidatorAddress env s orch) /\
  (forall eth, GetEthereumOrchestratorAddress env s' eth
               = GetEthereumOrchestratorAddress env s eth) /\
  (forall val, GetEthereumHeightVote env s' val = GetEthereumHeightVote env s val) /\
  GetLastSlashedOutgoingTxBlockHeight env s'
    = GetLastSlashedOutgoingTxBlockHeight env s.
Proof.
  intros Hd Hrun.
  pose proof (MigrateGravityContract_confined _ _ _ _ _ Hrun) as Hconf.
  pose proof (MigrateGravityContract_sweeps env _ _ _ _ Hd Hrun)
    as (Hout & _ & _ & _ & Hnonce & _ & _).
  assert (Hkeep : forall b r, b ∉ migrated_prefixes ->
                              kv s' !! (b :: r) = kv s !! (b :: r)).
  { intros b r Hb. apply Hconf. by intros b' r' [= <- <-]. }
  unfold MigrateGravityContract in Hrun.
  apply bind_Some in Hrun as (s0 & s0' & Hget & Hrun).
  apply get_state_Some in Hget as [-> ->].
  apply bind_Some in Hrun as ([] & sa & Hloop & Hrun).
  apply bind_Some in Hrun as ([] & sb & Hb & Hrun).
  apply bind_Some in Hrun as ([] & sc & Hc & Hrun).
  apply bind_Some in Hrun as ([] & sd & Hdd & Hrun).
  apply bind_Some in Hrun as (s1 & s1' & Hget & Hrun).
  apply get_state_Some in Hget as [-> ->].
  apply bind_Some in Hrun as ([] & se & He & Hrun).
  apply bind_Some in Hrun as ([] & sf & Hf & Hrun).
  apply bind_Some in Hrun as ([] & sg & Hg & Hrun).
  apply bind_Some in Hrun as ([] & sh & Hh & Hrun).
  apply bind_Some in Hrun as (s2 & s2' & Hget & Hrun).
  apply get_state_Some in Hget as [-> ->].
  apply modify_Some in Hrun.
  rewrite (delete_prefix_entries [EthereumEventVoteRecordKey]) in He.
  injection He as <-.
  apply modify_Some in Hf, Hg, Hh. subst sf sg sh.
  assert (Hkv : kv s' =
    <[[LastOutgoingBatchNonceKey] := VBytes (Uint64ToBigEndian 0)]>
      (<[[LastObservedSignerSetKey] :=
           VSignerSetTx {| Nonce := 0; SignerSetHeight := 0; Signers := [] |}]>
         (<[[LastEthereumBlockHeightKey] :=
              VHeight {| EthereumHeight := uint64 (bridgeDeploymentHeight - 1);
                         CosmosHeight := uint64 (BlockHeight env) |}]>
            (sweep [EthereumEventVoteRecordKey] (kv sd)))))
    by (by subst s').
  clear Hrun Hloop Hb Hc Hdd.
  assert (N1 : LastOutgoingBatchNonceKey <> EthereumEventVoteRecordKey)
    by prefix_ne Hd.
  assert (N2 : LastObservedSignerSetKey <> EthereumEventVoteRecordKey)
    by prefix_ne Hd.
  assert (N3 : LastEthereumBlockHeightKey <> EthereumEventVoteRecordKey)
    by prefix_ne Hd.
  assert (N4 : LastOutgoingBatchNonceKey <> LastObservedSignerSetKey)
    by prefix_ne Hd.
  split; [|split; [|split; [|split; [exact Hconf|]]]].
  - apply Iterator_nil_iff. intros k. rewrite Hkv. simpl.
    rewrite !lookup_insert_ne by congruence.
    rewrite lookup_sweep. simpl. by rewrite decide_True.
  - unfold GetLastObservedSignerSetTx. rewrite Hkv.
    rewrite lookup_insert_ne by congruence. by rewrite lookup_insert_eq.
  - unfold GetLatestSignerSetTx. rewrite Hnonce. unfold GetOutgoingTx.
    by rewrite Hout.
  - split; [|split; [|split; [|split; [|split]]]].
    + intros t. unfold pooled, poolKey, MakeSendToEthereumKey.
      rewrite Hkeep; [done|].
      unfold migrated_prefixes.
      repeat (apply not_elem_of_cons; split; [prefix_ne Hd|]).
      apply not_elem_of_nil.
    + intros val. unfold GetValidatorEthereumAddress, storeGet,
        MakeValidatorEthereumAddressKey.
      rewrite Hkeep; [done|].
      unfold migrated_prefixes.
      repeat (apply not_elem_of_cons; split; [prefix_ne Hd|]).
      apply not_elem_of_nil.
    + intros orch. unfold GetOrchestratorValidatorAddress, storeGet,
        MakeOrchestratorValidatorAddressKey.
      rewrite Hkeep; [done|].
      unfold migrated_prefixes.
      repeat (apply not_elem_of_cons; split; [prefix_ne Hd|]).
      apply not_elem_of_nil.
    + intros eth. unfold GetEthereumOrchestratorAddress, storeGet,
        MakeEthereumOrchestratorAddressKey.
      rewrite Hkeep; [done|].
      unfold migrated_prefixes.
      repeat (apply not_elem_of_cons; split; [prefix_ne Hd|]).
      apply not_elem_of_nil.
    + intros val. unfold GetEthereumHeightVote, MakeEthereumHeightVoteKey.
      rewrite Hkeep; [done|].
      unfold migrated_prefixes.
      repeat (apply not_elem_of_cons; split; [prefix_ne Hd|]).
      apply not_elem_of_nil.
    + unfold GetLastSlashedOutgoingTxBlockHeight, storeGet.
      rewrite Hkeep; [done|].
      unfold migrated_prefixes.
      repeat (apply not_elem_of_cons; split; [prefix_ne Hd|]).
      apply not_elem_of_nil.
Qed.

End MigrationRest.

(** ** The pool in fee order *)

(** Keys that start with fields of one length compare on those fields
    first. *)
Lemma key_leb_app_fields (x y u v : bytes) :
  length x = length y ->
  key_leb (x ++ u) (y ++ v) =
  if decide (x = y) then key_leb u v else key_leb x y.
Proof.
  revert y. induction x as [|a x IH]; intros [|b y] Hl; simpl in Hl; try done.
  simpl. rewrite IH by lia.
  destruct (Z.ltb_spec (Z_of_byte a) (Z_of_byte b)) as [Hab|Hab].
  { destruct (decide (a :: x = b :: y)) as [[= -> ->]|]; [lia|done]. }
  destruct (Z.ltb_spec (Z_of_byte b) (Z_of_byte a)) as [Hba|Hba].
  { destruct (decide (a :: x = b :: y)) as [[= -> ->]|]; [lia|done]. }
  assert (a = b) as -> by (apply Z_of_byte_inj; lia).
  destruct (decide (x = y)) as [->|Hne].
  - by rewrite decide_True.
  - rewrite decide_False; [done|congruence].
Qed.

Lemma StronglySorted_omap {A B} (R : relation A) (R' : relation B)
    (f : A -> option B) (l : list A) :
  (forall x y x' y', x ∈ l -> y ∈ l -> f x = Some x' -> f y = Some y' ->
                     R x y -> R' x' y') ->
  StronglySorted R l -> StronglySorted R' (omap f l).
Proof.
  intros Himpl Hs. induction Hs as [|x l Hs IH Hall]; [constructor|].
  cbn [omap list_omap].
  assert (IH' : StronglySorted R' (omap f l)).
  { apply IH. intros a b a' b' Ha Hb. apply Himpl; by right. }
  destruct (f x) as [x'|] eqn:Hx; [|exact IH'].
  constructor; [exact IH'|].
  apply Forall_forall. intros y' Hy'.
  apply list_elem_of_omap in Hy' as (y & Hy & Hfy).
  rewrite Forall_forall in Hall.
  eapply (Himpl x y); [left|by right|done|done|by apply Hall].
Qed.

Lemma StronglySorted_take {A} (R : relation A) (n : nat) (l : list A) :
  StronglySorted R l -> StronglySorted R (take n l).
Proof.
  intros Hs. rewrite <- (take_drop n l) in Hs.
  by apply StronglySorted_app_1_l in Hs.
Qed.

Section PoolOrder.
Context `{TC : TypesConsts} (env : Env).

(** The pool iterator of a contract yields the largest fee first. *)
Lemma fees_fit_pooled (s : State) (contract : bytes) (t : SendToEthereum) :
  fees_fit s contract -> pooled s t ->
  length (Contract (Erc20Fee t)) = length contract /\
  Z.of_N (Amount (Erc20Fee t)) < 256 ^ 32.
Proof.
  unfold fees_fit, pooled. rewrite forallb_forall. intros Hall Hp.
  specialize (Hall (tail (poolKey t), VSendToEthereum t)).
  unfold fee_fits in Hall. simpl in Hall.
  apply andb_true_iff in Hall as [H1 H2].
  - apply bool_decide_eq_true in H1. apply Z.ltb_lt in H2. done.
  - apply list_elem_of_In. by apply (elem_of_Iterator [SendToEthereumKey]).
Qed.

Lemma unbatchedTransfers_sorted (s : State) (contract : bytes) :
  wf_pool s -> fees_fit s contract ->
  StronglySorted (fun a b => (Amount (Erc20Fee b) <= Amount (Erc20Fee a))%N)
                 (unbatchedTransfers s contract).
Proof.
  intros Hwp Hfee. unfold unbatchedTransfers, transfers_of.
  set (R := ReverseIterator (SendToEthereumKey :: contract) (kv s)).
  assert (Hs : StronglySorted (flip entry_le) R)
    by apply StronglySorted_reverse, StronglySorted_Iterator.
  assert (Hent : forall k t, (k, VSendToEthereum t) ∈ R ->
            k = be_bytes 32 (Z.of_N (Amount (Erc20Fee t)))
                  ++ Uint64ToBigEndian (Id t) /\
            Z.of_N (Amount (Erc20Fee t)) < 256 ^ 32).
  { intros k t Hin. apply elem_of_ReverseIterator in Hin.
    destruct (wf_pool_lookup s (contract ++ k) _ Hwp Hin) as (t' & [= <-] & Hk).
    assert (Hp : pooled s t) by (unfold pooled; by rewrite <- Hk).
    destruct (fees_fit_pooled s contract t Hfee Hp) as [Hlen Hb].
    split; [|done].
    unfold poolKey, MakeSendToEthereumKey in Hk. injection Hk as Hk.
    apply app_inj_1 in Hk as [_ Hk]; [done|by symmetry]. }
  eapply (StronglySorted_omap (flip entry_le)); [|exact Hs].
  intros [kx vx] [ky vy] a b Hx Hy Ha Hb Hle. simpl in Ha, Hb.
  destruct vx as [| |tx| | |]; try done. injection Ha as ->.
  destruct vy as [| |ty| | |]; try done. injection Hb as ->.
  destruct (Hent _ _ Hx) as [-> Hbx]. destruct (Hent _ _ Hy) as [-> Hby].
  unfold flip, entry_le in Hle. cbn [fst] in Hle.
  rewrite key_leb_app_fields in Hle by by rewrite !length_be_bytes.
  destruct (decide _) as [E|E].
  - apply be_bytes_inj in E; [lia|lia|lia].
  - rewrite key_leb_be_bytes in Hle by lia. apply Z.leb_le in Hle. lia.
Qed.

(** X24.  With fees below 2^256 and fee contracts of the length of the
    contract asked for, the pool iterator yields the unbatched transfers
    of a contract by descending fee; so a batch [BuildBatchTx] creates is
    a prefix of that order: its transfers are in descending fee order and
    no transfer left in the contract's pool pays more than one it took. *)
Theorem BuildBatchTx_takes_highest_fees (contract : bytes) (maxElements : Z)
    (s : State) (b : BatchTx) (s' : State) :
  wf_pool s -> fees_fit s contract ->
  BuildBatchTx env contract maxElements s = Some (Some b, s') ->
  StronglySorted (fun a b => (Amount (Erc20Fee b) <= Amount (Erc20Fee a))%N)
                 (unbatchedTransfers s contract) /\
  exists rest,
    unbatchedTransfers s contract = Transactions b ++ rest /\
    forall t t', t ∈ Transactions b -> t' ∈ rest ->
                 (Amount (Erc20Fee t') <= Amount (Erc20Fee t))%N.
Proof.
  intros Hwp Hfee Hrun.
  pose proof (unbatchedTransfers_sorted s contract Hwp Hfee) as Hs.
  split; [exact Hs|].
  apply BuildBatchTx_inv in Hrun as [[Hr _]|(Hne0 & H)]; [done|].
  destruct H as (selected & s1 & n & timeout & Hsel & Hne & Hn & Ht & Hr & ->).
  injection Hr as ->.
  pose proof (selection_loop maxElements
                (ReverseIterator (SendToEthereumKey :: contract) (kv s)) [] s
                (wf_pool_all_transfers s contract Hwp)) as Hloop.
  cbn zeta in Hloop. unfold selectTransfer in Hsel. rewrite Hsel in Hloop.
  injection Hloop as Hsel' _. cbn [length] in Hsel'.
  replace (maxElements - Z.of_nat 0) with maxElements in Hsel' by lia.
  fold (unbatchedTransfers s contract) in Hsel'. simpl in Hsel'.
  cbn [Transactions newBatch]. subst selected. unfold window.
  destruct (0 <? maxElements).
  - exists (drop (Z.to_nat maxElements) (unbatchedTransfers s contract)).
    split; [by rewrite take_drop|].
    intros t t' Hin Hin'.
    rewrite <- (take_drop (Z.to_nat maxElements)
                  (unbatchedTransfers s contract)) in Hs.
    exact (StronglySorted_app_1_elem_of _ _ _ _ _ Hs Hin Hin').
  - exists []. split; [by rewrite app_nil_r|].
    intros t t' _ Hin'. by apply elem_of_nil in Hin'.
Qed.

End PoolOrder.

(** ** The properties of the rest of the keeper, on the examples *)

(** A call that evaluates to a created batch has created one. *)
Lemma created_by_evaluation {A B} (o : option (option A * B)) :
  match o with Some (Some _, _) => true | _ => false end = true ->
  exists a b, o = Some (Some a, b).
Proof. destruct o as [[[a|] b]|]; [by exists a, b|done|done]. Qed.

Lemma no_outgoing_in_pooledState (idx : bytes) :
  kv pooledState !! MakeOutgoingTxKey (TC := exampleConsts) idx = None.
Proof.
  apply (proj1 (Iterator_nil_iff [@OutgoingTxKey exampleConsts] (kv pooledState))).
  vm_compute. reflexivity.
Qed.

(** Both batches of S3 lie in the slashing window (0, 200). *)
Lemma GetUnSlashedOutgoingTxs_spec_witness :
  exists out,
    GetUnSlashedOutgoingTxs (TC := exampleConsts) sharesEnv 200 twoBatchState
      = Some (out, twoBatchState) /\
    OtxBatch firstBatch ∈ out /\ OtxBatch secondBatch ∈ out.
Proof.
  destruct (GetUnSlashedOutgoingTxs_spec (TC := exampleConsts) sharesEnv
              200 0 twoBatchState) as (out & Hrun & Hiff).
  - vm_compute. reflexivity.
  - vm_compute. reflexivity.
  - exists out. split; [exact Hrun|]. split; apply Hiff.
    + split; [|simpl; lia].
      exists (GetStoreIndex (TC := exampleConsts) (OtxBatch firstBatch)).
      vm_compute. reflexivity.
    + split; [|simpl; lia].
      exists (GetStoreIndex (TC := exampleConsts) (OtxBatch secondBatch)).
      vm_compute. reflexivity.
Defined.

(** Heights (10, 50) observed, block 100, block times 5 s and 15 s, a
    timeout of 12 h: 10 + 16 + 2880. *)
Lemma getTimeoutHeight_cases_witness :
  GetLastObservedEthereumBlockHeight (TC := exampleConsts) observedState
    = Some {| EthereumHeight := 10; CosmosHeight := 50 |} /\
  getTimeoutHeight (TC := exampleConsts) sharesEnv observedState = Some 2906.
Proof.
  assert (Hobs : GetLastObservedEthereumBlockHeight (TC := exampleConsts)
                   observedState
                 = Some {| EthereumHeight := 10; CosmosHeight := 50 |})
    by (vm_compute; reflexivity).
  split; [exact Hobs|].
  destruct (getTimeoutHeight_cases (TC := exampleConsts) sharesEnv observedState
              _ Hobs) as (_ & _ & H).
  rewrite H; [vm_compute; reflexivity|vm_compute; intuition congruence..].
Defined.

(** S1: the two largest fees of the pool are 3 and 2. *)
Lemma GetBatchFeesByTokenType_window_witness :
  wf_pool (TC := exampleConsts) pooledState /\
  GetBatchFeesByTokenType (TC := exampleConsts) tokenC 2 pooledState
    = Some (5%N, pooledState).
Proof.
  assert (Hwp : wf_pool (TC := exampleConsts) pooledState)
    by (vm_compute; reflexivity).
  split; [exact Hwp|].
  destruct (GetBatchFeesByTokenType_window (TC := exampleConsts) sharesEnv
              pooledState tokenC 2 Hwp) as [H _].
  rewrite H. do 2 f_equal.
Defined.

(** Cancelling the first batch of S3 puts its two transfers back. *)
Lemma CancelBatchTx_releases_witness :
  exists s',
    CancelBatchTx (TC := exampleConsts) firstBatch twoBatchState = Some (tt, s') /\
    pooled (TC := exampleConsts) s' (transfer 1 10 3) /\
    pooled (TC := exampleConsts) s' (transfer 3 10 2).
Proof.
  destruct (CancelBatchTx_releases (TC := exampleConsts) firstBatch twoBatchState
              exampleConsts_distinct) as (s' & Hrun & Hpool & _).
  - apply (bool_decide_unpack _). vm_compute. exact I.
  - exists s'. split; [exact Hrun|].
    split; apply Hpool; [left|right; left].
Defined.

(** Two signer sets were created: they are listed, the later first. *)
Lemma GetSignerSetTxs_newest_first_witness :
  exists l,
    GetSignerSetTxs (TC := exampleConsts) signerSetState
      = Some (Some <$> l, signerSetState) /\
    length l = 2%nat /\
    StronglySorted (fun a b => uint64 (Nonce b) < uint64 (Nonce a)) l.
Proof.
  destruct (GetSignerSetTxs_newest_first (TC := exampleConsts) signerSetState
              exampleConsts_distinct) as (l & Hrun & _ & Hs).
  - vm_compute. reflexivity.
  - exists l. split; [exact Hrun|]. split; [|exact Hs].
    assert (E : (fun r : list (option SignerSetTx) * State => length r.1)
                  <$> GetSignerSetTxs (TC := exampleConsts) signerSetState
                = Some 2%nat) by (vm_compute; reflexivity).
    rewrite Hrun in E. simpl in E. rewrite length_fmap in E.
    by injection E.
Defined.

(** The first signer set of the registered validators gets nonce 1. *)
Lemma CreateSignerSetTx_stores_latest_witness :
  exists sstx s',
    CreateSignerSetTx (TC := exampleConsts) sharesEnv registeredState
      = Some (sstx, s') /\
    Nonce sstx = 1 /\
    GetLatestSignerSetTx (TC := exampleConsts) sharesEnv s' = Some (Some sstx).
Proof.
  destruct (CreateSignerSetTx_stores_latest (TC := exampleConsts) sharesEnv
              registeredState 0 exampleConsts_distinct) as [_ H].
  - vm_compute. reflexivity.
  - destruct (CurrentSignerSet (TC := exampleConsts) sharesEnv registeredState)
      as [signers|] eqn:Hc;
      [|by apply (returns_by_evaluation
                    (CurrentSignerSet (TC := exampleConsts) sharesEnv
                       registeredState)) in Hc; [|vm_compute]].
    destruct (H signers eq_refl) as (s' & Hrun & _ & Hlatest & _).
    eexists _, s'. split; [exact Hrun|]. split; [reflexivity|exact Hlatest].
Defined.

(** The vote of [va] is handed over under [va]'s address. *)
Lemma IterateEthereumHeightVotes_names_witness :
  exists out,
    IterateEthereumHeightVotes (TC := exampleConsts)
      (fun (out : list (bytes * LatestEthereumBlockHeight)) val height =>
         ret (out ++ [(val, height)], false)) [] votedState
    = Some (out, votedState) /\
    (va, {| EthereumHeight := 7; CosmosHeight := 100 |}) ∈ out.
Proof.
  destruct (IterateEthereumHeightVotes_names (TC := exampleConsts) votedState)
    as (out & Hrun & _ & Hshort).
  - vm_compute. reflexivity.
  - exists out. split; [exact Hrun|]. apply Hshort.
    + vm_compute. reflexivity.
    + simpl. lia.
Defined.

(** S3: of the two batches the one with nonce 2 is the latest. *)
Lemma getLastOutgoingBatchByTokenType_latest_witness :
  exists lb,
    getLastOutgoingBatchByTokenType (TC := exampleConsts) tokenC twoBatchState
      = Some (Some lb, twoBatchState) /\
    BatchNonce lb = 2 /\
    stored_batch (TC := exampleConsts) twoBatchState lb.
Proof.
  destruct (getLastOutgoingBatchByTokenType_latest (TC := exampleConsts)
              tokenC twoBatchState exampleConsts_distinct (proj1 twoBatchState_wf))
    as (r & Hrun & Hr).
  assert (E : (fun x : option BatchTx * State => BatchNonce <$> x.1)
                <$> getLastOutgoingBatchByTokenType (TC := exampleConsts)
                      tokenC twoBatchState
              = Some (Some 2)) by (vm_compute; reflexivity).
  rewrite Hrun in E. simpl in E. destruct r as [lb|]; [|discriminate E].
  exists lb. split; [exact Hrun|]. simpl in E.
  split; [by injection E|]. by destruct Hr.
Defined.

(** S1: a batch of two takes the transfers with the fees 3 and 2. *)
Lemma BuildBatchTx_takes_window_witness :
  exists b s',
    BuildBatchTx (TC := exampleConsts) sharesEnv tokenC 2 pooledState
      = Some (Some b, s') /\
    Transactions b = [transfer 1 10 3; transfer 3 10 2].
Proof.
  destruct (created_by_evaluation
              (BuildBatchTx (TC := exampleConsts) sharesEnv tokenC 2 pooledState))
    as (b & s' & Hrun); [vm_compute; reflexivity|].
  exists b, s'. split; [exact Hrun|].
  destruct (BuildBatchTx_takes_window (TC := exampleConsts) sharesEnv tokenC 2
              pooledState b s' exampleConsts_distinct) as (Htxs & _).
  - vm_compute. reflexivity.
  - exact Hrun.
  - rewrite Htxs. vm_compute. reflexivity.
Defined.

(** S1: building a batch of two and cancelling it restores the store. *)
Lemma BuildBatchTx_then_CancelBatchTx_witness :
  exists b s1 s2,
    BuildBatchTx (TC := exampleConsts) sharesEnv tokenC 2 pooledState
      = Some (Some b, s1) /\
    CancelBatchTx (TC := exampleConsts) b s1 = Some (tt, s2) /\
    (forall K, K <> [@LastOutgoingBatchNonceKey exampleConsts] ->
               kv s2 !! K = kv pooledState !! K).
Proof.
  destruct (created_by_evaluation
              (BuildBatchTx (TC := exampleConsts) sharesEnv tokenC 2 pooledState))
    as (b & s1 & Hrun); [vm_compute; reflexivity|].
  destruct (BuildBatchTx_then_CancelBatchTx (TC := exampleConsts) sharesEnv
              tokenC 2 pooledState b s1 exampleConsts_distinct)
    as (s2 & Hc & Hkv & _).
  - vm_compute. reflexivity.
  - exact Hrun.
  - apply no_outgoing_in_pooledState.
  - exists b, s1, s2. split; [exact Hrun|]. split; [exact Hc|exact Hkv].
Defined.

(** The store stays well formed along the steady sequence of calls. *)
Lemma run_keeps_well_formed_witness :
  exists created s',
    run (TC := exampleConsts) sharesEnv steadyCalls emptyState
      = Some (created, s') /\
    wf_outgoing (TC := exampleConsts) s' /\ wf_pool (TC := exampleConsts) s'.
Proof.
  destruct (result_by_evaluation
              (run (TC := exampleConsts) sharesEnv steadyCalls emptyState))
    as (created & s' & Hrun); [vm_compute; reflexivity|].
  exists created, s'. split; [exact Hrun|].
  apply (run_keeps_well_formed (TC := exampleConsts) sharesEnv steadyCalls
           emptyState created s' exampleConsts_distinct).
  - vm_compute. reflexivity.
  - vm_compute. reflexivity.
  - exact Hrun.
Defined.

(** Migrating the signed state: the transfer that was left in the pool is
    still there, and the empty signer set is the last observed one. *)
Lemma MigrateGravityContract_rest_witness :
  let s' := exec (MigrateGravityContract (TC := exampleConsts) sharesEnv "0xb2" 500)
                 signedState in
  MigrateGravityContract (TC := exampleConsts) sharesEnv "0xb2" 500 signedState
    = Some (tt, s') /\
  (forall t, pooled (TC := exampleConsts) s' t
             <-> pooled (TC := exampleConsts) signedState t) /\
  GetLastObservedSignerSetTx (TC := exampleConsts) s'
    = Some (Some {| Nonce := 0; SignerSetHeight := 0; Signers := [] |}).
Proof.
  intros s'.
  assert (Hrun : MigrateGravityContract (TC := exampleConsts) sharesEnv "0xb2" 500
                   signedState = Some (tt, s')).
  { apply exec_Some, returns_by_evaluation. vm_compute. reflexivity. }
  split; [exact Hrun|].
  destruct (MigrateGravityContract_rest (TC := exampleConsts) sharesEnv "0xb2" 500
              signedState s' exampleConsts_distinct Hrun)
    as (_ & Hobs & _ & _ & Hpool & _).
  split; [exact Hpool|exact Hobs].
Defined.

(** S1: the pool is in descending fee order, and so is the batch. *)
Lemma BuildBatchTx_takes_highest_fees_witness :
  exists b s',
    BuildBatchTx (TC := exampleConsts) sharesEnv tokenC 2 pooledState
      = Some (Some b, s') /\
    StronglySorted (fun a b => (Amount (Erc20Fee b) <= Amount (Erc20Fee a))%N)
                   (unbatchedTransfers (TC := exampleConsts) pooledState tokenC).
Proof.
  destruct (created_by_evaluation
              (BuildBatchTx (TC := exampleConsts) sharesEnv tokenC 2 pooledState))
    as (b & s' & Hrun); [vm_compute; reflexivity|].
  exists b, s'. split; [exact Hrun|].
  destruct (BuildBatchTx_takes_highest_fees (TC := exampleConsts) sharesEnv
              tokenC 2 pooledState b s') as [Hs _].
  - vm_compute. reflexivity.
  - vm_compute. reflexivity.
  - exact Hrun.
  - exact Hs.
Defined.
